(** * Feed normalisation and pagination of the LinkedIn activity fetcher

    A shallow embedding of the response decoding, media resolution, post
    assembly, numbering and pagination routines of
    [linkedin_activity_fetcher.py], and of the identity and de-duplication
    routines of [test/linkedin_parser_enhanced.py]; then of the downloads
    and the media summary of the fetcher, of the status manager, the workers
    and the feed of [web_app.py], and of the list of tracked users of
    [user_manager.py].

    The Python code probes decoded JSON bodies with [dict.get] and relies on
    [try]/[except] to absorb what goes wrong, so the embedding works on an
    untyped JSON value and on a small exception monad: a Python exception is
    [Raise], and every [try] block of the source is a [match] on the result. *)

From Stdlib Require Import ZArith String Ascii List Bool Lia Sorted.
From Stdlib Require Import DecimalString.
From Stdlib Require DecimalZ DecimalPos.
From stdpp Require Import base option list gmap strings.

Local Open Scope Z_scope.

(** ** Decoded JSON values *)

Module Py.

(** What [json.load] and [response.json()] return.  Numbers are integers
    (JSON floats are not part of the model); a [str] is a Rocq string that
    holds the text in UTF-8, one [ascii] for each byte.  Equality, order,
    concatenation and the search of an ASCII separator are the same on the
    bytes as on the characters; a text is walked character by character
    ([characters]), and its length and the blanks at its ends are read on
    its code points ([Parser.code_points]). *)
#[warnings="-register-all"]
Inductive json : Type :=
| JNull
| JBool (b : bool)
| JNum (n : Z)
| JStr (s : string)
| JList (l : list json)
| JDict (d : list (string * json)).

(** ** Exceptions *)

Inductive result (A : Type) : Type :=
| Ok (a : A)
| Raise.
Arguments Ok {A} a.
Arguments Raise {A}.

Definition bind {A B : Type} (m : result A) (k : A -> result B) : result B :=
  match m with
  | Ok a => k a
  | Raise => Raise
  end.

Notation "x <- m ;; k" := (bind m (fun x => k))
  (at level 100, m at level 99, k at level 200, right associativity).

(** [try: m except: return d] *)
Definition try_except {A : Type} (m : result A) (d : A) : A :=
  match m with
  | Ok a => a
  | Raise => d
  end.

(** ** Python primitives on JSON values *)

(** [bool(v)]: [None], [False], [0], [''], [[]] and [{}] are false. *)
Definition truthy (v : json) : bool :=
  match v with
  | JNull => false
  | JBool b => b
  | JNum n => negb (n =? 0)
  | JStr s => negb (String.eqb s "")
  | JList l => match l with [] => false | _ => true end
  | JDict d => match d with [] => false | _ => true end
  end.

(** [a or b] *)
Definition py_or (a b : json) : json := if truthy a then a else b.

(** A dictionary keeps its entries in insertion order; an entry is found by
    its key. *)
Fixpoint dict_lookup (k : string) (d : list (string * json)) : option json :=
  match d with
  | [] => None
  | (k', v) :: d' => if String.eqb k' k then Some v else dict_lookup k d'
  end.

(** [v.get(k, default)]: only a [dict] has [get]. *)
Definition py_get (v : json) (k : string) (default : json) : result json :=
  match v with
  | JDict d => Ok (match dict_lookup k d with Some x => x | None => default end)
  | _ => Raise
  end.

Definition is_dict (v : json) : bool :=
  match v with JDict _ => true | _ => false end.

(** [bool] is a subclass of [int]: [True == 1]. *)
Definition as_int (v : json) : option Z :=
  match v with
  | JBool b => Some (if b then 1 else 0)
  | JNum n => Some n
  | _ => None
  end.

(** [a == b].  Two dictionaries are equal when they have as many entries and
    every entry of the first is found, with an equal value, in the second. *)
Fixpoint py_eq (a b : json) {struct a} : bool :=
  match a with
  | JNull => match b with JNull => true | _ => false end
  | JBool x =>
      match as_int b with Some y => (if x then 1 else 0) =? y | None => false end
  | JNum x =>
      match as_int b with Some y => x =? y | None => false end
  | JStr x => match b with JStr y => String.eqb x y | _ => false end
  | JList la =>
      match b with
      | JList lb =>
          (fix go (la lb : list json) {struct la} : bool :=
             match la, lb with
             | [], [] => true
             | x :: la', y :: lb' => py_eq x y && go la' lb'
             | _, _ => false
             end) la lb
      | _ => false
      end
  | JDict da =>
      match b with
      | JDict db =>
          (length da =? length db)%nat &&
          (fix go (da : list (string * json)) {struct da} : bool :=
             match da with
             | [] => true
             | (k, v) :: da' =>
                 match dict_lookup k db with
                 | Some v' => py_eq v v'
                 | None => false
                 end && go da'
             end) da
      | _ => false
      end
  end.

(** [a > b]: defined between numbers, between strings and between lists;
    anything else is a [TypeError]. *)
Fixpoint py_gt (a b : json) {struct a} : result bool :=
  match a with
  | JBool _ | JNum _ =>
      match as_int a, as_int b with
      | Some x, Some y => Ok (y <? x)
      | _, _ => Raise
      end
  | JStr x => match b with JStr y => Ok (String.ltb y x) | _ => Raise end
  | JList la =>
      match b with
      | JList lb =>
          (fix go (la lb : list json) {struct la} : result bool :=
             match la, lb with
             | [], _ => Ok false
             | _ :: _, [] => Ok true
             | x :: la', y :: lb' => if py_eq x y then go la' lb' else py_gt x y
             end) la lb
      | _ => Raise
      end
  | _ => Raise
  end.

(** [a + b] *)
Definition py_add (a b : json) : result json :=
  match a, b with
  | JStr x, JStr y => Ok (JStr (x +:+ y))
  | JList x, JList y => Ok (JList (x ++ y))
  | _, _ =>
      match as_int a, as_int b with
      | Some x, Some y => Ok (JNum (x + y))
      | _, _ => Raise
      end
  end.

(** A byte that continues a character of several bytes. *)
Definition continues (c : ascii) : bool :=
  let n := N_of_ascii c in ((128 <=? n) && (n <? 192))%N.

(** The characters of a string, each with its bytes. *)
Fixpoint characters (s : string) : list string :=
  match s with
  | EmptyString => []
  | String c s' =>
      let rest := characters s' in
      match s', rest with
      | String c' _, g :: gs =>
          if continues c' then String c g :: gs
          else String c EmptyString :: rest
      | _, _ => String c EmptyString :: rest
      end
  end.

Definition chars (s : string) : list json := map JStr (characters s).

(** [for x in v]: a list gives its items, a dictionary its keys, a string
    its characters; nothing else can be iterated. *)
Definition py_iter (v : json) : result (list json) :=
  match v with
  | JList l => Ok l
  | JDict d => Ok (map (fun kv => JStr (fst kv)) d)
  | JStr s => Ok (chars s)
  | _ => Raise
  end.

(** [v[0]].  The keys of a decoded dictionary are strings, so [d[0]] is a
    [KeyError]. *)
Definition py_index0 (v : json) : result json :=
  match v with
  | JList (x :: _) => Ok x
  | JStr s =>
      match characters s with
      | c :: _ => Ok (JStr c)
      | [] => Raise
      end
  | _ => Raise
  end.

(** [v[:n]] is defined on strings and lists only. *)
Definition sliceable (v : json) : bool :=
  match v with JStr _ | JList _ => true | _ => false end.

(** Keys of a Python dictionary built by the program: [None], numbers
    ([True] and [1] are the same key) and strings can be hashed, lists and
    dictionaries cannot. *)
Definition pykey : Type := option (string + Z).

Definition hash_key (v : json) : result pykey :=
  match v with
  | JNull => Ok None
  | JBool b => Ok (Some (inr (if b then 1 else 0)))
  | JNum n => Ok (Some (inr n))
  | JStr s => Ok (Some (inl s))
  | JList _ | JDict _ => Raise
  end.

End Py.

(** ** The activity fetcher: [linkedin_activity_fetcher.py] *)

Module Fetcher.
Import Py.

Definition UPDATE_TYPE : string := "com.linkedin.voyager.dash.feed.Update".
Definition FEED_KEY : string := "feedDashProfileUpdatesByMemberShareFeed".

Definition empty_dict : json := JDict [].
Definition empty_list : json := JList [].
Definition empty_str : json := JStr "".

(** [activity_data.get('data', {}).get('data', {}).get(FEED_KEY, {})] *)
Definition feed_of (activity_data : json) : result json :=
  d1 <- py_get activity_data "data" empty_dict ;;
  d2 <- py_get d1 "data" empty_dict ;;
  py_get d2 FEED_KEY empty_dict.

(** *** [extract_pagination_token] *)

(** The token is returned when it is truthy; printing [token[:50]] raises on
    a token that cannot be sliced, and the [except] clause returns [None]. *)
Definition extract_pagination_token (activity_data : json) : option json :=
  try_except
    (feed <- feed_of activity_data ;;
     metadata <- py_get feed "metadata" empty_dict ;;
     token <- py_get metadata "paginationToken" JNull ;;
     if truthy token then
       if sliceable token then Ok (Some token) else Raise
     else Ok None)
    None.

(** *** [extract_video_url] *)

(** The lookup loop of step 2: the first entity of [included] whose
    [entityUrn] equals the reference. *)
Fixpoint find_video_metadata (video_ref : json) (included : list json)
  : result (option json) :=
  match included with
  | [] => Ok None
  | inc_item :: rest =>
      urn <- py_get inc_item "entityUrn" JNull ;;
      if py_eq urn video_ref then Ok (Some inc_item)
      else find_video_metadata video_ref rest
  end.

(** The three candidates kept by the scan of step 4. *)
Record video_urls : Type := {
  url_640p : json;
  url_720p : json;
  url_fallback : json
}.

Definition no_video_urls : video_urls :=
  {| url_640p := empty_str; url_720p := empty_str; url_fallback := empty_str |}.

(** One turn of the scan: [None] stands for [continue]. *)
Definition stream_url (stream : json) : result (option (json * json * json)) :=
  width <- py_get stream "width" (JNum 0) ;;
  height <- py_get stream "height" (JNum 0) ;;
  streaming_locations <- py_get stream "streamingLocations" empty_list ;;
  if negb (truthy streaming_locations) then Ok None
  else
    loc <- py_index0 streaming_locations ;;
    url <- py_get loc "url" empty_str ;;
    if negb (truthy url) then Ok None
    else Ok (Some (width, height, url)).

Definition has_dim (n : Z) (width height : json) : bool :=
  py_eq width (JNum n) || py_eq height (JNum n).

Definition scan_step (acc : video_urls) (w h url : json) : video_urls :=
  {| url_fallback :=
       if negb (truthy (url_fallback acc)) then url else url_fallback acc;
     url_640p := if has_dim 640 w h then url else url_640p acc;
     url_720p := if has_dim 720 w h then url else url_720p acc |}.

Fixpoint scan_streams (streams : list json) (acc : video_urls)
  : result video_urls :=
  match streams with
  | [] => Ok acc
  | stream :: rest =>
      r <- stream_url stream ;;
      match r with
      | None => scan_streams rest acc
      | Some (w, h, url) => scan_streams rest (scan_step acc w h url)
      end
  end.

Definition pick_video_url (prefer_640p : bool) (acc : video_urls) : json :=
  if prefer_640p then
    py_or (url_640p acc) (py_or (url_720p acc) (url_fallback acc))
  else
    py_or (url_720p acc) (py_or (url_640p acc) (url_fallback acc)).

Definition extract_video_url (item included : json) (prefer_640p : bool) : json :=
  try_except
    (content <- py_get item "content" empty_dict ;;
     video_component <- py_get content "linkedInVideoComponent" empty_dict ;;
     video_ref <- py_get video_component "*videoPlayMetadata" empty_str ;;
     if negb (truthy video_ref) then Ok empty_str
     else
       entities <- py_iter included ;;
       found <- find_video_metadata video_ref entities ;;
       match found with
       | None => Ok empty_str
       | Some video_metadata =>
           if negb (truthy video_metadata) then Ok empty_str
           else
             progressive_streams <-
               py_get video_metadata "progressiveStreams" empty_list ;;
             if negb (truthy progressive_streams) then Ok empty_str
             else
               streams <- py_iter progressive_streams ;;
               acc <- scan_streams streams no_video_urls ;;
               Ok (pick_video_url prefer_640p acc)
       end)
    empty_str.

(** *** [extract_image_urls] *)

(** [max(artifacts, key=lambda x: x.get('width', 0))]: the running maximum
    is replaced only by a strictly greater key. *)
Fixpoint max_width_from (best best_key : json) (rest : list json) : result json :=
  match rest with
  | [] => Ok best
  | x :: rest' =>
      k <- py_get x "width" (JNum 0) ;;
      gt <- py_gt k best_key ;;
      if gt then max_width_from x k rest'
      else max_width_from best best_key rest'
  end.

Definition max_width (artifacts : json) : result json :=
  items <- py_iter artifacts ;;
  match items with
  | [] => Raise
  | x :: rest =>
      k <- py_get x "width" (JNum 0) ;;
      max_width_from x k rest
  end.

(** The body of the inner [try]: [None] stands for [continue]. *)
Definition image_url (image : json) : result (option json) :=
  attributes <- py_get image "attributes" empty_list ;;
  if negb (truthy attributes) then Ok None
  else
    attr <- py_index0 attributes ;;
    detail_data <- py_get attr "detailData" empty_dict ;;
    vector_image <- py_get detail_data "vectorImage" empty_dict ;;
    root_url <- py_get vector_image "rootUrl" empty_str ;;
    artifacts <- py_get vector_image "artifacts" empty_list ;;
    if negb (truthy root_url) || negb (truthy artifacts) then Ok None
    else
      best_artifact <- max_width artifacts ;;
      file_segment <- py_get best_artifact "fileIdentifyingUrlPathSegment" empty_str ;;
      if negb (truthy file_segment) then Ok None
      else
        complete_url <- py_add root_url file_segment ;;
        Ok (Some complete_url).

(** The loop over the images; an exception in the inner [try] skips the
    image. *)
Fixpoint image_urls_loop (images : list json) (image_urls : list json) : list json :=
  match images with
  | [] => image_urls
  | image :: rest =>
      match image_url image with
      | Ok (Some complete_url) => image_urls_loop rest (image_urls ++ [complete_url])
      | Ok None | Raise => image_urls_loop rest image_urls
      end
  end.

Definition extract_image_urls (item : json) : list json :=
  try_except
    (content <- py_get item "content" empty_dict ;;
     image_component <- py_get content "imageComponent" empty_dict ;;
     images <- py_get image_component "images" empty_list ;;
     if negb (truthy images) then Ok []
     else
       imgs <- py_iter images ;;
       Ok (image_urls_loop imgs []))
    [].

(** *** [extract_posts_from_response] *)

(** The dictionary [post_info]; the values are whatever the response
    holds. *)
Record post_info : Type := {
  entity_urn : json;
  activity_urn : json;
  share_urn : json;
  post_text : json;
  post_url : json;
  author_profile_urn : json;
  author_name : json;
  author_headline : json;
  author_profile_url : json;
  video_url_640p : json;
  image_urls : list json;
  post_order : Z
}.

(** [post_data['post_order'] = n] *)
Definition set_post_order (n : Z) (p : post_info) : post_info :=
  {| entity_urn := entity_urn p; activity_urn := activity_urn p;
     share_urn := share_urn p; post_text := post_text p;
     post_url := post_url p; author_profile_urn := author_profile_urn p;
     author_name := author_name p; author_headline := author_headline p;
     author_profile_url := author_profile_url p;
     video_url_640p := video_url_640p p;
     image_urls := image_urls p; post_order := n |}.

(** The lookup table [post_lookup]: one pass over [included], a later
    entity with the same [entityUrn] replaces an earlier one. *)
Fixpoint build_post_lookup (included : list json) (post_lookup : gmap pykey json)
  : result (gmap pykey json) :=
  match included with
  | [] => Ok post_lookup
  | item :: rest =>
      ty <- py_get item "$type" JNull ;;
      if py_eq ty (JStr UPDATE_TYPE) then
        urn <- py_get item "entityUrn" empty_str ;;
        if truthy urn then
          k <- hash_key urn ;;
          build_post_lookup rest (<[k := item]> post_lookup)
        else build_post_lookup rest post_lookup
      else build_post_lookup rest post_lookup
  end.

(** The author's profile reference, read inside a [try] of its own whose
    [except] clause keeps the empty string. *)
Definition actor_profile_ref (actor : json) : json :=
  try_except
    (image <- py_get actor "image" empty_dict ;;
     attributes <- py_get image "attributes" empty_list ;;
     if truthy attributes then
       attr <- py_index0 attributes ;;
       detail_data <- py_get attr "detailData" empty_dict ;;
       non_entity_profile <- py_get detail_data "nonEntityProfilePicture" empty_dict ;;
       profile_ref <- py_get non_entity_profile "*profile" empty_str ;;
       Ok (if truthy profile_ref then profile_ref else empty_str)
     else Ok empty_str)
    empty_str.

(** [v.get('text', '') if isinstance(v, dict) else ''] *)
Definition text_if_dict (v : json) : json :=
  match v with
  | JDict _ => try_except (py_get v "text" empty_str) empty_str
  | _ => empty_str
  end.

(** The fields read from one entity found in the lookup table. *)
Definition assemble_post (item included : json) (idx : Z) : result post_info :=
  urn <- py_get item "entityUrn" empty_str ;;
  metadata <- py_get item "metadata" empty_dict ;;
  backend_urn <- py_get metadata "backendUrn" empty_str ;;
  share <- py_get metadata "shareUrn" empty_str ;;
  commentary <- py_get item "commentary" empty_dict ;;
  text_obj <- py_get commentary "text" empty_dict ;;
  text <- py_get text_obj "text" empty_str ;;
  social_content <- py_get item "socialContent" empty_dict ;;
  share_url <- py_get social_content "shareUrl" empty_str ;;
  actor <- py_get item "actor" empty_dict ;;
  actor_name <- py_get actor "name" empty_dict ;;
  actor_description <- py_get actor "description" empty_dict ;;
  nav_context <- py_get actor "navigationContext" empty_dict ;;
  action_target <- py_get nav_context "actionTarget" empty_str ;;
  Ok {| entity_urn := urn;
        activity_urn := backend_urn;
        share_urn := share;
        post_text := text;
        post_url := share_url;
        author_profile_urn := actor_profile_ref actor;
        author_name := text_if_dict actor_name;
        author_headline := text_if_dict actor_description;
        author_profile_url := action_target;
        video_url_640p := extract_video_url item included true;
        image_urls := extract_image_urls item;
        post_order := idx |}.

(** [if post_info.get('post_text') or post_info.get('post_url')] *)
Definition has_content (p : post_info) : bool :=
  truthy (post_text p) || truthy (post_url p).

(** The loop over the reference list, [enumerate(elements, 1)]. *)
Fixpoint extract_loop (post_lookup : gmap pykey json) (included : json)
    (idx : Z) (elements : list json) (posts : list post_info)
  : result (list post_info) :=
  match elements with
  | [] => Ok posts
  | element_urn :: rest =>
      k <- hash_key element_urn ;;
      match post_lookup !! k with
      | None =>
          if sliceable element_urn
          then extract_loop post_lookup included (idx + 1) rest posts
          else Raise
      | Some item =>
          if negb (truthy item) then
            if sliceable element_urn
            then extract_loop post_lookup included (idx + 1) rest posts
            else Raise
          else
            p <- assemble_post item included idx ;;
            extract_loop post_lookup included (idx + 1) rest
              (if has_content p then posts ++ [p] else posts)
      end
  end.

Definition extract_posts_body (activity_data : json) : result (list post_info) :=
  feed <- feed_of activity_data ;;
  elements <- py_get feed "*elements" empty_list ;;
  if negb (truthy elements) then Ok []
  else
    included <- py_get activity_data "included" empty_list ;;
    if negb (truthy included) then Ok []
    else
      entities <- py_iter included ;;
      post_lookup <- build_post_lookup entities ∅ ;;
      refs <- py_iter elements ;;
      extract_loop post_lookup included 1 refs [].

(** Any exception is caught by the outer [try] and the page yields no
    post. *)
Definition extract_posts_from_response (activity_data : json) : list post_info :=
  try_except (extract_posts_body activity_data) [].

(** *** [parse_ranges] *)

(** The [while] loop, with a bound on the number of turns. *)
Fixpoint ranges_from (fuel : nat) (current_start target_end increment : Z)
  : list (Z * Z) :=
  match fuel with
  | O => []
  | S fuel' =>
      if current_start <? target_end then
        let current_end :=
          if target_end <? current_start + increment then target_end
          else current_start + increment in
        (current_start, current_end)
          :: ranges_from fuel' current_end target_end increment
      else []
  end.

(** [parse_ranges] on the target it has read from its input text; the
    increment is the default, 20.  Every turn moves [current_start] forward
    by at least one, so [target_end] turns are enough. *)
Definition parse_ranges (target_end : Z) : list (Z * Z) :=
  ranges_from (Z.to_nat target_end) 0 target_end 20.

(** *** The collaborators of a run *)

(** What gets out of a call and reaches the [except] clauses of the run. *)
Inductive raised : Type :=
| KeyboardInterrupt
| Exception (text : string).

(** The calls a run makes outside itself: starting Playwright, the login,
    the search of the profile, [os.makedirs] for the session directory, and
    at the turn [idx] of the loop the request, the writing of the range
    file and [time.sleep]; then the extraction of the posts and the
    downloads; and, in the [finally] clause, the closing of the browser and
    of Playwright. *)
Inductive site : Type :=
| StartPlaywright
| Login
| ExtractProfileUrn
| MakeSessionDir
| Fetch (idx : Z)
| Save (idx : Z)
| Pause (idx : Z)
| ProcessPosts
| DownloadMedia
| Cleanup.

#[global] Instance site_eq_dec : EqDecision site.
Proof. solve_decision. Defined.

(** What the run asks of the browser session, the network and the disk.  A
    collaborator that returns fails by its return value; [raises] says what a
    call lets out instead of returning: the methods of the fetcher catch
    [Exception] themselves and let out an interrupt only, the other calls
    let out whatever they raise.  A range file is identified with the range
    it was saved for and with the response body written to it, which
    [process_posts_from_files] reads back under the key
    ['activity_data']. *)
Record collaborators : Type := {
  raises : site -> option raised;
  login_to_linkedin : bool;
  extract_profile_urn : string -> option string;
  (** [fetch_profile_activity(profile_urn, count, start, pagination_token)] *)
  fetch_profile_activity : string -> Z -> Z -> option json -> option json;
  (** whether [save_activity_data] returns a file path for this page *)
  save_activity_data : Z -> Z * Z -> json -> bool;
  (** whether [save_individual_post] returns a file path *)
  save_individual_post : post_info -> Z -> bool
}.

Definition range_file : Type := ((Z * Z) * json)%type.

(** [str(n)] *)
Definition string_of_Z (n : Z) : string :=
  NilZero.string_of_int (Z.to_int n).

(** The name of a range in the list [saved_files], [f"{start}-{end}"]. *)
Definition range_str (r : Z * Z) : string :=
  string_of_Z (fst r) +:+ "-" +:+ string_of_Z (snd r).

(** [s.split('-')[0]]: the text before the first ['-']. *)
Fixpoint before_dash (s : string) : string :=
  match s with
  | EmptyString => EmptyString
  | String c s' =>
      if Ascii.eqb c "-"%char then EmptyString else String c (before_dash s')
  end.

(** [int(s)] on decimal digits, with or without a minus sign before them;
    the empty text is a [ValueError].  The blanks, the plus sign and the
    underscores that [int] accepts as well do not occur in the name of a
    range. *)
Definition py_int (s : string) : result Z :=
  match NilZero.int_of_string s with
  | Some d => Ok (Z.of_int d)
  | None => Raise
  end.

(** *** [process_posts_from_files] *)

Section Process.
Variable env : collaborators.

(** The inner loop: the post order becomes the global post number,
    [range_start + post_order]. *)
Fixpoint save_posts (range_start : Z) (posts all_posts_data : list post_info)
  : list post_info :=
  match posts with
  | [] => all_posts_data
  | post_data :: rest =>
      let global_post_number := range_start + post_order post_data in
      let post_data := set_post_order global_post_number post_data in
      if save_individual_post env post_data global_post_number
      then save_posts range_start rest (all_posts_data ++ [post_data])
      else save_posts range_start rest all_posts_data
  end.

(** The loop over the range files.  The start of the range is read back
    from the name of the range, which raises when the name begins with a
    minus sign. *)
Fixpoint process_files (saved_files : list range_file)
    (all_posts_data : list post_info) : result (list post_info) :=
  match saved_files with
  | [] => Ok all_posts_data
  | (range, activity_data) :: rest =>
      range_start <- py_int (before_dash (range_str range)) ;;
      match extract_posts_from_response activity_data with
      | [] => process_files rest all_posts_data
      | posts =>
          process_files rest (save_posts range_start posts all_posts_data)
      end
  end.

(** The pair [(total_posts_extracted, all_posts_data)]; the [except] clause
    returns [(0, [])]. *)
Definition process_posts_from_files (saved_files : list range_file)
  : Z * list post_info :=
  match process_files saved_files [] with
  | Ok all_posts_data => (Z.of_nat (length all_posts_data), all_posts_data)
  | Raise => (0, [])
  end.

(** *** [run_scrape] *)

(** [not pagination_token] *)
Definition no_token (pagination_token : option json) : bool :=
  match pagination_token with
  | None => true
  | Some t => negb (truthy t)
  end.

(** The loop over the ranges, [enumerate(ranges, 1)]; every [break] returns
    the files saved so far.  This is the loop of a run in which every call
    returns; [loop_raises] below says what gets out of it otherwise. *)
Fixpoint fetch_ranges (profile_urn : string) (n_ranges idx : Z)
    (ranges : list (Z * Z)) (pagination_token : option json)
    (saved_files : list range_file) : list range_file :=
  match ranges with
  | [] => saved_files
  | (start, end_) :: rest =>
      let count := end_ - start in
      if negb (idx =? 1) && no_token pagination_token then saved_files
      else
        let response :=
          fetch_profile_activity env profile_urn count start
            (if idx =? 1 then None else pagination_token) in
        match response with
        | None => saved_files
        | Some activity_data =>
            if negb (truthy activity_data) then saved_files
            else
              let saved_files :=
                if save_activity_data env idx (start, end_) activity_data
                then saved_files ++ [((start, end_), activity_data)]
                else saved_files in
              let pagination_token := extract_pagination_token activity_data in
              if no_token pagination_token && (idx <? n_ranges) then saved_files
              else
                fetch_ranges profile_urn n_ranges (idx + 1) rest
                  pagination_token saved_files
        end
  end.

(** What the loop over the ranges lets out, if anything: the first call of
    its turns that does not return. *)
Fixpoint loop_raises (profile_urn : string) (n_ranges idx : Z)
    (ranges : list (Z * Z)) (pagination_token : option json) : option raised :=
  match ranges with
  | [] => None
  | (start, end_) :: rest =>
      if negb (idx =? 1) && no_token pagination_token then None
      else
        match raises env (Fetch idx) with
        | Some r => Some r
        | None =>
            match
              fetch_profile_activity env profile_urn (end_ - start) start
                (if idx =? 1 then None else pagination_token)
            with
            | None => None
            | Some activity_data =>
                if negb (truthy activity_data) then None
                else
                  match raises env (Save idx) with
                  | Some r => Some r
                  | None =>
                      let pagination_token :=
                        extract_pagination_token activity_data in
                      if no_token pagination_token && (idx <? n_ranges) then None
                      else
                        match raises env (Pause idx) with
                        | Some r => Some r
                        | None =>
                            loop_raises profile_urn n_ranges (idx + 1) rest
                              pagination_token
                        end
                  end
            end
        end
  end.

(** What a run leaves in its session directory. *)
Record session : Type := {
  saved_files : list range_file;
  all_posts_data : list post_info
}.

(** The triple [(success, session_dir, error)]; the session directory is
    identified with what the run has written to it. *)
Record scrape_result : Type := {
  success : bool;
  session_dir : option session;
  error : option string
}.

Definition failed (msg : string) : scrape_result :=
  {| success := false; session_dir := None; error := Some msg |}.

(** The body of the [try]: it returns, or something gets out of it. *)
Inductive attempt (A : Type) : Type :=
| Returns (a : A)
| Raises (r : raised).
Arguments Returns {A} a.
Arguments Raises {A} r.

(** A call that may not return, and what follows it. *)
Definition after {A : Type} (escape : option raised) (k : attempt A) : attempt A :=
  match escape with
  | Some r => Raises r
  | None => k
  end.

(** [target_range] is an [int], turned into text for [parse_ranges], which
    keeps what follows the last ['-']: the target read back is its absolute
    value. *)
Definition run_scrape_body (target_username : string) (target_range : Z)
  : attempt scrape_result :=
  after (raises env StartPlaywright)
    (after (raises env Login)
       (if negb (login_to_linkedin env) then Returns (failed "Login failed")
        else if String.eqb target_username ""
        then Returns (failed "Username cannot be empty")
        else
          after (raises env ExtractProfileUrn)
            match extract_profile_urn env target_username with
            | None => Returns (failed "Failed to extract profileUrn")
            | Some profile_urn =>
                if String.eqb profile_urn ""
                then Returns (failed "Failed to extract profileUrn")
                else
                  let ranges := parse_ranges (Z.abs target_range) in
                  match ranges with
                  | [] =>
                      Returns
                        (failed ("Failed to parse target range: " +:+
                                 string_of_Z target_range))
                  | _ =>
                      let n_ranges := Z.of_nat (length ranges) in
                      after (raises env MakeSessionDir)
                        (after (loop_raises profile_urn n_ranges 1 ranges None)
                           (let saved_files :=
                              fetch_ranges profile_urn n_ranges 1 ranges None [] in
                            after (raises env ProcessPosts)
                              (let all_posts_data :=
                                 snd (process_posts_from_files saved_files) in
                               after
                                 (match all_posts_data with
                                  | [] => None
                                  | _ => raises env DownloadMedia
                                  end)
                                 (Returns
                                    {| success := true;
                                       session_dir :=
                                         Some {| saved_files := saved_files;
                                                 all_posts_data := all_posts_data |};
                                       error := None |}))))
                  end
            end)).

(** The two [except] clauses. *)
Definition run_scrape_caught (target_username : string) (target_range : Z)
  : scrape_result :=
  match run_scrape_body target_username target_range with
  | Returns result => result
  | Raises KeyboardInterrupt => failed "Process interrupted by user"
  | Raises (Exception text) => failed ("Unexpected error: " +:+ text)
  end.

(** [run_scrape]: the [try] with its [except] clauses, then the [finally]
    clause, which closes the browser and stops Playwright whatever the
    outcome; what gets out of it takes the place of the triple. *)
Definition run_scrape (target_username : string) (target_range : Z)
  : attempt scrape_result :=
  after (raises env Cleanup)
    (Returns (run_scrape_caught target_username target_range)).

End Process.

Arguments Returns {A} a.
Arguments Raises {A} r.

End Fetcher.

(** ** The standalone parser: [test/linkedin_parser_enhanced.py] *)

Module Parser.
Import Py.

(** *** Strings *)

(** [sep in s] *)
Fixpoint contains (sep s : string) : bool :=
  String.prefix sep s ||
  match s with
  | EmptyString => false
  | String _ s' => contains sep s'
  end.

(** [s.split(sep)[-1]] for a separator that is not empty: the text scanned
    from left to right, [skip] characters of a separator still to pass over,
    [cur] the piece read since the last separator. *)
Fixpoint split_last_from (sep s : string) (skip : nat) (cur : string) : string :=
  match s with
  | EmptyString => cur
  | String c s' =>
      match skip with
      | S skip' => split_last_from sep s' skip' cur
      | O =>
          if String.prefix sep s
          then split_last_from sep s' (String.length sep - 1) ""
          else split_last_from sep s' 0 (cur +:+ String c "")
      end
  end.

Definition split_last (sep s : string) : string := split_last_from sep s 0 "".

(** The code points of a text held in UTF-8: a byte that is not a
    continuation byte begins a code point, a continuation byte brings six
    more bits to the one before it.  [acc] holds the code points read so
    far, the last one first. *)
Definition push_byte (acc : list N) (b : N) : list N :=
  if ((128 <=? b) && (b <? 192))%N then
    match acc with
    | c :: acc' => (c * 64 + (b - 128))%N :: acc'
    | [] => [b]
    end
  else
    (if (b <? 128)%N then b
     else if (b <? 224)%N then (b - 192)%N
     else if (b <? 240)%N then (b - 224)%N
     else (b - 240)%N) :: acc.

Fixpoint bytes_of (s : string) : list N :=
  match s with
  | EmptyString => []
  | String c s' => N_of_ascii c :: bytes_of s'
  end.

Definition code_points (s : string) : list N :=
  rev (fold_left push_byte (bytes_of s) []).

(** [len(s)] *)
Definition py_len (s : string) : nat := length (code_points s).

(** The characters [str.strip()] removes: those [str.isspace] holds of. *)
Definition is_space (c : N) : bool :=
  ((9 <=? c) && (c <=? 13) || (28 <=? c) && (c <=? 32) || (c =? 133) || (c =? 160)
   || (c =? 5760) || (8192 <=? c) && (c <=? 8202) || (c =? 8232) || (c =? 8233)
   || (c =? 8239) || (c =? 8287) || (c =? 12288))%N.

Fixpoint lstrip (l : list N) : list N :=
  match l with
  | [] => []
  | c :: l' => if is_space c then lstrip l' else l
  end.

(** The code points of [s.strip()]. *)
Definition strip (s : string) : list N :=
  rev (lstrip (rev (lstrip (code_points s)))).

(** [needle in v]: a substring of a string, an item of a list, a key of a
    dictionary; a [TypeError] on anything else. *)
Definition py_contains (needle : string) (v : json) : result bool :=
  match v with
  | JStr s => Ok (contains needle s)
  | JList l => Ok (existsb (py_eq (JStr needle)) l)
  | JDict d => Ok (bool_decide (is_Some (dict_lookup needle d)))
  | _ => Raise
  end.

(** [v.split(sep)[-1]]: only a string has [split]. *)
Definition py_split_last (sep : string) (v : json) : result string :=
  match v with
  | JStr s => Ok (split_last sep s)
  | _ => Raise
  end.

Definition string_of_Z (n : Z) : string :=
  NilZero.string_of_int (Z.to_int n).

(** *** Text *)

Definition _extract_text_from_text_vm (text_vm : json) : json :=
  match text_vm with
  | JDict d =>
      let text := match dict_lookup "text" d with Some x => x | None => JStr "" end in
      if negb (truthy text) then JStr "" else text
  | _ => JStr ""
  end.

Definition TEXT_KEYS : list string :=
  ["text"; "commentary"; "description"; "title"; "content"].

(** [_find_text_anywhere]; [None] is [JNull].  The three local loops are the
    loop over the five candidate keys (with the search of the entry of a
    key inside it), the loop over the values of a dictionary and the loop
    over the items of a list. *)
Fixpoint _find_text_anywhere (data : json) : json :=
  match data with
  | JDict d =>
      let by_key :=
        (fix keys (ks : list string) : option json :=
           match ks with
           | [] => None
           | key :: ks' =>
               let at_key :=
                 (fix entry (es : list (string * json)) : option json :=
                    match es with
                    | [] => None
                    | (k, value) :: es' =>
                        if String.eqb k key then
                          match value with
                          | JStr s =>
                              if (10 <? py_len s)%nat then Some value else None
                          | JDict d' =>
                              match dict_lookup "text" d' with
                              | Some t => Some t
                              | None =>
                                  let r := _find_text_anywhere value in
                                  if truthy r then Some r else None
                              end
                          | _ => None
                          end
                        else entry es'
                    end) d in
               match at_key with
               | Some r => Some r
               | None => keys ks'
               end
           end) TEXT_KEYS in
      match by_key with
      | Some r => r
      | None =>
          (fix values (es : list (string * json)) : json :=
             match es with
             | [] => JNull
             | (_, value) :: es' =>
                 let r := _find_text_anywhere value in
                 if truthy r then r else values es'
             end) d
      end
  | JList l =>
      (fix items (l : list json) : json :=
         match l with
         | [] => JNull
         | item :: l' =>
             let r := _find_text_anywhere item in
             if truthy r then r else items l'
         end) l
  | _ => JNull
  end.

(** *** Identity, assembly and de-duplication *)

Section Enhanced.

(** Two built-ins of the interpreter are parameters: [str(v)], which an
    f-string applies to a value, and [hash(s)] on strings.  The hash of a
    string is keyed: the interpreter draws a secret when it starts (or takes
    it from [PYTHONHASHSEED]) and the hash depends on it, so [py_hash] takes
    the secret, and [hash_secret] is the secret of the interpreter that runs
    the parser.  The media extraction of the parser,
    [_extract_media_from_content], is a parameter as well: what follows
    holds whatever it returns or raises. *)
Variable py_str : json -> string.
Variable py_hash : Z -> string -> Z.
Variable hash_secret : Z.
Variable MediaInfo : Type.
Variable _extract_media_from_content : json -> result (list MediaInfo).

Record PostInfo : Type := {
  post_id : string;
  author_name : json;
  post_text : json;
  timestamp : json;
  media : list MediaInfo;
  post_url : json
}.

Definition ID_FIELDS : list string := ["activityUrn"; "updateUrn"; "postUrn"].

(** The loop over the other identifier fields; [None] when no field
    returned. *)
Fixpoint id_from_fields (post_data : json) (fields : list string)
  : result (option string) :=
  match fields with
  | [] => Ok None
  | id_field :: rest =>
      urn <- py_get post_data id_field (JStr "") ;;
      if truthy urn then
        found <- py_contains ":activity:" urn ;;
        if found then
          r <- py_split_last ":activity:" urn ;; Ok (Some r)
        else id_from_fields post_data rest
      else id_from_fields post_data rest
  end.

Definition fallback_id (post_data : json) : result string :=
  author <- py_get post_data "author" (JDict []) ;;
  ts <- py_get post_data "timestamp" (JDict []) ;;
  commentary <- py_get post_data "commentary" (JDict []) ;;
  let key_content :=
    py_str author +:+ "_" +:+ py_str ts +:+ "_" +:+ py_str commentary in
  Ok (string_of_Z (py_hash hash_secret key_content)).

Definition _extract_post_id (post_data : json) : result string :=
  entity_urn <- py_get post_data "entityUrn" (JStr "") ;;
  if truthy entity_urn then
    in1 <- py_contains ":activity:" entity_urn ;;
    if in1 then py_split_last ":activity:" entity_urn
    else
      in2 <- py_contains "urn:li:activity:" entity_urn ;;
      if in2 then py_split_last ":activity:" entity_urn
      else py_split_last ":" entity_urn
  else
    r <- id_from_fields post_data ID_FIELDS ;;
    match r with
    | Some id => Ok id
    | None => fallback_id post_data
    end.

(** [d.get(k)] on a value known to be a dictionary. *)
Definition get_or_none (v : json) (k : string) : json :=
  try_except (py_get v k JNull) JNull.

(** What [_parse_single_post_enhanced] does once the identity is new: the
    fields, then the test on the text.  [Ok None] is the post without
    meaningful content. *)
Definition assemble (post_data : json) (id : string) : result (option PostInfo) :=
  actor <- py_get post_data "actor" (JDict []) ;;
  let name_data := if is_dict actor then get_or_none actor "name" else JNull in
  let sub_desc := if is_dict actor then get_or_none actor "subDescription" else JNull in
  commentary <- py_get post_data "commentary" (JDict []) ;;
  let text_data := if is_dict commentary then get_or_none commentary "text" else JNull in
  content <- py_get post_data "content" (JDict []) ;;
  media_list <-
    (if is_dict content then _extract_media_from_content content else Ok []) ;;
  social_content <- py_get post_data "socialContent" (JDict []) ;;
  let text :=
    if is_dict text_data then _extract_text_from_text_vm text_data else JNull in
  let text := if negb (truthy text) then _find_text_anywhere post_data else text in
  let post_info :=
    {| post_id := id;
       author_name := if is_dict name_data then get_or_none name_data "text" else JNull;
       post_text := text;
       timestamp := if is_dict sub_desc then get_or_none sub_desc "text" else JNull;
       media := media_list;
       post_url :=
         if is_dict social_content then get_or_none social_content "shareUrl"
         else JNull |} in
  if truthy text then
    match text with
    | JStr s => Ok (if (10 <? length (strip s))%nat then Some post_info else None)
    | _ => Raise
    end
  else Ok None.

(** [_parse_single_post_enhanced] with the set [seen_post_ids] passed in
    and out.  The identity is recorded before anything else is read. *)
Definition _parse_single_post_enhanced (post_data : json) (seen_post_ids : gset string)
  : option PostInfo * gset string :=
  match _extract_post_id post_data with
  | Raise => (None, seen_post_ids)
  | Ok id =>
      if bool_decide (id ∈ seen_post_ids) then (None, seen_post_ids)
      else (try_except (assemble post_data id) None, {[id]} ∪ seen_post_ids)
  end.

(** The state of a traversal: the posts collected and the identities
    seen. *)
Definition parse_state : Type := (list PostInfo * gset string)%type.

(** What the traversal does with a dictionary before it goes into its
    values: a dictionary of the type of a post is parsed, and the post, when
    there is one, is appended. *)
Definition visit (data : json) (st : parse_state) : parse_state :=
  if py_eq (get_or_none data "$type") (JStr Fetcher.UPDATE_TYPE) then
    match _parse_single_post_enhanced data (snd st) with
    | (Some post_info, seen) => (fst st ++ [post_info], seen)
    | (None, seen) => (fst st, seen)
    end
  else st.

Fixpoint _search_for_posts_recursive_enhanced (data : json) (st : parse_state)
  : parse_state :=
  match data with
  | JDict d =>
      (fix values (es : list (string * json)) (st : parse_state) : parse_state :=
         match es with
         | [] => st
         | (_, value) :: es' =>
             values es' (_search_for_posts_recursive_enhanced value st)
         end) d (visit data st)
  | JList l =>
      (fix items (l : list json) (st : parse_state) : parse_state :=
         match l with
         | [] => st
         | item :: l' => items l' (_search_for_posts_recursive_enhanced item st)
         end) l st
  | _ => st
  end.

(** [parse_posts_enhanced]: a fresh list of posts, the set of the parser
    carried over from one call to the next. *)
Definition parse_posts_enhanced (data : json) (seen_post_ids : gset string)
  : list PostInfo * gset string :=
  _search_for_posts_recursive_enhanced data ([], seen_post_ids).

(** *** Vocabulary of the statements *)

(** The traversal as a loop over the dictionaries it meets. *)
Definition visit_all (nodes : list json) (st : parse_state) : parse_state :=
  fold_left (fun st data => visit data st) nodes st.

(** The identity under which a dictionary is recorded when the traversal
    meets it: it has the type of a post and an identity is found. *)
Definition node_id (data : json) : option string :=
  if py_eq (get_or_none data "$type") (JStr Fetcher.UPDATE_TYPE) then
    match _extract_post_id data with
    | Ok id => Some id
    | Raise => None
    end
  else None.

(** The fields of an entity that its identity is read from. *)
Definition ID_SOURCES : list string :=
  ["entityUrn"; "activityUrn"; "updateUrn"; "postUrn";
   "author"; "timestamp"; "commentary"].

(** No identifier field gives an identity: the last resort applies. *)
Definition no_identifier (d : list (string * json)) : Prop :=
  forall k, k ∈ ["entityUrn"; "activityUrn"; "updateUrn"; "postUrn"] ->
    dict_lookup k d = None.

Definition field_or_empty (d : list (string * json)) (k : string) : json :=
  match dict_lookup k d with
  | Some v => v
  | None => JDict []
  end.

End Enhanced.

(** The dictionaries of a value in the order the traversal meets them: a
    dictionary, then what its values hold; the items of a list one after
    the other. *)
Fixpoint dict_nodes (data : json) : list json :=
  match data with
  | JDict d =>
      data ::
      (fix values (es : list (string * json)) : list json :=
         match es with
         | [] => []
         | (_, value) :: es' => dict_nodes value ++ values es'
         end) d
  | JList l =>
      (fix items (l : list json) : list json :=
         match l with
         | [] => []
         | item :: l' => dict_nodes item ++ items l'
         end) l
  | _ => []
  end.

End Parser.

(** ** Media of the extracted posts: [linkedin_activity_fetcher.py] *)

Module Media.
Import Py Fetcher.

(** *** [download_image] and [download_video] *)

(** What one attempt comes to: the file is written, the status is not 200,
    or an exception is caught. *)
Inductive outcome : Type := Saved | BadStatus | Failed.

(** What the loop does that can be seen from outside. *)
Inductive event : Type :=
| Requested (attempt : Z)
| Slept (seconds : Z).

(** The loop [for attempt in range(max_retries)], [attempt] the current
    turn and [turns] the turns that are left.  The two branches that do not
    save do the same: pause and go on, unless this is the last turn. *)
Fixpoint attempts_from (respond : Z -> outcome) (pause max_retries : Z)
    (turns : nat) (attempt : Z) (trace : list event) : bool * list event :=
  match turns with
  | O => (false, trace)
  | S turns' =>
      let trace := trace ++ [Requested attempt] in
      match respond attempt with
      | Saved => (true, trace)
      | BadStatus | Failed =>
          if attempt <? max_retries - 1 then
            attempts_from respond pause max_retries turns' (attempt + 1)
              (trace ++ [Slept pause])
          else (false, trace)
      end
  end.

Definition download_with (pause : Z) (respond : Z -> outcome) (max_retries : Z)
  : bool * list event :=
  attempts_from respond pause max_retries (Z.to_nat max_retries) 0 [].

(** One second between two attempts for an image, two for a video. *)
Definition download_image : (Z -> outcome) -> Z -> bool * list event :=
  download_with 1.

Definition download_video : (Z -> outcome) -> Z -> bool * list event :=
  download_with 2.

(** *** [create_media_summary] *)

Definition has_video (post : post_info) : bool := truthy (video_url_640p post).

Definition has_images (post : post_info) : bool :=
  match image_urls post with [] => false | _ => true end.

Record post_summary : Type := {
  summary_post_number : Z;
  summary_post_text : json;
  summary_post_url : json;
  summary_video_url_640p : json;
  summary_image_urls : list json;
  summary_has_video : bool;
  summary_has_images : bool;
  summary_image_count : Z;
  summary_author_name : json;
  summary_author_profile_url : json
}.

Definition summary_of (post : post_info) : post_summary :=
  {| summary_post_number := post_order post;
     summary_post_text := post_text post;
     summary_post_url := post_url post;
     summary_video_url_640p := video_url_640p post;
     summary_image_urls := image_urls post;
     summary_has_video := has_video post;
     summary_has_images := has_images post;
     summary_image_count := Z.of_nat (length (image_urls post));
     summary_author_name := author_name post;
     summary_author_profile_url := author_profile_url post |}.

(** The dictionary [summary_data] written to [media_summary.json]. *)
Record summary_data : Type := {
  summary_username : string;
  generated_at : string;
  total_posts : Z;
  posts_with_video : Z;
  posts_with_images : Z;
  posts_with_any_media : Z;
  posts_without_media : Z;
  total_images : Z;
  summary_posts : list post_summary
}.

Definition count (f : post_info -> bool) (posts : list post_info) : Z :=
  Z.of_nat (length (List.filter f posts)).

Definition create_media_summary (all_posts : list post_info)
    (username now : string) : summary_data :=
  {| summary_username := username;
     generated_at := now;
     total_posts := Z.of_nat (length all_posts);
     posts_with_video := count has_video all_posts;
     posts_with_images := count has_images all_posts;
     posts_with_any_media :=
       count (fun post => has_video post || has_images post) all_posts;
     posts_without_media :=
       count (fun post => negb (has_video post) && negb (has_images post))
         all_posts;
     total_images :=
       fold_left Z.add
         (map (fun post => Z.of_nat (length (image_urls post))) all_posts) 0;
     summary_posts := map summary_of all_posts |}.

(** *** [download_media_for_posts] *)

(** The disk and the network, as the downloads see them: whether the text
    of a post is written, and what each attempt for an image (of a post, at
    its place among the images of the post) or for the video of a post comes
    to. *)
Record downloads : Type := {
  save_post_text : json -> Z -> bool;
  image_response : json -> Z -> Z -> Z -> outcome;
  video_response : json -> Z -> Z -> outcome
}.

(** The dictionary [stats]. *)
Record stats : Type := {
  text_saved : Z;
  text_failed : Z;
  images_downloaded : Z;
  images_failed : Z;
  videos_downloaded : Z;
  videos_failed : Z
}.

Definition no_stats : stats :=
  {| text_saved := 0; text_failed := 0; images_downloaded := 0;
     images_failed := 0; videos_downloaded := 0; videos_failed := 0 |}.

Section Downloads.
Variable net : downloads.

Definition count_text (ok : bool) (st : stats) : stats :=
  {| text_saved := if ok then text_saved st + 1 else text_saved st;
     text_failed := if ok then text_failed st else text_failed st + 1;
     images_downloaded := images_downloaded st;
     images_failed := images_failed st;
     videos_downloaded := videos_downloaded st;
     videos_failed := videos_failed st |}.

Definition count_image (ok : bool) (st : stats) : stats :=
  {| text_saved := text_saved st;
     text_failed := text_failed st;
     images_downloaded := if ok then images_downloaded st + 1 else images_downloaded st;
     images_failed := if ok then images_failed st else images_failed st + 1;
     videos_downloaded := videos_downloaded st;
     videos_failed := videos_failed st |}.

Definition count_video (ok : bool) (st : stats) : stats :=
  {| text_saved := text_saved st;
     text_failed := text_failed st;
     images_downloaded := images_downloaded st;
     images_failed := images_failed st;
     videos_downloaded := if ok then videos_downloaded st + 1 else videos_downloaded st;
     videos_failed := if ok then videos_failed st else videos_failed st + 1 |}.

(** The loop over the images of a post, [enumerate(image_urls, 1)]. *)
Fixpoint download_images (post_number idx : Z) (urls : list json) (st : stats)
  : stats :=
  match urls with
  | [] => st
  | img_url :: rest =>
      let ok := fst (download_image (image_response net img_url post_number idx) 3) in
      download_images post_number (idx + 1) rest (count_image ok st)
  end.

Definition download_post (post : post_info) (st : stats) : stats :=
  let post_number := post_order post in
  let st :=
    if truthy (post_text post)
    then count_text (save_post_text net (post_text post) post_number) st
    else st in
  let st := download_images post_number 1 (image_urls post) st in
  if truthy (video_url_640p post)
  then count_video
         (fst (download_video (video_response net (video_url_640p post) post_number) 3))
         st
  else st.

Definition download_media_for_posts (all_posts_data : list post_info) : stats :=
  fold_left (fun st post => download_post post st) all_posts_data no_stats.

End Downloads.

End Media.

(** ** The status of a scrape: [ScrapingStatusManager] of [web_app.py] *)

Module Status.
Import Py.

Inductive scraping_state : Type := IDLE | RUNNING | COMPLETED | FAILED | TIMEOUT.

Definition state_eqb (a b : scraping_state) : bool :=
  match a, b with
  | IDLE, IDLE | RUNNING, RUNNING | COMPLETED, COMPLETED
  | FAILED, FAILED | TIMEOUT, TIMEOUT => true
  | _, _ => false
  end.

(** The fields of the manager.  A time is a reading of the clock, in
    microseconds, the resolution of [datetime]. *)
Record manager : Type := {
  _state : scraping_state;
  _progress : string;
  _error : option string;
  _current_user : option string;
  _total_users : Z;
  _completed_users : Z;
  _started_at : option Z;
  _last_heartbeat : option Z
}.

Definition TIMEOUT_SECONDS : Z := 600.

(** [(now - started_at).total_seconds() > TIMEOUT_SECONDS] and the same
    with [<], on the microseconds. *)
Definition elapsed (now started_at : Z) : Z := now - started_at.

Definition over_timeout (now started_at : Z) : bool :=
  TIMEOUT_SECONDS * 1000000 <? elapsed now started_at.

Definition under_timeout (now started_at : Z) : bool :=
  elapsed now started_at <? TIMEOUT_SECONDS * 1000000.

(** [_reset_all_fields], which is also the state [__init__] builds. *)
Definition _reset_all_fields : manager :=
  {| _state := IDLE; _progress := ""; _error := None; _current_user := None;
     _total_users := 0; _completed_users := 0; _started_at := None;
     _last_heartbeat := None |}.

Section Manager.

(** How an elapsed time is written in a message, [f'{elapsed:.0f}'] on the
    seconds: the formatting of floats is a parameter. *)
Variable format_seconds : Z -> string.

(** The turn of the monitor that reads the clock at [now]. *)
Definition monitor (now : Z) (m : manager) : manager :=
  match _state m, _started_at m with
  | RUNNING, Some started_at =>
      if over_timeout now started_at then
        {| _state := TIMEOUT;
           _progress := "Timeout after " +:+ format_seconds (elapsed now started_at) +:+ "s";
           _error := Some ("Timeout - scraping took too long (" +:+
                           format_seconds (elapsed now started_at) +:+ "s)");
           _current_user := _current_user m;
           _total_users := _total_users m;
           _completed_users := _completed_users m;
           _started_at := _started_at m;
           _last_heartbeat := _last_heartbeat m |}
      else m
  | _, _ => m
  end.

(** [start_scraping]: the clock is read once to see whether a run in
    progress is stuck, then for the start and for the heartbeat.  [Raise] is
    the [ValueError], raised before any field is written. *)
Definition start_scraping (username : string) (total_users : Z)
    (now started_at heartbeat : Z) (m : manager) : result manager :=
  let started :=
    {| _state := RUNNING;
       _progress := "Starting scrape for " +:+ username +:+ "...";
       _error := None;
       _current_user := Some username;
       _total_users := total_users;
       _completed_users := 0;
       _started_at := Some started_at;
       _last_heartbeat := Some heartbeat |} in
  match _state m with
  | RUNNING =>
      match _started_at m with
      | Some t => if over_timeout now t then Ok started else Raise
      | None => Ok started
      end
  | _ => Ok started
  end.

Definition update_progress (progress : string) (current_user : option string)
    (now : Z) (m : manager) : manager :=
  {| _state := _state m;
     _progress := progress;
     _error := _error m;
     _current_user :=
       match current_user with
       | Some u => if String.eqb u "" then _current_user m else Some u
       | None => _current_user m
       end;
     _total_users := _total_users m;
     _completed_users := _completed_users m;
     _started_at := _started_at m;
     _last_heartbeat := Some now |}.

Definition increment_completed (now : Z) (m : manager) : manager :=
  {| _state := _state m;
     _progress := _progress m;
     _error := _error m;
     _current_user := _current_user m;
     _total_users := _total_users m;
     _completed_users := _completed_users m + 1;
     _started_at := _started_at m;
     _last_heartbeat := Some now |}.

Definition finish (st : scraping_state) (progress : string) (error : option string)
    (m : manager) : manager :=
  {| _state := st; _progress := progress; _error := error;
     _current_user := _current_user m;
     _total_users := _total_users m;
     _completed_users := _completed_users m;
     _started_at := _started_at m;
     _last_heartbeat := _last_heartbeat m |}.

Definition complete_scraping (success_message : option string) (m : manager)
  : manager :=
  match _state m with
  | RUNNING =>
      finish COMPLETED
        (match success_message with
         | Some msg =>
             if String.eqb msg "" then "Scraping completed successfully" else msg
         | None => "Scraping completed successfully"
         end)
        None m
  | _ => m
  end.

Definition fail_scraping (error_message : string) (m : manager) : manager :=
  match _state m with
  | RUNNING => finish FAILED ("Failed: " +:+ error_message) (Some error_message) m
  | _ => m
  end.

Definition ensure_cleanup (m : manager) : manager :=
  match _state m with
  | RUNNING =>
      finish FAILED "Interrupted" (Some "Scraping interrupted unexpectedly") m
  | _ => m
  end.

(** [reset]: [Raise] is the [ValueError] of a run that is active. *)
Definition reset (force : bool) (now : Z) (m : manager) : result manager :=
  if negb force && state_eqb (_state m) RUNNING then
    match _started_at m with
    | Some t => if under_timeout now t then Raise else Ok _reset_all_fields
    | None => Ok _reset_all_fields
    end
  else Ok _reset_all_fields.

Definition is_running (m : manager) : bool := state_eqb (_state m) RUNNING.

(** *** Sequences of calls *)

(** A call of a method of the manager by a request, by a worker or by the
    monitor, with the readings of the clock it makes. *)
Inductive call : Type :=
| Start (username : string) (total_users : Z) (now started_at heartbeat : Z)
| Progress (progress : string) (current_user : option string) (now : Z)
| Increment (now : Z)
| Complete (success_message : option string)
| Fail (error_message : string)
| Cleanup
| Reset (force : bool) (now : Z)
| Monitor (now : Z).

(** The lock makes every call atomic; a call that raises leaves the manager
    as it was. *)
Definition apply_call (c : call) (m : manager) : manager :=
  match c with
  | Start username total_users now started_at heartbeat =>
      try_except (start_scraping username total_users now started_at heartbeat m) m
  | Progress progress current_user now => update_progress progress current_user now m
  | Increment now => increment_completed now m
  | Complete success_message => complete_scraping success_message m
  | Fail error_message => fail_scraping error_message m
  | Cleanup => ensure_cleanup m
  | Reset force now => try_except (reset force now m) m
  | Monitor now => monitor now m
  end.

Definition run_calls (calls : list call) (m : manager) : manager :=
  fold_left (fun m c => apply_call c m) calls m.

End Manager.


(** *** [run_scraper] of [add_user] *)

(** What the body of the worker comes to before it reports: the scrape
    returned with success and the record of the user was updated, the scrape
    returned without success, with or without a message, or something
    raised. *)
Inductive scrape_outcome : Type :=
| Scraped (now : Z)
| NotScraped (error : option string)
| Raised (message : string).

(** The calls the worker makes on the manager, the last of them in its
    [finally]. *)
Definition run_scraper (username : string) (now : Z) (o : scrape_outcome)
  : list call :=
  Progress ("Scraping " +:+ username +:+ "...") (Some username) now ::
  match o with
  | Scraped now' =>
      [Increment now'; Complete (Some ("Successfully scraped " +:+ username +:+ "!"))]
  | NotScraped error =>
      [Fail (match error with
             | Some e => if String.eqb e "" then "Scraping failed" else e
             | None => "Scraping failed"
             end)]
  | Raised message => [Fail message]
  end ++ [Cleanup].


(** *** [run_scraper_all] of [refresh_all_users] *)

(** The calls of the worker for the users that are left, [idx] the place of
    the first of them among the [total] users: each user with its name, the
    reading of the clock of [update_progress] and what the scrape comes to.
    A scrape without success is printed and passed over; an exception ends
    the loop. *)
Fixpoint scrape_all (total idx : Z) (users : list (string * Z * scrape_outcome))
  : list call :=
  match users with
  | [] =>
      [Complete (Some ("Successfully refreshed all " +:+ Parser.string_of_Z total +:+
                       " users!"))]
  | (username, now, o) :: rest =>
      Progress ("Scraping " +:+ username +:+ " (" +:+ Parser.string_of_Z idx +:+ "/" +:+
                Parser.string_of_Z total +:+ ")...") (Some username) now ::
      match o with
      | Scraped now' => Increment now' :: scrape_all total (idx + 1) rest
      | NotScraped _ => scrape_all total (idx + 1) rest
      | Raised message => [Fail message]
      end
  end.

Definition run_scraper_all (users : list (string * Z * scrape_outcome)) : list call :=
  scrape_all (Z.of_nat (length users)) 1 users ++ [Cleanup].

End Status.

(** ** The feed of the web application: [aggregate_feed] of [web_app.py] *)

Module Feed.
Import Py.

(** [user_posts_map]: the posts of each user under the name of the user,
    the keys in the order in which they were first set. *)
Definition posts_map : Type := list (string * list json).

(** [d[k] = v] *)
Fixpoint dict_set (k : string) (v : list json) (d : posts_map) : posts_map :=
  match d with
  | [] => [(k, v)]
  | (k', v') :: d' =>
      if String.eqb k' k then (k', v) :: d' else (k', v') :: dict_set k v d'
  end.

(** [d[k]], read only at keys of [d]; the empty list stands for the
    [KeyError] at any other. *)
Fixpoint posts_of (d : posts_map) (k : string) : list json :=
  match d with
  | [] => []
  | (k', v) :: d' => if String.eqb k' k then v else posts_of d' k
  end.

Definition keys (d : posts_map) : list string := map fst d.

(** [{username: 0 for username in user_posts_map.keys()}] *)
Definition initial_indices (d : posts_map) : gmap string nat :=
  list_to_map (map (fun username => (username, 0%nat)) (keys d)).

Definition index_of (user_indices : gmap string nat) (user : string) : nat :=
  default 0%nat (user_indices !! user).

(** The users who still have posts. *)
Definition available_users (d : posts_map) (user_indices : gmap string nat)
  : list string :=
  List.filter
    (fun user => (index_of user_indices user <? length (posts_of d user))%nat)
    (keys d).

(** The turns the loop can take: the posts of the users of the map, and
    the turn that finds no user left. *)
Definition turns (d : posts_map) : nat :=
  S (sum_list_with (fun user => length (posts_of d user)) (keys d)).

(** The feed returned. *)
Record feed : Type := {
  posts : list json;
  total_posts : nat;
  total_users : nat;
  filtered_by : option string
}.

Section Aggregate.

(** The posts of the session data of a user, [None] when there is no
    session data or no entry [posts] in it.  A call that raises ends
    [aggregate_feed] with it; the loops below are those of the calls that
    return. *)
Variable load_user_session_data : string -> option (list json).

(** The draws: [random.choice(seq)] is [seq[i]] for a drawn [i] below
    [len(seq)]; [randbelow turn n] is what the draw of a turn is taken
    from. *)
Variable randbelow : nat -> nat -> nat.

Definition choice (turn : nat) (seq : list string) : string :=
  nth (randbelow turn (length seq) mod length seq) seq "".

(** The loop that loads the posts of each user, a user being its name. *)
Definition load_posts (users : list string) : posts_map :=
  fold_left
    (fun d username =>
       match load_user_session_data username with
       | Some (post :: rest) => dict_set username (post :: rest) d
       | _ => d
       end)
    users [].

(** The loop [while any(...)], [turn] counting its turns.  [None]: the loop
    did not come to its end within [fuel] turns, or an index was out of
    range. *)
Fixpoint deal (fuel turn : nat) (d : posts_map) (user_indices : gmap string nat)
    (interleaved_posts : list json) : option (list json) :=
  match fuel with
  | O => None
  | S fuel' =>
      match available_users d user_indices with
      | [] => Some interleaved_posts
      | user :: others =>
          let selected_user := choice turn (user :: others) in
          let post_index := index_of user_indices selected_user in
          match posts_of d selected_user !! post_index with
          | Some post =>
              deal fuel' (S turn) d
                (<[selected_user := S post_index]> user_indices)
                (interleaved_posts ++ [post])
          | None => None
          end
      end
  end.

Definition filter_users (filter_username : option string) (users : list string)
  : list string :=
  match filter_username with
  | Some name =>
      if String.eqb name "" then users
      else List.filter (fun username => String.eqb username name) users
  | None => users
  end.

Definition aggregate_feed (filter_username : option string) (users : list string)
  : option feed :=
  let users := filter_users filter_username users in
  let user_posts_map := load_posts users in
  match deal (turns user_posts_map) 0 user_posts_map
          (initial_indices user_posts_map) [] with
  | Some interleaved_posts =>
      Some {| posts := interleaved_posts;
              total_posts := length interleaved_posts;
              total_users := length users;
              filtered_by := filter_username |}
  | None => None
  end.

End Aggregate.

End Feed.

(** ** The tracked users: [user_manager.py] *)

Module Users.

(** A tracked user, with the fields [add_user] gives it. *)
Record user : Type := {
  username : string;
  display_name : string;
  profile_urn : option string;
  initials : string;
  added_at : string;
  last_scraped : option string;
  post_count : Z;
  session_dir : option string
}.

(** A keyword argument of [update_user], among the fields its callers and
    its documentation name. *)
Inductive change : Type :=
| SetProfileUrn (value : option string)
| SetLastScraped (value : option string)
| SetPostCount (value : Z)
| SetSessionDir (value : option string).

Definition set_field (u : user) (c : change) : user :=
  match c with
  | SetProfileUrn value =>
      {| username := username u; display_name := display_name u;
         profile_urn := value; initials := initials u; added_at := added_at u;
         last_scraped := last_scraped u; post_count := post_count u;
         session_dir := session_dir u |}
  | SetLastScraped value =>
      {| username := username u; display_name := display_name u;
         profile_urn := profile_urn u; initials := initials u; added_at := added_at u;
         last_scraped := value; post_count := post_count u;
         session_dir := session_dir u |}
  | SetPostCount value =>
      {| username := username u; display_name := display_name u;
         profile_urn := profile_urn u; initials := initials u; added_at := added_at u;
         last_scraped := last_scraped u; post_count := value;
         session_dir := session_dir u |}
  | SetSessionDir value =>
      {| username := username u; display_name := display_name u;
         profile_urn := profile_urn u; initials := initials u; added_at := added_at u;
         last_scraped := last_scraped u; post_count := post_count u;
         session_dir := value |}
  end.

(** [for key, value in kwargs.items(): user[key] = value] *)
Definition set_fields (kwargs : list change) (u : user) : user :=
  fold_left set_field kwargs u.

Fixpoint get_user (users : list user) (name : string) : option user :=
  match users with
  | [] => None
  | u :: rest => if String.eqb (username u) name then Some u else get_user rest name
  end.

Section Manager.

(** The two formatting helpers work on the characters of the name with
    [str.title], [str.split] and [str.upper]; they are parameters. *)
Variable _extract_display_name : string -> string.
Variable _get_initials : string -> string.

(** [add_user], [now] the reading of the clock as [isoformat] writes it:
    the user returned and the list afterwards. *)
Definition add_user (name : string) (urn : option string) (now : string)
    (users : list user) : user * list user :=
  match get_user users name with
  | Some existing => (existing, users)
  | None =>
      let display := _extract_display_name name in
      let u :=
        {| username := name; display_name := display; profile_urn := urn;
           initials := _get_initials display; added_at := now;
           last_scraped := None; post_count := 0; session_dir := None |} in
      (u, users ++ [u])
  end.

(** [update_user]: the first user of the name is changed in place. *)
Fixpoint update_user (name : string) (kwargs : list change) (users : list user)
  : option user * list user :=
  match users with
  | [] => (None, [])
  | u :: rest =>
      if String.eqb (username u) name
      then (Some (set_fields kwargs u), set_fields kwargs u :: rest)
      else let (r, rest') := update_user name kwargs rest in (r, u :: rest')
  end.

(** [remove_user]: the first user of the name is popped. *)
Fixpoint remove_user (name : string) (users : list user) : bool * list user :=
  match users with
  | [] => (false, [])
  | u :: rest =>
      if String.eqb (username u) name then (true, rest)
      else let (r, rest') := remove_user name rest in (r, u :: rest')
  end.

Definition get_user_count (users : list user) : Z := Z.of_nat (length users).

Definition get_total_posts (users : list user) : Z :=
  fold_left Z.add (map post_count users) 0.

(** A call on the manager. *)
Inductive call : Type :=
| Add (name : string) (urn : option string) (now : string)
| Update (name : string) (kwargs : list change)
| Remove (name : string).

Definition apply_call (c : call) (users : list user) : list user :=
  match c with
  | Add name urn now => snd (add_user name urn now users)
  | Update name kwargs => snd (update_user name kwargs users)
  | Remove name => snd (remove_user name users)
  end.

Definition run_calls (calls : list call) (users : list user) : list user :=
  fold_left (fun users c => apply_call c users) calls users.

End Manager.

End Users.

(** ** Vocabulary of the statements *)

Module Spec.
Import Py Fetcher.

(** An entity the index can take: an object whose [entityUrn], when it has
    one, can be hashed. *)
Definition well_formed_entity (item : json) : bool :=
  match py_get item "entityUrn" empty_str with
  | Ok urn => match hash_key urn with Ok _ => true | Raise => false end
  | Raise => false
  end.

(** [item] is an [Update] whose [entityUrn] is not empty and is the key
    [k]. *)
Definition indexed_under (k : pykey) (item : json) : bool :=
  match py_get item "$type" JNull, py_get item "entityUrn" empty_str with
  | Ok ty, Ok urn =>
      py_eq ty (JStr UPDATE_TYPE) && truthy urn &&
      match hash_key urn with
      | Ok k' => bool_decide (k' = k)
      | Raise => false
      end
  | _, _ => false
  end.

(** The reference list of a page, as the extraction walks it. *)
Definition page_refs (activity_data : json) : list json :=
  try_except
    (feed <- feed_of activity_data ;;
     elements <- py_get feed "*elements" empty_list ;;
     py_iter elements)
    [].

(** The post stands at its order in the reference list, counted from one,
    and carries the identifier found there. *)
Definition at_ref (refs : list json) (p : post_info) : Prop :=
  1 <= post_order p /\
  exists e k, refs !! Z.to_nat (post_order p - 1) = Some e /\
    hash_key e = Ok k /\ hash_key (entity_urn p) = Ok k.

(** What the loop adds to [posts] when it starts at the order [idx]. *)
Definition added_from (idx : Z) (elements : list json) (new : list post_info) : Prop :=
  StronglySorted Z.lt (map post_order new) /\
  Forall (fun p =>
            idx <= post_order p /\
            exists e k, elements !! Z.to_nat (post_order p - idx) = Some e /\
              hash_key e = Ok k /\ hash_key (entity_urn p) = Ok k) new.

(** [v.get(k, {})] is an object. *)
Definition object_at (v : json) (k : string) : bool :=
  match py_get v k empty_dict with
  | Ok (JDict _) => true
  | _ => false
  end.

(** The fields of the entity that are read through are objects, or are
    missing. *)
Definition readable_entity (item : json) : bool :=
  match item with
  | JDict _ =>
      object_at item "metadata" &&
      object_at item "commentary" &&
      match py_get item "commentary" empty_dict with
      | Ok commentary => object_at commentary "text"
      | Raise => false
      end &&
      object_at item "socialContent" &&
      object_at item "actor" &&
      match py_get item "actor" empty_dict with
      | Ok actor => object_at actor "navigationContext"
      | Raise => false
      end
  | _ => false
  end.

(** Where the body text and the canonical URL of an entity are read. *)
Definition body_text (item : json) : result json :=
  commentary <- py_get item "commentary" empty_dict ;;
  text_obj <- py_get commentary "text" empty_dict ;;
  py_get text_obj "text" empty_str.

Definition canonical_url (item : json) : result json :=
  social_content <- py_get item "socialContent" empty_dict ;;
  py_get social_content "shareUrl" empty_str.

(** The width [max] compares, when it is a number. *)
Definition artifact_width (a : json) : option Z :=
  match py_get a "width" (JNum 0) with
  | Ok w => as_int w
  | Raise => None
  end.

(** [best], at the place [i], has the largest width [w] of the list and is
    the first artifact to have it. *)
Definition first_widest (artifacts : list json) (i : nat) (best : json) (w : Z)
  : Prop :=
  artifacts !! i = Some best /\
  artifact_width best = Some w /\
  (forall j a wa,
      artifacts !! j = Some a -> artifact_width a = Some wa -> wa <= w) /\
  (forall j a wa,
      (j < i)%nat -> artifacts !! j = Some a -> artifact_width a = Some wa ->
      wa < w).

(** Where the vector image of an image element and the images of a post
    are read. *)
Definition vector_image_of (image : json) : result json :=
  attributes <- py_get image "attributes" empty_list ;;
  attr <- py_index0 attributes ;;
  detail_data <- py_get attr "detailData" empty_dict ;;
  py_get detail_data "vectorImage" empty_dict.

Definition images_of (item : json) : result json :=
  content <- py_get item "content" empty_dict ;;
  image_component <- py_get content "imageComponent" empty_dict ;;
  py_get image_component "images" empty_list.

(** An artifact with a numeric width and a path segment that is a
    string. *)
Definition well_formed_artifact (a : json) : Prop :=
  is_Some (artifact_width a) /\
  exists seg, py_get a "fileIdentifyingUrlPathSegment" empty_str = Ok (JStr seg).

(** Where the reference to the playback metadata of a post is read. *)
Definition video_ref_of (item : json) : result json :=
  content <- py_get item "content" empty_dict ;;
  video_component <- py_get content "linkedInVideoComponent" empty_dict ;;
  py_get video_component "*videoPlayMetadata" empty_str.

(** The streams that have a URL, in their order, each with its width, its
    height and its URL. *)
Fixpoint usable_streams (streams : list json) : result (list (json * json * json)) :=
  match streams with
  | [] => Ok []
  | stream :: rest =>
      r <- stream_url stream ;;
      us <- usable_streams rest ;;
      Ok (match r with Some t => t :: us | None => us end)
  end.

Definition stream_has (n : Z) (t : json * json * json) : bool :=
  has_dim n (fst (fst t)) (snd (fst t)).

(** The scan, on the streams that have a URL. *)
Definition scan_usable (us : list (json * json * json)) (acc : video_urls)
  : video_urls :=
  fold_left (fun acc t => scan_step acc (fst (fst t)) (snd (fst t)) (snd t)) us acc.

(** Every individual post file is written. *)
Definition posts_saved (env : collaborators) : Prop :=
  forall p n, save_individual_post env p n = true.

(** A page of the requested size that yields as many posts. *)
Definition full_page (count : nat) (activity_data : json) : Prop :=
  (length (page_refs activity_data) <= count)%nat /\
  length (extract_posts_from_response activity_data) = count.


(** *** A decoded body read by its structure *)

(** The value an object holds under a key; nothing for a key it does not
    have and for a value that is not an object. *)
Definition field (k : string) (v : json) : option json :=
  match v with
  | JDict d => dict_lookup k d
  | _ => None
  end.

(** The feed object of a response, its reference list and its flat entity
    list. *)
Definition feed_object (activity_data : json) : option json :=
  (field "data" activity_data ≫= field "data") ≫= field FEED_KEY.

Definition reference_list (activity_data : json) : option json :=
  feed_object activity_data ≫= field "*elements".

Definition entity_list (activity_data : json) : option json :=
  field "included" activity_data.

(** The continuation token of a response, under the metadata of its feed
    object. *)
Definition continuation_token (activity_data : json) : option json :=
  (feed_object activity_data ≫= field "metadata") ≫= field "paginationToken".

(** The response holds no continuation token: there is none, or it is
    empty ([null], ['']). *)
Definition lacks_token (activity_data : json) : Prop :=
  match continuation_token activity_data with
  | Some token => truthy token = false
  | None => True
  end.

(** The entity the index of a page holds for a reference: the last [Update]
    of the entity list with this identifier. *)
Definition entity_at (included : list json) (ref : string) : option json :=
  last (List.filter (indexed_under (Some (inl ref))) included).

(** The body text and the canonical URL of an entity, empty when the entity
    has none. *)
Definition entity_text (item : json) : json :=
  default empty_str ((field "commentary" item ≫= field "text") ≫= field "text").

Definition entity_url (item : json) : json :=
  default empty_str (field "socialContent" item ≫= field "shareUrl").

Definition has_text_or_url (item : json) : bool :=
  truthy (entity_text item) || truthy (entity_url item).

(** What a page is to yield from the place [idx] of its reference list on:
    for each reference, in the order of the list, whose entity is in the
    index and has a text or a URL, the place of the reference, the reference
    and the entity. *)
Fixpoint expected_from (included : list json) (idx : Z) (refs : list string)
  : list (Z * string * json) :=
  match refs with
  | [] => []
  | ref :: rest =>
      match entity_at included ref with
      | Some item => if has_text_or_url item then [(idx, ref, item)] else []
      | None => []
      end ++ expected_from included (idx + 1) rest
  end.

(** The post made of an entity: its place, its identifier, its text and its
    URL. *)
Definition post_of (p : post_info) (e : Z * string * json) : Prop :=
  post_order p = fst (fst e) /\
  entity_urn p = JStr (snd (fst e)) /\
  post_text p = entity_text (snd e) /\
  post_url p = entity_url (snd e).

(** Every entity of the page that a reference names is readable. *)
Definition references_readable (included : list json) (refs : list string) : Prop :=
  forall ref item,
    ref ∈ refs -> entity_at included ref = Some item -> readable_entity item = true.

(** *** Video streams read by their structure *)

(** The reference a post holds to its playback metadata. *)
Definition video_reference (item : json) : option json :=
  (field "content" item ≫= field "linkedInVideoComponent")
    ≫= field "*videoPlayMetadata".

(** The entity has the identifier [ref]. *)
Definition has_urn (ref : string) (item : json) : bool :=
  match field "entityUrn" item with
  | Some (JStr urn) => String.eqb urn ref
  | _ => false
  end.

(** The playback metadata a reference names: the first entity of the list
    with this identifier. *)
Definition metadata_at (included : list json) (ref : string) : option json :=
  List.find (has_urn ref) included.

(** A stream descriptor, as to its types: an object whose streaming
    locations, when it has some, are a list that begins with an object. *)
Definition well_formed_stream (stream : json) : bool :=
  match stream with
  | JDict _ =>
      match field "streamingLocations" stream with
      | None => true
      | Some (JList (JDict _ :: _)) => true
      | Some locations => negb (truthy locations)
      end
  | _ => false
  end.

(** The width, the height and the URL of a stream that has a URL: the URL
    of its first streaming location, when it is not empty. *)
Definition stream_entry (stream : json) : option (json * json * json) :=
  match field "streamingLocations" stream with
  | Some (JList (location :: _)) =>
      match field "url" location with
      | Some url =>
          if truthy url
          then Some (default (JNum 0) (field "width" stream),
                     default (JNum 0) (field "height" stream), url)
          else None
      | None => None
      end
  | _ => None
  end.

Definition streams_with_url (streams : list json) : list (json * json * json) :=
  omap stream_entry streams.

(** *** The posts of range files *)

(** The posts of a page, numbered from the start of its range. *)
Definition renumbered (range_start : Z) (activity_data : json) : list post_info :=
  map (fun p => set_post_order (range_start + post_order p) p)
      (extract_posts_from_response activity_data).

(** The posts of the files, file after file. *)
Definition posts_of_files (files : list range_file) : list post_info :=
  flat_map (fun f => renumbered (fst (fst f)) (snd f)) files.

(** The posts whose own file is written. *)
Definition kept (env : collaborators) (posts : list post_info) : list post_info :=
  List.filter (fun q => save_individual_post env q (post_order q)) posts.

(** Nothing gets out of a call of the run. *)
Definition uninterrupted (env : collaborators) : Prop :=
  forall s, raises env s = None.

End Spec.

(** ** Sample responses *)

Module Examples.
Import Py Fetcher.

Definition update (urn text url : string) : json :=
  JDict [("$type", JStr UPDATE_TYPE); ("entityUrn", JStr urn);
         ("commentary", JDict [("text", JDict [("text", JStr text)])]);
         ("socialContent", JDict [("shareUrl", JStr url)])].

Definition page_of (elements included : list json) : json :=
  JDict [("data", JDict [("data", JDict [(FEED_KEY,
           JDict [("*elements", JList elements)])])]);
         ("included", JList included)].

(** Three references, the second one unknown to the entity list, which
    lists the two posts in the opposite order and holds a third entity that
    is not referenced. *)
Definition sample_included : list json :=
  [update "urn:b" "second post" ""; update "urn:c" "" "";
   update "urn:a" "" "https://example.org/a"].

Definition sample_page : json :=
  page_of [JStr "urn:a"; JStr "urn:missing"; JStr "urn:b"] sample_included.

(** The same identifier twice in the entity list. *)
Definition twice_included : list json :=
  [update "urn:a" "first" ""; update "urn:b" "other" ""; update "urn:a" "last" ""].

Definition artifact (width : Z) (segment : string) : json :=
  JDict [("width", JNum width); ("height", JNum width);
         ("fileIdentifyingUrlPathSegment", JStr segment)].

Definition image_of (root_url : string) (artifacts : list json) : json :=
  JDict [("attributes",
          JList [JDict [("detailData",
            JDict [("vectorImage",
              JDict [("rootUrl", JStr root_url);
                     ("artifacts", JList artifacts)])])]])].

Definition post_with_images (images : list json) : json :=
  JDict [("$type", JStr UPDATE_TYPE); ("entityUrn", JStr "urn:img");
         ("content", JDict [("imageComponent", JDict [("images", JList images)])])].

Definition three_sizes : list json :=
  [artifact 320 "small.jpg"; artifact 640 "medium.jpg"; artifact 720 "large.jpg"].

Definition stream (width height : Z) (url : string) : json :=
  JDict [("width", JNum width); ("height", JNum height);
         ("streamingLocations", JList [JDict [("url", JStr url)]])].

Definition play_metadata (urn : string) (streams : list json) : json :=
  JDict [("entityUrn", JStr urn); ("progressiveStreams", JList streams)].

Definition post_with_video (urn : string) : json :=
  JDict [("$type", JStr UPDATE_TYPE); ("entityUrn", JStr "urn:video-post");
         ("content", JDict [("linkedInVideoComponent",
            JDict [("*videoPlayMetadata", JStr urn)])])].

Definition s360 : json := stream 360 202 "https://v.example/360.mp4".
Definition s640 : json := stream 640 360 "https://v.example/640.mp4".
Definition s720 : json := stream 720 406 "https://v.example/720.mp4".
Definition s1080 : json := stream 1920 1080 "https://v.example/1080.mp4".

Definition video_included (streams : list json) : json :=
  JList [update "urn:other" "text" ""; play_metadata "urn:meta" streams].

(** A page of [n] posts, the identifiers built on [tag]. *)
Definition numbered_urn (tag : string) (i : nat) : string :=
  tag +:+ NilZero.string_of_uint (Nat.to_uint i).

Definition numbered_page (tag : string) (n : nat) : json :=
  page_of (map (fun i => JStr (numbered_urn tag i)) (seq 1 n))
          (map (fun i => update (numbered_urn tag i) "some text" "") (rev (seq 1 n))).

(** The page [numbered_page tag n] with one more reference before the
    others, which no entity answers. *)
Definition led_page (tag : string) (n : nat) : json :=
  page_of (JStr "urn:unknown" :: map (fun i => JStr (numbered_urn tag i)) (seq 1 n))
          (map (fun i => update (numbered_urn tag i) "some text" "") (rev (seq 1 n))).

(** The page [numbered_page tag n], with a continuation token. *)
Definition numbered_page_with_token (tag : string) (n : nat) (token : string) : json :=
  JDict [("data", JDict [("data", JDict [(FEED_KEY,
           JDict [("*elements",
                   JList (map (fun i => JStr (numbered_urn tag i)) (seq 1 n)));
                  ("metadata", JDict [("paginationToken", JStr token)])])])]);
         ("included",
          JList (map (fun i => update (numbered_urn tag i) "some text" "")
                   (rev (seq 1 n))))].

(** The network answers the first request and fails on every other one. *)
Definition first_page_only (page : json) (count start : Z) (token : option json)
  : option json :=
  if (start =? 0) && bool_decide (token = None) then Some page else None.

(** Stand-ins for the two built-ins, enough to run the parser on the
    samples: the text of a value that is not a string is abridged, and the
    hash of a string is its length, moved by the secret. *)
Definition sample_str (v : json) : string :=
  match v with
  | JNull => "None"
  | JStr s => s
  | JDict [] => "{}"
  | _ => "..."
  end.

Definition sample_hash (secret : Z) (s : string) : Z :=
  secret + Z.of_nat (String.length s).

Definition no_media (content : json) : result (list unit) := Ok [].

(** Two posts, the first one met twice, and a post without identifier. *)
Definition activity_page : json :=
  JDict [("included",
    JList [update "urn:li:activity:7001" "a first post, long enough" "";
           update "urn:li:fsd_update:(urn:li:activity:7002,FEED)"
             "a second post, long enough" "";
           update "urn:li:activity:7001" "a first post, long enough" "";
           JDict [("$type", JStr UPDATE_TYPE);
                  ("commentary",
                   JDict [("text", JDict [("text", JStr "no identifier here")])])]])].

(** A session in which nothing fails but the network, which answers as
    [fetch] says. *)
Definition session_with (fetch : Z -> Z -> option json -> option json)
  : collaborators :=
  {| raises := fun _ => None;
     login_to_linkedin := true;
     extract_profile_urn := fun _ => Some "urn:li:fsd_profile:X";
     fetch_profile_activity := fun _ => fetch;
     save_activity_data := fun _ _ _ => true;
     save_individual_post := fun _ _ => true |}.

(** The same session, where no range file can be written. *)
Definition session_without_files (fetch : Z -> Z -> option json -> option json)
  : collaborators :=
  {| raises := fun _ => None;
     login_to_linkedin := true;
     extract_profile_urn := fun _ => Some "urn:li:fsd_profile:X";
     fetch_profile_activity := fun _ => fetch;
     save_activity_data := fun _ _ _ => false;
     save_individual_post := fun _ _ => true |}.

(** The same session, interrupted by the user at the call [stop]. *)
Definition interrupted_at (stop : site)
    (fetch : Z -> Z -> option json -> option json) : collaborators :=
  {| raises := fun s => if decide (s = stop) then Some KeyboardInterrupt else None;
     login_to_linkedin := true;
     extract_profile_urn := fun _ => Some "urn:li:fsd_profile:X";
     fetch_profile_activity := fun _ => fetch;
     save_activity_data := fun _ _ _ => true;
     save_individual_post := fun _ _ => true |}.

End Examples.

(** ** More vocabulary and samples *)

Module More.
Import Py Fetcher Spec.

(** The ranges [parse_ranges] builds, in closed form: range [i] starts at
    [20 * i] and stops twenty further, or at the target. *)
Definition nth_range (target_end i : Z) : Z * Z :=
  (20 * i, Z.min (20 * (i + 1)) target_end).

Definition range_count (target_end : Z) : Z := (target_end + 19) / 20.

(** Every range file is written. *)
Definition ranges_saved (env : collaborators) : Prop :=
  forall idx r d, save_activity_data env idx r d = true.

(** The files kept by the loop, from the turn [idx] on: each one holds the
    body answered to the request for its range, which was made without a
    token at the first turn and with [token], the token of the response
    before, at the others; the body is truthy, and it holds a token when
    another file follows. *)
Fixpoint chained (env : collaborators) (profile_urn : string) (idx : Z)
    (token : option json) (files : list range_file) : Prop :=
  match files with
  | [] => True
  | ((start, end_), activity_data) :: rest =>
      fetch_profile_activity env profile_urn (end_ - start) start
        (if idx =? 1 then None else token) = Some activity_data /\
      truthy activity_data = true /\
      (rest <> [] -> no_token (extract_pagination_token activity_data) = false) /\
      chained env profile_urn (idx + 1) (extract_pagination_token activity_data) rest
  end.

(** The token the request after the files [new] is made with. *)
Definition last_token (token : option json) (new : list range_file) : option json :=
  match last new with
  | Some (_, activity_data) => extract_pagination_token activity_data
  | None => token
  end.

(** The request for the range [(start, end_)] at the turn [idx] is not made
    for want of a token, or brings no body. *)
Definition stops_at (env : collaborators) (profile_urn : string) (idx : Z)
    (token : option json) (start end_ : Z) : Prop :=
  (idx <> 1 /\ no_token token = true) \/
  match fetch_profile_activity env profile_urn (end_ - start) start
          (if idx =? 1 then None else token) with
  | None => True
  | Some activity_data => truthy activity_data = false
  end.

(** The ranges follow one another from [lo] on without overlap, and no
    page holds more references than its range has places. *)
Fixpoint ascending_from (lo : Z) (files : list range_file) : Prop :=
  match files with
  | [] => True
  | ((start, end_), activity_data) :: rest =>
      lo <= start /\
      Z.of_nat (length (page_refs activity_data)) <= end_ - start /\
      ascending_from end_ rest
  end.

(** The index of a page, as the extraction builds it. *)
Definition page_index (activity_data : json) : result (gmap pykey json) :=
  included <- py_get activity_data "included" empty_list ;;
  entities <- py_iter included ;;
  build_post_lookup entities ∅.

(** The URL an image element contributes, if any. *)
Definition resolved (image : json) : list json :=
  match image_url image with
  | Ok (Some complete_url) => [complete_url]
  | Ok None | Raise => []
  end.

(** The stream the scan settles on: the last one of the preferred size,
    else the last one of the other size, else the first one. *)
Definition preferred_stream (prefer_640p : bool) (us : list (json * json * json))
  : option (json * json * json) :=
  let s640 := last (List.filter (stream_has 640) us) in
  let s720 := last (List.filter (stream_has 720) us) in
  match (if prefer_640p then s640 else s720) with
  | Some t => Some t
  | None =>
      match (if prefer_640p then s720 else s640) with
      | Some t => Some t
      | None => head us
      end
  end.

(** An entity with a commentary that is [null]. *)
Definition null_commentary (urn : string) : json :=
  JDict [("$type", JStr UPDATE_TYPE); ("entityUrn", JStr urn);
         ("commentary", JNull)].

(** An entity with a content that is [null]. *)
Definition null_content (urn text : string) : json :=
  JDict [("$type", JStr UPDATE_TYPE); ("entityUrn", JStr urn);
         ("commentary", JDict [("text", JDict [("text", JStr text)])]);
         ("content", JNull)].

(** What [k] attempts, the first of them numbered [attempt], look like from
    outside: a pause between two requests, and none after the last. *)
Fixpoint requests_from (pause attempt : Z) (k : nat) : list Media.event :=
  match k with
  | O => []
  | S k' =>
      match k' with
      | O => [Media.Requested attempt]
      | S _ =>
          Media.Requested attempt :: Media.Slept pause
            :: requests_from pause (attempt + 1) k'
      end
  end.

(** No attempt numbered from [lo] to [hi - 1] saves the file. *)
Definition none_saved (respond : Z -> Media.outcome) (lo hi : Z) : Prop :=
  forall i, lo <= i < hi -> respond i <> Media.Saved.

(** An answer that saves the file at the attempt [n] and at no other. *)
Definition saved_at (n : Z) (attempt : Z) : Media.outcome :=
  if attempt =? n then Media.Saved else Media.BadStatus.

(** A network on which images are saved at the second attempt and videos
    never, and a disk that writes no text. *)
Definition slow_network : Media.downloads :=
  {| Media.save_post_text := fun _ _ => false;
     Media.image_response := fun _ _ _ => saved_at 1;
     Media.video_response := fun _ _ _ => Media.Failed |}.

(** A post with a text, a video and [n] images. *)
Definition media_post (order : Z) (n : nat) (video : string) : post_info :=
  {| entity_urn := JStr "urn:p"; activity_urn := empty_str; share_urn := empty_str;
     post_text := JStr "text"; post_url := empty_str;
     author_profile_urn := empty_str; author_name := empty_str;
     author_headline := empty_str; author_profile_url := empty_str;
     video_url_640p := JStr video;
     image_urls := map (fun i => JStr (Examples.numbered_urn "img" i)) (seq 1 n);
     post_order := order |}.

(** The files of each kind a run of the downloads has counted, and what
    holds of counters. *)
Definition texts_of (st : Media.stats) : Z :=
  Media.text_saved st + Media.text_failed st.

Definition images_of_stats (st : Media.stats) : Z :=
  Media.images_downloaded st + Media.images_failed st.

Definition videos_of (st : Media.stats) : Z :=
  Media.videos_downloaded st + Media.videos_failed st.

Definition counted (st : Media.stats) : Prop :=
  0 <= Media.text_saved st /\ 0 <= Media.text_failed st /\
  0 <= Media.images_downloaded st /\ 0 <= Media.images_failed st /\
  0 <= Media.videos_downloaded st /\ 0 <= Media.videos_failed st.

(** A post the parser keeps has a text of more than ten characters, counted
    in code points, once the blanks at both ends are removed. *)
Definition meaningful {MediaInfo : Type} (p : Parser.PostInfo MediaInfo) : Prop :=
  exists s, Parser.post_text MediaInfo p = JStr s /\
            (10 < length (Parser.strip s))%nat.

(** An update whose text is too short to be kept, and one with the same
    identity and a text that would be. *)
Definition short_update : json :=
  JDict [("$type", JStr UPDATE_TYPE); ("entityUrn", JStr "urn:li:activity:1");
         ("commentary", JDict [("text", JDict [("text", JStr "too short")])])].

Definition long_update : json :=
  JDict [("$type", JStr UPDATE_TYPE); ("entityUrn", JStr "urn:li:activity:1");
         ("commentary",
          JDict [("text", JDict [("text", JStr "a text that is long enough")])])].

(** Eight characters that take three bytes each in UTF-8 (U+65E5), and an
    update with this text. *)
Definition eight_wide_characters : string :=
  string_of_list_ascii
    (flat_map (fun _ => map ascii_of_nat [230; 151; 165]%nat) (seq 0 8)).

Definition wide_update : json :=
  JDict [("$type", JStr UPDATE_TYPE); ("entityUrn", JStr "urn:li:activity:2");
         ("commentary",
          JDict [("text", JDict [("text", JStr eight_wide_characters)])])].

(** The calls of two threads, each in its order, as the lock lets them
    through. *)
Inductive interleaved {A : Type} : list A -> list A -> list A -> Prop :=
| interleaved_nil : interleaved [] [] []
| interleaved_left (x : A) (l r all : list A) :
    interleaved l r all -> interleaved (x :: l) r (x :: all)
| interleaved_right (x : A) (l r all : list A) :
    interleaved l r all -> interleaved l (x :: r) (x :: all).

(** A call that begins a run or forgets one. *)
Definition restarts (c : Status.call) : bool :=
  match c with
  | Status.Start _ _ _ _ _ | Status.Reset _ _ => true
  | _ => false
  end.

(** What holds of the fields of a manager whatever was called on it. *)
Definition consistent (m : Status.manager) : Prop :=
  (Status._state m = Status.IDLE <-> Status._started_at m = None) /\
  (Status._state m = Status.RUNNING -> is_Some (Status._last_heartbeat m)) /\
  (is_Some (Status._error m) <->
   Status._state m = Status.FAILED \/ Status._state m = Status.TIMEOUT) /\
  0 <= Status._completed_users m.

(** A way of writing seconds, for the examples. *)
Definition plain_seconds (elapsed : Z) : string :=
  Parser.string_of_Z (elapsed / 1000000).

(** A run started for one user when the clock reads zero. *)
Definition started_manager : Status.manager :=
  Status.run_calls plain_seconds [Status.Start "someone" 1 0 0 0]
    Status._reset_all_fields.

(** The posts of a feed that were dealt from one user, [owners] naming the
    user each post of the feed was taken from. *)
Definition dealt_to (user : string) (owners : list string) (feed : list json)
  : list json :=
  map snd (List.filter (fun op => String.eqb (fst op) user) (combine owners feed)).

(** The posts still to deal. *)
Definition left_to_deal (d : Feed.posts_map) (user_indices : gmap string nat) : nat :=
  sum_list_with
    (fun user => (length (Feed.posts_of d user) - Feed.index_of user_indices user)%nat)
    (Feed.keys d).

(** The posts a user brings to the feed: those of the session data, if the
    user is among those asked for. *)
Definition posts_loaded (load : string -> option (list json)) (users : list string)
    (user : string) : list json :=
  if bool_decide (user ∈ users) then default [] (load user) else [].

(** Two users with two posts and one, a third without session data, and
    draws that take the last user available at every turn. *)
Definition sample_sessions (username : string) : option (list json) :=
  if String.eqb username "ann" then Some [JStr "a1"; JStr "a2"]
  else if String.eqb username "bob" then Some [JStr "b1"]
  else None.

Definition draw_last (turn n : nat) : nat := (n - 1)%nat.

(** The exception that ends a refresh of all users, if there is one, and
    the scrapes that succeeded before it. *)
Fixpoint raised (users : list (string * Z * Status.scrape_outcome)) : option string :=
  match users with
  | [] => None
  | (_, _, Status.Raised message) :: _ => Some message
  | _ :: rest => raised rest
  end.

Fixpoint scraped (users : list (string * Z * Status.scrape_outcome)) : Z :=
  match users with
  | [] => 0
  | (_, _, Status.Raised _) :: _ => 0
  | (_, _, Status.Scraped _) :: rest => 1 + scraped rest
  | (_, _, Status.NotScraped _) :: rest => scraped rest
  end.

(** The tracked users as a finite map from names: what a list of users
    with distinct names stands for. *)
Definition users_map (users : list Users.user) : gmap string Users.user :=
  list_to_map (map (fun u => (Users.username u, u)) users).

(** The calls of the user manager on such a map. *)
Definition map_call (display initials : string -> string) (c : Users.call)
    (m : gmap string Users.user) : gmap string Users.user :=
  match c with
  | Users.Add name urn now =>
      match m !! name with
      | Some _ => m
      | None =>
          <[name :=
              {| Users.username := name; Users.display_name := display name;
                 Users.profile_urn := urn;
                 Users.initials := initials (display name);
                 Users.added_at := now; Users.last_scraped := None;
                 Users.post_count := 0; Users.session_dir := None |}]> m
      end
  | Users.Update name kwargs =>
      match m !! name with
      | Some u => <[name := Users.set_fields kwargs u]> m
      | None => m
      end
  | Users.Remove name => delete name m
  end.

Definition map_calls (display initials : string -> string) (calls : list Users.call)
    (m : gmap string Users.user) : gmap string Users.user :=
  fold_left (fun m c => map_call display initials c m) calls m.

(** Formatting helpers for the examples. *)
Definition plain_name (name : string) : string := name.
Definition first_letter (name : string) : string :=
  match name with
  | EmptyString => "??"
  | String c _ => String c EmptyString
  end.

End More.

(** * Properties *)

(** ** Facts about the Python primitives *)

Module PyFacts.
Import Py.

(** An induction principle that reaches into lists and dictionaries. *)
Lemma json_nested_ind (P : json -> Prop) :
  P JNull ->
  (forall b, P (JBool b)) ->
  (forall n, P (JNum n)) ->
  (forall s, P (JStr s)) ->
  (forall l, Forall P l -> P (JList l)) ->
  (forall d, Forall (fun kv => P (snd kv)) d -> P (JDict d)) ->
  forall j, P j.
Proof.
  intros Hnull Hbool Hnum Hstr Hlist Hdict.
  fix IH 1. intros [ | b | n | s | l | d ].
  - exact Hnull.
  - apply Hbool.
  - apply Hnum.
  - apply Hstr.
  - apply Hlist. induction l as [ | x l IHl ]; constructor; [ apply IH | exact IHl ].
  - apply Hdict. induction d as [ | [k v] d IHd ]; constructor; [ apply IH | exact IHd ].
Qed.

Lemma bind_Ok {A B : Type} (m : result A) (k : A -> result B) (b : B) :
  bind m k = Ok b <-> exists a, m = Ok a /\ k a = Ok b.
Proof.
  destruct m as [ a | ]; simpl; split.
  - intros H. exists a. split; [ reflexivity | exact H ].
  - intros (a' & Ha & Hk). injection Ha as ->. exact Hk.
  - discriminate.
  - intros (a' & Ha & _). discriminate.
Qed.

(** Splits an equation [bind m k = Ok b] found among the hypotheses. *)
Ltac bind_inv H :=
  let a := fresh "v" in
  let Ha := fresh "Hv" in
  apply bind_Ok in H; destruct H as (a & Ha & H).

Lemma hash_key_str (s : string) : hash_key (JStr s) = Ok (Some (inl s)).
Proof. reflexivity. Qed.

Lemma hash_key_sliceable_str (v : json) (s : string) :
  hash_key v = Ok (Some (inl s)) -> v = JStr s.
Proof.
  destruct v; simpl; intros H; try discriminate; congruence.
Qed.

End PyFacts.

(** ** The entity index *)

Module IndexSpec.
Import Py Fetcher Spec PyFacts.

Lemma last_filter_cons {A : Type} (f : A -> bool) (x : A) (l : list A) :
  last (List.filter f (x :: l)) =
  match last (List.filter f l) with
  | Some y => Some y
  | None => if f x then Some x else None
  end.
Proof.
  simpl. destruct (f x); [ | destruct (last (List.filter f l)); reflexivity ].
  destruct (List.filter f l) as [ | y l' ] eqn:E; [ reflexivity | ].
  rewrite last_cons. destruct (last (y :: l')) eqn:E'; [ reflexivity | ].
  apply last_None in E'. discriminate.
Qed.

(** The loop, started from any table [m0]: a key is bound to the last
    entity filed under it, or keeps the binding it had. *)
Lemma build_post_lookup_from (included : list json) :
  Forall (fun item => well_formed_entity item = true) included ->
  forall m0 : gmap pykey json,
  exists m, build_post_lookup included m0 = Ok m /\
    forall k, m !! k =
      match last (List.filter (indexed_under k) included) with
      | Some item => Some item
      | None => m0 !! k
      end.
Proof.
  induction 1 as [ | item rest Hitem _ IH ]; intros m0.
  - exists m0. split; reflexivity.
  - destruct item as [ | | | | | d ]; try discriminate Hitem.
    unfold well_formed_entity in Hitem. simpl in Hitem.
    cbn [build_post_lookup py_get bind].
    set (ty := match dict_lookup "$type" d with Some x => x | None => JNull end).
    set (urn := match dict_lookup "entityUrn" d with Some x => x | None => empty_str end) in *.
    destruct (hash_key urn) as [ k0 | ] eqn:Hk; [ | discriminate ].
    assert (Hidx : forall k, indexed_under k (JDict d) =
              py_eq ty (JStr UPDATE_TYPE) && truthy urn && bool_decide (k0 = k)).
    { intros k. unfold indexed_under. simpl. fold ty urn. rewrite Hk. reflexivity. }
    destruct (py_eq ty (JStr UPDATE_TYPE)) eqn:Hty;
      [ destruct (truthy urn) eqn:Hurn | ]; cbn [bind].
    + destruct (IH (<[k0 := JDict d]> m0)) as (m & Hm & Hlook).
      exists m. split; [ exact Hm | ]. intros k.
      rewrite last_filter_cons, Hlook, Hidx. simpl.
      destruct (last (List.filter (indexed_under k) rest)); [ reflexivity | ].
      case_bool_decide as Hkk.
      * subst k. apply lookup_insert_eq.
      * apply lookup_insert_ne. exact Hkk.
    + destruct (IH m0) as (m & Hm & Hlook).
      exists m. split; [ exact Hm | ]. intros k.
      rewrite last_filter_cons, Hlook, Hidx. simpl.
      destruct (last (List.filter (indexed_under k) rest)); reflexivity.
    + destruct (IH m0) as (m & Hm & Hlook).
      exists m. split; [ exact Hm | ]. intros k.
      rewrite last_filter_cons, Hlook, Hidx. simpl.
      destruct (last (List.filter (indexed_under k) rest)); reflexivity.
Qed.

(** C10.  When every entity of the flat list is an object with a hashable
    identifier, the index is built, and it binds a key to the last entity
    of the list that is an [Update] with that non-empty identifier, and to
    nothing when the list has no such entity. *)
Theorem post_lookup_last_update (included : list json) :
  Forall (fun item => well_formed_entity item = true) included ->
  exists m, build_post_lookup included ∅ = Ok m /\
    forall k, m !! k = last (List.filter (indexed_under k) included).
Proof.
  intros Hwf. destruct (build_post_lookup_from included Hwf ∅) as (m & Hm & Hlook).
  exists m. split; [ exact Hm | ]. intros k. rewrite Hlook, lookup_empty.
  destruct (last (List.filter (indexed_under k) included)); reflexivity.
Qed.

Lemma post_lookup_last_update_witness :
  Forall (fun item => well_formed_entity item = true) Examples.twice_included /\
  exists m, build_post_lookup Examples.twice_included ∅ = Ok m /\
    forall k, m !! k = last (List.filter (indexed_under k) Examples.twice_included).
Proof.
  assert (H : Forall (fun item => well_formed_entity item = true)
                Examples.twice_included) by (repeat constructor).
  split; [ exact H | ].
  exact (post_lookup_last_update Examples.twice_included H).
Defined.

(** The later of two entities with the same identifier is the one kept. *)
Example twice_included_keeps_last :
  (m <- build_post_lookup Examples.twice_included ∅ ;;
   Ok (m !! (Some (inl "urn:a") : pykey))) =
  Ok (Some (Examples.update "urn:a" "last" "")).
Proof. vm_compute. reflexivity. Qed.

End IndexSpec.

(** ** Post extraction *)

Module ExtractSpec.
Import Py Fetcher Spec PyFacts.

Lemma indexed_under_inv (k : pykey) (item : json) :
  indexed_under k item = true ->
  truthy item = true /\
  exists urn, py_get item "entityUrn" empty_str = Ok urn /\ hash_key urn = Ok k.
Proof.
  unfold indexed_under. destruct item as [ | | | | | d ]; simpl; try discriminate.
  set (urn := match dict_lookup "entityUrn" d with Some x => x | None => empty_str end).
  destruct (dict_lookup "$type" d) as [ ty | ] eqn:Hty.
  - intros H. apply andb_prop in H as [ _ Hk ].
    destruct (hash_key urn) as [ k' | ] eqn:Hurn; [ | discriminate ].
    apply bool_decide_eq_true in Hk. subst k'.
    split; [ | exists urn; split; [ reflexivity | exact Hurn ] ].
    destruct d; [ discriminate | reflexivity ].
  - simpl. discriminate.
Qed.

(** Every binding of the table is an entity filed under its key. *)
Lemma build_post_lookup_keys (included : list json) :
  forall m0 m : gmap pykey json,
  build_post_lookup included m0 = Ok m ->
  (forall k item, m0 !! k = Some item -> indexed_under k item = true) ->
  forall k item, m !! k = Some item -> indexed_under k item = true.
Proof.
  induction included as [ | x rest IH ]; intros m0 m Hb Hm0.
  - simpl in Hb. injection Hb as <-. exact Hm0.
  - simpl in Hb. bind_inv Hb. rename v into ty.
    destruct (py_eq ty (JStr UPDATE_TYPE)) eqn:Hty; [ | eapply IH; eassumption ].
    bind_inv Hb. rename v into urn.
    destruct (truthy urn) eqn:Hurn; [ | eapply IH; eassumption ].
    bind_inv Hb. rename v into k0.
    eapply IH; [ exact Hb | ].
    intros k item Hl. destruct (decide (k0 = k)) as [ -> | Hne ].
    + rewrite lookup_insert_eq in Hl. injection Hl as <-.
      unfold indexed_under. rewrite Hv, Hv0, Hty, Hurn, Hv1.
      simpl. apply bool_decide_eq_true. reflexivity.
    + rewrite lookup_insert_ne in Hl by exact Hne. eapply Hm0. exact Hl.
Qed.

Lemma assemble_post_Ok (item included : json) (idx : Z) (p : post_info) :
  assemble_post item included idx = Ok p ->
  post_order p = idx /\
  py_get item "entityUrn" empty_str = Ok (entity_urn p) /\
  body_text item = Ok (post_text p) /\
  canonical_url item = Ok (post_url p).
Proof.
  unfold assemble_post, body_text, canonical_url. intros H.
  repeat bind_inv H. injection H as <-. cbn [post_order entity_urn post_text post_url].
  repeat match goal with
         | E : ?x = Ok _ |- context [?x] => rewrite E; cbn [bind]
         end.
  repeat split; reflexivity.
Qed.

Lemma added_from_skip (idx : Z) (e : json) (rest : list json) (new : list post_info) :
  added_from (idx + 1) rest new -> added_from idx (e :: rest) new.
Proof.
  intros [ Hs Hf ]. split; [ exact Hs | ].
  eapply Forall_impl; [ exact Hf | ]. simpl.
  intros p (Hle & e' & k & Hl & Hk).
  split; [ lia | ]. exists e', k. split; [ | exact Hk ].
  replace (Z.to_nat (post_order p - idx)) with (S (Z.to_nat (post_order p - (idx + 1)))) by lia.
  exact Hl.
Qed.

Lemma added_from_cons (idx : Z) (e : json) (rest : list json) (p : post_info)
    (new : list post_info) (k : pykey) :
  post_order p = idx -> hash_key e = Ok k -> hash_key (entity_urn p) = Ok k ->
  added_from (idx + 1) rest new -> added_from idx (e :: rest) (p :: new).
Proof.
  intros Hp He Hu Hnew. destruct (added_from_skip idx e rest new Hnew) as [ Hs Hf ].
  split.
  - simpl. constructor; [ exact Hs | ].
    apply Forall_map. destruct Hnew as [ _ Hf' ].
    eapply Forall_impl; [ exact Hf' | ]. simpl. intros q (Hle & _). lia.
  - constructor; [ | exact Hf ].
    split; [ lia | ]. exists e, k. rewrite Hp, Z.sub_diag. simpl. auto.
Qed.

Lemma extract_loop_added (m : gmap pykey json) (included : json) :
  (forall k item, m !! k = Some item -> indexed_under k item = true) ->
  forall elements idx posts out,
  extract_loop m included idx elements posts = Ok out ->
  exists new, out = posts ++ new /\ added_from idx elements new.
Proof.
  intros Hm. induction elements as [ | e rest IH ]; intros idx posts out H.
  - simpl in H. injection H as <-. exists []. split; [ symmetry; apply app_nil_r | ].
    split; constructor.
  - simpl in H. bind_inv H. rename v into k.
    destruct (m !! k) as [ item | ] eqn:Hl.
    + destruct (indexed_under_inv k item (Hm k item Hl)) as (Ht & urn & Hurn & Hk).
      rewrite Ht in H. simpl in H. bind_inv H. rename v into p.
      destruct (assemble_post_Ok _ _ _ _ Hv0) as (Hord & Hp & _).
      assert (Hpk : hash_key (entity_urn p) = Ok k) by congruence.
      apply IH in H as (new & -> & Hnew).
      destruct (has_content p).
      * exists (p :: new). split; [ rewrite <- app_assoc; reflexivity | ].
        eapply added_from_cons; eassumption.
      * exists new. split; [ reflexivity | ]. apply added_from_skip. exact Hnew.
    + destruct (sliceable e); [ | discriminate ].
      apply IH in H as (new & -> & Hnew).
      exists new. split; [ reflexivity | ]. apply added_from_skip. exact Hnew.
Qed.

(** The posts of a page and its reference list. *)
Lemma extracted_at_refs (activity_data : json) :
  let out := extract_posts_from_response activity_data in
  StronglySorted Z.lt (map post_order out) /\
  Forall (at_ref (page_refs activity_data)) out.
Proof.
  intros out. subst out.
  unfold extract_posts_from_response, page_refs, extract_posts_body.
  destruct (feed_of activity_data) as [ feed | ]; simpl;
    [ | split; constructor ].
  destruct (py_get feed "*elements" empty_list) as [ elements | ]; simpl;
    [ | split; constructor ].
  destruct (truthy elements); simpl; [ | split; constructor ].
  destruct (py_get activity_data "included" empty_list) as [ included | ]; simpl;
    [ | split; constructor ].
  destruct (truthy included); simpl; [ | split; constructor ].
  destruct (py_iter included) as [ entities | ]; simpl; [ | split; constructor ].
  destruct (build_post_lookup entities ∅) as [ m | ] eqn:Hm; simpl;
    [ | split; constructor ].
  destruct (py_iter elements) as [ refs | ]; simpl; [ | split; constructor ].
  destruct (extract_loop m included 1 refs []) as [ out | ] eqn:Hout; simpl;
    [ | split; constructor ].
  apply extract_loop_added in Hout as (new & -> & Hs & Hf).
  - simpl. split; [ exact Hs | ]. eapply Forall_impl; [ exact Hf | ].
    simpl. intros p (Hle & e & k & Hl & Hk). split; [ exact Hle | ].
    exists e, k. split; [ exact Hl | exact Hk ].
  - eapply build_post_lookup_keys; [ exact Hm | ].
    intros k item Hl. rewrite lookup_empty in Hl. discriminate.
Qed.

(** An entity is read without exception as soon as the objects the fields
    are taken from are objects, or are missing. *)
Lemma object_at_inv (v : json) (k : string) :
  object_at v k = true -> exists d, py_get v k empty_dict = Ok (JDict d).
Proof.
  unfold object_at. destruct (py_get v k empty_dict) as [ [ | | | | | d ] | ];
    try discriminate.
  intros _. exists d. reflexivity.
Qed.

Lemma py_get_dict (d : list (string * json)) (k : string) (default : json) :
  exists v, py_get (JDict d) k default = Ok v.
Proof. eexists. reflexivity. Qed.

Lemma assemble_post_total (item included : json) (idx : Z) :
  readable_entity item = true ->
  exists p, assemble_post item included idx = Ok p.
Proof.
  unfold readable_entity. intros H.
  destruct item as [ | | | | | d ]; try discriminate H.
  repeat (apply andb_prop in H as [ H ?Hobj ]).
  destruct (object_at_inv _ _ H) as (dm & Hmeta).
  destruct (object_at_inv _ _ Hobj3) as (dc & Hcomm).
  rewrite Hcomm in Hobj2. destruct (object_at_inv _ _ Hobj2) as (dt & Htext).
  destruct (object_at_inv _ _ Hobj1) as (ds & Hsocial).
  destruct (object_at_inv _ _ Hobj0) as (da & Hactor).
  rewrite Hactor in Hobj. destruct (object_at_inv _ _ Hobj) as (dn & Hnav).
  unfold assemble_post.
  destruct (py_get_dict d "entityUrn" empty_str) as (urn & ->). cbn [bind].
  rewrite Hmeta. cbn [bind].
  destruct (py_get_dict dm "backendUrn" empty_str) as (v1 & ->). cbn [bind].
  destruct (py_get_dict dm "shareUrn" empty_str) as (v2 & ->). cbn [bind].
  rewrite Hcomm. cbn [bind]. rewrite Htext. cbn [bind].
  destruct (py_get_dict dt "text" empty_str) as (v3 & ->). cbn [bind].
  rewrite Hsocial. cbn [bind].
  destruct (py_get_dict ds "shareUrl" empty_str) as (v4 & ->). cbn [bind].
  rewrite Hactor. cbn [bind].
  destruct (py_get_dict da "name" empty_dict) as (v5 & ->). cbn [bind].
  destruct (py_get_dict da "description" empty_dict) as (v6 & ->). cbn [bind].
  rewrite Hnav. cbn [bind].
  destruct (py_get_dict dn "actionTarget" empty_str) as (v7 & ->). cbn [bind].
  eexists. reflexivity.
Qed.

(** *** A page read by its structure *)

Lemma field_py_get (k : string) (v x default : json) :
  field k v = Some x -> py_get v k default = Ok x.
Proof.
  destruct v as [ | | | | | d ]; try discriminate. cbn [field py_get].
  intros ->. reflexivity.
Qed.

Lemma py_get_field (d : list (string * json)) (k : string) (dflt : json) :
  py_get (JDict d) k dflt = Ok (default dflt (field k (JDict d))).
Proof. cbn [py_get field]. destruct (dict_lookup k d); reflexivity. Qed.

Lemma bind_Some {A B : Type} (m : option A) (f : A -> option B) (b : B) :
  m ≫= f = Some b -> exists a, m = Some a /\ f a = Some b.
Proof. destruct m as [ a | ]; [ eauto | discriminate ]. Qed.

Lemma feed_object_feed_of (activity_data feed : json) :
  feed_object activity_data = Some feed -> feed_of activity_data = Ok feed.
Proof.
  unfold feed_object, feed_of. intros H.
  apply bind_Some in H as (inner & H & Hfeed).
  apply bind_Some in H as (data & Hdata & Hinner).
  rewrite (field_py_get _ _ _ _ Hdata). cbn [bind].
  rewrite (field_py_get _ _ _ _ Hinner). cbn [bind].
  apply field_py_get. exact Hfeed.
Qed.

(** The text and the URL the extraction reads from an entity it can read
    through. *)
Lemma readable_body_text (item : json) :
  readable_entity item = true ->
  body_text item = Ok (entity_text item) /\
  canonical_url item = Ok (entity_url item).
Proof.
  unfold readable_entity. intros H.
  destruct item as [ | | | | | d ]; try discriminate H.
  repeat (apply andb_prop in H as [ H ?Hobj ]).
  destruct (object_at_inv _ _ Hobj3) as (dc & Hcomm).
  rewrite Hcomm in Hobj2. destruct (object_at_inv _ _ Hobj2) as (dt & Htext).
  destruct (object_at_inv _ _ Hobj1) as (ds & Hsocial).
  unfold body_text, canonical_url, entity_text, entity_url.
  rewrite Hcomm, Hsocial. cbn [bind]. rewrite Htext. cbn [bind].
  rewrite py_get_field in Hcomm, Hsocial. rewrite !py_get_field.
  injection Hcomm as Hcomm. injection Hsocial as Hsocial.
  rewrite py_get_field in Htext. injection Htext as Htext.
  cbn [field] in *.
  split.
  - f_equal.
    destruct (dict_lookup "commentary" d) as [ c | ]; cbn in Hcomm |- *.
    + subst c. cbn [field].
      destruct (dict_lookup "text" dc) as [ t | ]; cbn in Htext |- *.
      * subst t. reflexivity.
      * injection Htext as <-. reflexivity.
    + injection Hcomm as <-. cbn in Htext.
      injection Htext as <-. reflexivity.
  - f_equal.
    destruct (dict_lookup "socialContent" d) as [ c | ]; cbn in Hsocial |- *.
    + subst c. reflexivity.
    + injection Hsocial as <-. reflexivity.
Qed.

Lemma entity_at_indexed (included : list json) (ref : string) (item : json) :
  entity_at included ref = Some item ->
  indexed_under (Some (inl ref)) item = true.
Proof.
  unfold entity_at. intros H. apply last_Some in H as (l' & Hl).
  assert (Hin : In item (List.filter (indexed_under (Some (inl ref))) included)).
  { rewrite Hl. apply in_or_app. right. left. reflexivity. }
  apply List.filter_In in Hin as [ _ Hidx ]. exact Hidx.
Qed.

(** The index of a page, entity by entity. *)
Lemma page_index_entity_at (included : list json) :
  Forall (fun item => well_formed_entity item = true) included ->
  exists m, build_post_lookup included ∅ = Ok m /\
    forall ref, m !! (Some (inl ref) : pykey) = entity_at included ref.
Proof.
  intros Hwf.
  destruct (IndexSpec.build_post_lookup_from included Hwf ∅) as (m & Hm & Hlook).
  exists m. split; [ exact Hm | ]. intros ref. rewrite Hlook, lookup_empty.
  unfold entity_at.
  destruct (last (List.filter (indexed_under (Some (inl ref))) included));
    reflexivity.
Qed.

Lemma references_readable_cons (included : list json) (ref : string)
    (refs : list string) :
  references_readable included (ref :: refs) ->
  references_readable included refs.
Proof. intros H r item Hr. apply H. right. exact Hr. Qed.

(** The loop over references that are strings, on a page whose referenced
    entities are readable. *)
Lemma extract_loop_expected (m : gmap pykey json) (included : list json)
    (inc : json) :
  (forall ref, m !! (Some (inl ref) : pykey) = entity_at included ref) ->
  forall refs idx posts,
  references_readable included refs ->
  exists new,
    extract_loop m inc idx (map JStr refs) posts = Ok (posts ++ new) /\
    Forall2 post_of new (expected_from included idx refs).
Proof.
  intros Hm. induction refs as [ | ref refs IH ]; intros idx posts Hread.
  - exists []. rewrite app_nil_r. split; [ reflexivity | constructor ].
  - cbn [map extract_loop hash_key bind expected_from]. rewrite Hm.
    pose proof (references_readable_cons _ _ _ Hread) as Hrest.
    destruct (entity_at included ref) as [ item | ] eqn:Hitem.
    + pose proof (entity_at_indexed _ _ _ Hitem) as Hidx.
      destruct (indexed_under_inv _ _ Hidx) as (Htruthy & urn & Hurn & Hkey).
      apply hash_key_sliceable_str in Hkey. subst urn.
      rewrite Htruthy. cbn [negb].
      assert (Hitem_readable : readable_entity item = true).
      { apply (Hread ref); [ left | exact Hitem ]. }
      destruct (assemble_post_total item inc idx Hitem_readable) as (p & Hp).
      rewrite Hp. cbn [bind].
      destruct (assemble_post_Ok _ _ _ _ Hp) as (Hord & Hid & Htext & Hurl).
      destruct (readable_body_text item Hitem_readable) as [ Htext' Hurl' ].
      assert (Hpt : post_text p = entity_text item) by congruence.
      assert (Hpu : post_url p = entity_url item) by congruence.
      assert (Hcontent : has_content p = has_text_or_url item).
      { unfold has_content, has_text_or_url. rewrite Hpt, Hpu. reflexivity. }
      rewrite Hcontent.
      destruct (has_text_or_url item).
      * destruct (IH (idx + 1) (posts ++ [p]) Hrest) as (new & Hloop & Hnew).
        exists (p :: new). rewrite Hloop, <- app_assoc.
        split; [ reflexivity | ]. cbn [app]. constructor; [ | exact Hnew ].
        unfold post_of. cbn [fst snd].
        repeat split; try assumption. congruence.
      * destruct (IH (idx + 1) posts Hrest) as (new & Hloop & Hnew).
        exists new. split; [ exact Hloop | exact Hnew ].
    + cbn [sliceable].
      destruct (IH (idx + 1) posts Hrest) as (new & Hloop & Hnew).
      exists new. split; [ exact Hloop | exact Hnew ].
Qed.

Lemma expected_from_no_entity (idx : Z) (refs : list string) :
  forall idx', idx' = idx -> expected_from [] idx' refs = [].
Proof.
  revert idx. induction refs as [ | ref refs IH ]; intros idx idx' ->.
  - reflexivity.
  - cbn [expected_from entity_at List.filter last app]. apply (IH (idx + 1)).
    reflexivity.
Qed.

(** The posts of a page whose references are strings and whose referenced
    entities are readable. *)
Lemma page_posts (activity_data : json) (refs : list string) (included : list json) :
  reference_list activity_data = Some (JList (map JStr refs)) ->
  entity_list activity_data = Some (JList included) ->
  Forall (fun item => well_formed_entity item = true) included ->
  references_readable included refs ->
  Forall2 post_of (extract_posts_from_response activity_data)
    (expected_from included 1 refs).
Proof.
  intros Hrefs Hincluded Hwf Hread.
  unfold reference_list in Hrefs. apply bind_Some in Hrefs as (feed & Hfeed & Helements).
  unfold extract_posts_from_response, extract_posts_body.
  rewrite (feed_object_feed_of _ _ Hfeed). cbn [bind].
  rewrite (field_py_get _ _ _ _ Helements). cbn [bind].
  destruct refs as [ | ref refs ]; [ constructor | ].
  cbn [map truthy negb].
  unfold entity_list in Hincluded. rewrite (field_py_get _ _ _ _ Hincluded). cbn [bind].
  destruct included as [ | entity included ].
  { cbn [truthy negb try_except].
    rewrite (expected_from_no_entity 1 (ref :: refs) 1 eq_refl). constructor. }
  cbn [truthy negb py_iter bind].
  destruct (page_index_entity_at (entity :: included) Hwf) as (m & Hm & Hlook).
  rewrite Hm. cbn [bind].
  destruct (extract_loop_expected m (entity :: included) (JList (entity :: included))
              Hlook (ref :: refs) 1 [] Hread) as (new & Hloop & Hnew).
  cbn [map] in Hloop. rewrite Hloop. cbn [try_except app]. exact Hnew.
Qed.

(** The places of a page where a post is expected. *)
Lemma expected_from_elem (included : list json) (refs : list string) :
  forall idx e,
  e ∈ expected_from included idx refs <->
  exists i : nat,
    refs !! i = Some (snd (fst e)) /\
    fst (fst e) = idx + Z.of_nat i /\
    entity_at included (snd (fst e)) = Some (snd e) /\
    has_text_or_url (snd e) = true.
Proof.
  induction refs as [ | ref refs IH ]; intros idx e.
  - cbn [expected_from]. split.
    + intros H. apply elem_of_nil in H. destruct H.
    + intros (i & Hi & _). rewrite lookup_nil in Hi. discriminate Hi.
  - cbn [expected_from]. rewrite elem_of_app, IH. split.
    + intros [ Hhead | (i & Hi & Hidx & Hitem & Hcontent) ].
      * destruct (entity_at included ref) as [ item | ] eqn:Hitem;
          [ | apply elem_of_nil in Hhead; destruct Hhead ].
        destruct (has_text_or_url item) eqn:Hcontent;
          [ | apply elem_of_nil in Hhead; destruct Hhead ].
        apply list_elem_of_singleton in Hhead. subst e. cbn [fst snd].
        exists 0%nat. repeat split; try assumption. cbn. lia.
      * exists (S i). repeat split; try assumption. lia.
    + intros (i & Hi & Hidx & Hitem & Hcontent).
      destruct i as [ | i ].
      * left. destruct e as [ [ n r ] item ]. cbn [fst snd] in *.
        cbn in Hi. injection Hi as ->. rewrite Hitem, Hcontent.
        apply list_elem_of_singleton. replace n with idx by lia. reflexivity.
      * right. exists i. repeat split; try assumption. lia.
Qed.

(** C1, as the code has it.  Whatever the page, the posts extracted from it
    come in the order of its reference list: their orders increase strictly,
    and each post stands at its order in the reference list and carries the
    identifier found there.  On a page whose references are strings and
    whose referenced entities are readable, the identifiers of the posts are,
    in the order of the reference list and each with its place in it, the
    references whose entity is in the index and has a text or a URL: a
    reference without entity in the index is passed over and the references
    after it are still resolved. *)
Theorem extraction_follows_reference_list :
  (forall activity_data : json,
      let out := extract_posts_from_response activity_data in
      StronglySorted Z.lt (map post_order out) /\
      Forall (at_ref (page_refs activity_data)) out) /\
  (forall (activity_data : json) (refs : list string) (included : list json),
      reference_list activity_data = Some (JList (map JStr refs)) ->
      entity_list activity_data = Some (JList included) ->
      Forall (fun item => well_formed_entity item = true) included ->
      references_readable included refs ->
      map (fun p => (post_order p, entity_urn p))
        (extract_posts_from_response activity_data) =
      map (fun e => (fst (fst e), JStr (snd (fst e))))
        (expected_from included 1 refs)).
Proof.
  split.
  - exact extracted_at_refs.
  - intros activity_data refs included Hrefs Hincluded Hwf Hread.
    pose proof (page_posts activity_data refs included Hrefs Hincluded Hwf Hread)
      as Hposts.
    induction Hposts as [ | p e out expected (Hord & Hid & _) _ IH ];
      [ reflexivity | ].
    cbn [map]. rewrite IH, Hord, Hid. reflexivity.
Qed.

(** C8, as the code has it.  On a page whose references are strings and
    whose referenced entities are readable, the posts are those of the
    referenced entities of the index that have a body text or a canonical
    URL that is not empty, one for each and in the order of the references:
    an entity with a text or a URL gives a post with its place, its
    identifier, its text and its URL, an entity with neither gives none, and
    in both cases the references that follow are resolved all the same. *)
Theorem post_emitted_iff_text_or_url (activity_data : json) (refs : list string)
    (included : list json) :
  reference_list activity_data = Some (JList (map JStr refs)) ->
  entity_list activity_data = Some (JList included) ->
  Forall (fun item => well_formed_entity item = true) included ->
  references_readable included refs ->
  let out := extract_posts_from_response activity_data in
  Forall2 post_of out (expected_from included 1 refs) /\
  forall (i : nat) (ref : string) (item : json),
    refs !! i = Some ref ->
    entity_at included ref = Some item ->
    (has_text_or_url item = true <->
     exists p, p ∈ out /\ post_order p = Z.of_nat i + 1 /\
       entity_urn p = JStr ref /\
       post_text p = entity_text item /\ post_url p = entity_url item).
Proof.
  intros Hrefs Hincluded Hwf Hread out. subst out.
  pose proof (page_posts activity_data refs included Hrefs Hincluded Hwf Hread)
    as Hposts.
  split; [ exact Hposts | ].
  intros i ref item Hi Hitem. split.
  - intros Hcontent.
    assert (Hin : (1 + Z.of_nat i, ref, item) ∈ expected_from included 1 refs).
    { apply expected_from_elem. exists i. cbn [fst snd]. auto. }
    apply list_elem_of_lookup in Hin as (j & Hj).
    destruct (Forall2_lookup_r _ _ _ _ _ Hposts Hj) as (p & Hp & Hord & Hid & Ht & Hu).
    exists p. cbn [fst snd] in *.
    split; [ eapply list_elem_of_lookup_2; exact Hp | ].
    repeat split; try assumption. lia.
  - intros (p & Hp & Hord & Hid & _).
    apply list_elem_of_lookup in Hp as (j & Hj).
    destruct (Forall2_lookup_l _ _ _ _ _ Hposts Hj) as (e & He & Hord' & Hid' & _).
    apply list_elem_of_lookup_2 in He.
    apply expected_from_elem in He as (i' & Hi' & Hidx & Hitem' & Hcontent).
    assert (i' = i) by lia. subst i'.
    assert (snd (fst e) = ref) by congruence.
    assert (snd e = item) by congruence.
    subst item. exact Hcontent.
Qed.

Lemma extraction_follows_reference_list_witness :
  let refs := ["urn:a"; "urn:missing"; "urn:b"] in
  (reference_list Examples.sample_page = Some (JList (map JStr refs)) /\
   entity_list Examples.sample_page = Some (JList Examples.sample_included) /\
   Forall (fun item => well_formed_entity item = true) Examples.sample_included /\
   references_readable Examples.sample_included refs) /\
  map (fun p => (post_order p, entity_urn p))
    (extract_posts_from_response Examples.sample_page) =
  map (fun e => (fst (fst e), JStr (snd (fst e))))
    (expected_from Examples.sample_included 1 refs).
Proof.
  intros refs.
  assert (Hwf : Forall (fun item => well_formed_entity item = true)
                  Examples.sample_included) by (repeat constructor).
  assert (Hread : references_readable Examples.sample_included refs).
  { intros ref item Href. subst refs.
    repeat (apply elem_of_cons in Href as [ -> | Href ];
            [ vm_compute; intros [= <-]; reflexivity
            || (vm_compute; discriminate) | ]).
    apply elem_of_nil in Href. destruct Href. }
  split; [ repeat split; try reflexivity; assumption | ].
  exact (proj2 extraction_follows_reference_list Examples.sample_page refs
           Examples.sample_included eq_refl eq_refl Hwf Hread).
Defined.

(** The sample page: the posts come out in the order of the references,
    which is not the order of the entities, and the unknown reference
    leaves a gap in the orders. *)
Example sample_page_posts :
  map (fun p => (post_order p, entity_urn p))
    (extract_posts_from_response Examples.sample_page) =
  [(1, JStr "urn:a"); (3, JStr "urn:b")].
Proof. vm_compute. reflexivity. Qed.

(** A reference without entity that is not a string is not passed over:
    the page with the references [5] and [urn:a] yields nothing, where the
    page with the references [urn:missing] and [urn:a] yields the post of
    [urn:a]. *)
Lemma unmatched_reference_aborts_page :
  let included := [Examples.update "urn:a" "some text" ""] in
  extract_posts_from_response
    (Examples.page_of [JNum 5; JStr "urn:a"] included) = [] /\
  map (fun p => (post_order p, entity_urn p))
    (extract_posts_from_response
       (Examples.page_of [JStr "urn:missing"; JStr "urn:a"] included)) =
  [(2, JStr "urn:a")].
Proof. split; vm_compute; reflexivity. Qed.

Lemma post_emitted_iff_text_or_url_witness :
  let refs := ["urn:a"; "urn:c"; "urn:b"] in
  let page := Examples.page_of (map JStr refs) Examples.sample_included in
  let out := extract_posts_from_response page in
  Forall2 post_of out (expected_from Examples.sample_included 1 refs) /\
  forall (i : nat) (ref : string) (item : json),
    refs !! i = Some ref ->
    entity_at Examples.sample_included ref = Some item ->
    (has_text_or_url item = true <->
     exists p, p ∈ out /\ post_order p = Z.of_nat i + 1 /\
       entity_urn p = JStr ref /\
       post_text p = entity_text item /\ post_url p = entity_url item).
Proof.
  intros refs page.
  assert (Hwf : Forall (fun item => well_formed_entity item = true)
                  Examples.sample_included) by (repeat constructor).
  assert (Hread : references_readable Examples.sample_included refs).
  { intros ref item Href. subst refs.
    repeat (apply elem_of_cons in Href as [ -> | Href ];
            [ vm_compute; intros [= <-]; reflexivity
            || (vm_compute; discriminate) | ]).
    apply elem_of_nil in Href. destruct Href. }
  exact (post_emitted_iff_text_or_url page refs Examples.sample_included
           eq_refl eq_refl Hwf Hread).
Defined.

(** The entity without text and without URL gives no post, and the
    reference after it gives its own. *)
Example skipped_entity_posts :
  map (fun p => (post_order p, entity_urn p))
    (extract_posts_from_response
       (Examples.page_of [JStr "urn:a"; JStr "urn:c"; JStr "urn:b"]
          Examples.sample_included)) =
  [(1, JStr "urn:a"); (3, JStr "urn:b")].
Proof. vm_compute. reflexivity. Qed.

(** An entity with a text is not emitted when another referenced entity
    cannot be read: the page yields nothing. *)
Lemma readable_post_lost_with_page :
  let good := Examples.update "urn:a" "some text" "" in
  let included := [good; More.null_commentary "urn:bad"] in
  entity_at included "urn:a" = Some good /\
  has_text_or_url good = true /\
  extract_posts_from_response
    (Examples.page_of [JStr "urn:a"; JStr "urn:bad"] included) = [].
Proof. repeat split; vm_compute; reflexivity. Qed.

End ExtractSpec.

(** ** Global numbering *)

Module NumberingSpec.
Import Py Fetcher Spec PyFacts.

Lemma sorted_length_bound (a b : Z) (l : list Z) :
  StronglySorted Z.lt l -> Forall (fun x => a <= x < b) l ->
  Z.of_nat (length l) <= Z.max 0 (b - a).
Proof.
  intros Hs. revert a. induction Hs as [ | x l Hs IH Hx ]; intros a Hb.
  - simpl. lia.
  - apply Forall_cons in Hb as [ Hxb Hb ].
    assert (Hl : Forall (fun y => x + 1 <= y < b) l).
    { apply Forall_forall. intros y Hy.
      rewrite Forall_forall in Hx, Hb.
      specialize (Hx y Hy). specialize (Hb y Hy). lia. }
    specialize (IH (x + 1) Hl). simpl length. lia.
Qed.

(** A strictly increasing list of [n] integers taken from [a .. a+n-1] is
    that interval. *)
Lemma sorted_full_interval (l : list Z) :
  StronglySorted Z.lt l ->
  forall a, Forall (fun x => a <= x < a + Z.of_nat (length l)) l ->
  l = seqZ a (Z.of_nat (length l)).
Proof.
  induction 1 as [ | x l Hs IH Hx ]; intros a Hb.
  - reflexivity.
  - apply Forall_cons in Hb as [ Hxb Hb ]. simpl length in *.
    assert (Hl : Forall (fun y => x + 1 <= y < a + Z.of_nat (S (length l))) l).
    { apply Forall_forall. intros y Hy.
      rewrite Forall_forall in Hx, Hb.
      specialize (Hx y Hy). specialize (Hb y Hy). lia. }
    pose proof (sorted_length_bound _ _ _ Hs Hl) as Hlen.
    assert (x = a) by lia. subst x.
    rewrite (seqZ_cons a) by lia. f_equal.
    replace (Z.pred (Z.of_nat (S (length l)))) with (Z.of_nat (length l)) by lia.
    replace (Z.succ a) with (a + 1) by lia.
    apply IH. eapply Forall_impl; [ exact Hl | ]. simpl. intros y Hy. lia.
Qed.

Lemma at_ref_bound (refs : list json) (p : post_info) :
  at_ref refs p -> 1 <= post_order p < 1 + Z.of_nat (length refs).
Proof.
  intros (Hle & e & k & Hl & _). apply lookup_lt_Some in Hl. lia.
Qed.

(** A full page numbers its posts from one to the page size. *)
Lemma full_page_orders (count : nat) (activity_data : json) :
  full_page count activity_data ->
  map post_order (extract_posts_from_response activity_data) =
  seqZ 1 (Z.of_nat count).
Proof.
  intros [ Hrefs Hlen ].
  destruct (ExtractSpec.extracted_at_refs activity_data) as [ Hs Hf ].
  rewrite <- Hlen, <- (length_map post_order).
  apply sorted_full_interval; [ exact Hs | ].
  apply Forall_map. eapply Forall_impl; [ exact Hf | ]. simpl.
  intros p Hp. apply at_ref_bound in Hp. rewrite length_map. lia.
Qed.

(** *** The start of a range, read back from its name *)

Lemma before_dash_uint (d : Decimal.uint) (rest : string) :
  before_dash (NilEmpty.string_of_uint d +:+ String "-" rest) =
  NilEmpty.string_of_uint d.
Proof. induction d; simpl; rewrite ?IHd; reflexivity. Qed.

Lemma to_int_nonneg (n : Z) :
  0 <= n -> exists d, Z.to_int n = Decimal.Pos d /\ d <> Decimal.Nil.
Proof.
  destruct n as [ | p | p ]; intros Hn; [ | | lia ].
  - exists Decimal.zero. split; [ reflexivity | discriminate ].
  - exists (Pos.to_uint p). split; [ reflexivity | ].
    apply DecimalPos.Unsigned.to_uint_nonnil.
Qed.

Lemma range_start_read (range_start range_end : Z) :
  py_int (before_dash (range_str (range_start, range_end))) =
  if range_start <? 0 then Raise else Ok range_start.
Proof.
  unfold range_str, string_of_Z. cbn [fst snd].
  destruct (Z.ltb_spec range_start 0) as [ Hneg | Hpos ].
  - destruct range_start as [ | p | p ]; try lia. reflexivity.
  - destruct (to_int_nonneg range_start Hpos) as (d & Hd & Hnil).
    pose proof (DecimalZ.of_to range_start) as Hback.
    rewrite Hd in *.
    change ("-" +:+ ?x) with (String "-"%char x).
    assert (Hname : NilZero.string_of_int (Decimal.Pos d) =
                    NilEmpty.string_of_uint d).
    { destruct d; try reflexivity. congruence. }
    rewrite Hname, before_dash_uint, <- Hname. unfold py_int.
    rewrite NilZero.isi by (intros [= ->]; congruence).
    rewrite Hback. reflexivity.
Qed.

Section Numbering.
Variable env : collaborators.

Lemma save_posts_kept (range_start : Z) (posts : list post_info) :
  forall all_posts_data,
  save_posts env range_start posts all_posts_data =
  all_posts_data ++
    kept env (map (fun p => set_post_order (range_start + post_order p) p) posts).
Proof.
  unfold kept. induction posts as [ | p rest IH ]; intros all_posts_data.
  - simpl. symmetry. apply app_nil_r.
  - cbn [save_posts map List.filter set_post_order post_order].
    destruct (save_individual_post env _ _).
    + rewrite IH, <- app_assoc. reflexivity.
    + apply IH.
Qed.

Lemma kept_saved (posts : list post_info) :
  posts_saved env -> kept env posts = posts.
Proof.
  intros Hsaved. unfold kept. induction posts as [ | p rest IH ].
  - reflexivity.
  - cbn [List.filter]. rewrite Hsaved, IH. reflexivity.
Qed.

Lemma kept_app (l1 l2 : list post_info) :
  kept env (l1 ++ l2) = kept env l1 ++ kept env l2.
Proof. unfold kept. apply List.filter_app. Qed.

Lemma save_posts_saved (range_start : Z) (posts : list post_info) :
  posts_saved env ->
  forall all_posts_data,
  save_posts env range_start posts all_posts_data =
  all_posts_data ++
    map (fun p => set_post_order (range_start + post_order p) p) posts.
Proof.
  intros Hsaved all_posts_data.
  rewrite save_posts_kept, (kept_saved _ Hsaved). reflexivity.
Qed.

Lemma save_posts_origin (range_start : Z) (posts : list post_info) :
  forall all_posts_data q,
  q ∈ save_posts env range_start posts all_posts_data ->
  q ∈ all_posts_data \/
  exists p, p ∈ posts /\ q = set_post_order (range_start + post_order p) p.
Proof.
  induction posts as [ | p rest IH ]; intros all_posts_data q Hq.
  - left. exact Hq.
  - simpl in Hq.
    destruct (save_individual_post env _ _); apply IH in Hq as [ Hq | (p' & Hp' & ->) ].
    + apply elem_of_app in Hq as [ Hq | Hq ]; [ left; exact Hq | ].
      apply list_elem_of_singleton in Hq. right. exists p.
      split; [ left | exact Hq ].
    + right. exists p'. split; [ right; exact Hp' | reflexivity ].
    + left. exact Hq.
    + right. exists p'. split; [ right; exact Hp' | reflexivity ].
Qed.

(** A page without posts is passed over, which is what the inner loop does
    on an empty list. *)
Lemma process_files_cons (range_start range_end : Z) (activity_data : json)
    (rest : list range_file) (all_posts_data : list post_info) :
  0 <= range_start ->
  process_files env (((range_start, range_end), activity_data) :: rest) all_posts_data =
  process_files env rest
    (save_posts env range_start (extract_posts_from_response activity_data)
       all_posts_data).
Proof.
  intros Hstart. cbn [process_files]. rewrite range_start_read.
  destruct (Z.ltb_spec range_start 0); [ lia | ]. cbn [bind].
  destruct (extract_posts_from_response activity_data); reflexivity.
Qed.

(** The name of a range that starts below zero begins with a minus sign:
    nothing stands before the first dash and the loop is left. *)
Lemma process_files_negative (range_start range_end : Z) (activity_data : json)
    (rest : list range_file) (all_posts_data : list post_info) :
  range_start < 0 ->
  process_files env (((range_start, range_end), activity_data) :: rest) all_posts_data =
  Raise.
Proof.
  intros Hstart. cbn [process_files]. rewrite range_start_read.
  destruct (Z.ltb_spec range_start 0); [ reflexivity | lia ].
Qed.

Lemma process_files_origin (files : list range_file) :
  forall all_posts_data out q,
  process_files env files all_posts_data = Ok out ->
  q ∈ out ->
  q ∈ all_posts_data \/
  exists range_start range_end activity_data p,
    ((range_start, range_end), activity_data) ∈ files /\
    p ∈ extract_posts_from_response activity_data /\
    q = set_post_order (range_start + post_order p) p.
Proof.
  induction files as [ | [ [ range_start range_end ] activity_data ] rest IH ];
    intros all_posts_data out q Hout Hq.
  - left. injection Hout as <-. exact Hq.
  - destruct (Z.lt_ge_cases range_start 0) as [ Hneg | Hpos ].
    { rewrite process_files_negative in Hout by exact Hneg. discriminate Hout. }
    rewrite process_files_cons in Hout by exact Hpos.
    destruct (IH _ _ q Hout Hq) as [ Hq' | (s & e & d & p & Hin & Hp & ->) ].
    + apply save_posts_origin in Hq' as [ Hq' | (p & Hp & ->) ]; [ left; exact Hq' | ].
      right. exists range_start, range_end, activity_data, p.
      split; [ left | split; [ exact Hp | reflexivity ] ].
    + right. exists s, e, d, p. split; [ right; exact Hin | ].
      split; [ exact Hp | reflexivity ].
Qed.

(** The loop over files whose ranges start at zero or above: the posts of
    the pages, renumbered, those whose file is written. *)
Lemma process_files_kept (files : list range_file) :
  Forall (fun f => 0 <= fst (fst f)) files ->
  forall all_posts_data,
  process_files env files all_posts_data =
  Ok (all_posts_data ++ kept env (posts_of_files files)).
Proof.
  induction 1 as [ | [ [ range_start range_end ] activity_data ] rest Hstart _ IH ];
    intros all_posts_data.
  - cbn. rewrite app_nil_r. reflexivity.
  - cbn [fst] in Hstart. rewrite process_files_cons by exact Hstart.
    rewrite IH, save_posts_kept, <- app_assoc, <- kept_app. reflexivity.
Qed.

Lemma process_files_raises (files : list range_file) :
  Exists (fun f => fst (fst f) < 0) files ->
  forall all_posts_data, process_files env files all_posts_data = Raise.
Proof.
  induction files as [ | [ [ range_start range_end ] activity_data ] rest IH ];
    intros Hneg all_posts_data.
  - apply Exists_nil in Hneg. destruct Hneg.
  - destruct (Z.lt_ge_cases range_start 0) as [ Hlt | Hge ].
    + apply process_files_negative. exact Hlt.
    + rewrite process_files_cons by exact Hge. apply IH.
      apply Exists_cons in Hneg as [ Hneg | Hneg ]; [ cbn in Hneg; lia | exact Hneg ].
Qed.

(** C5, as the code has it.  A post kept by [process_posts_from_files]
    comes from a post of one of the pages and is numbered by the start of
    the range of that page plus the order of the post in the page, which is
    the place of its reference in the reference list of the page.  When the
    three ranges 0-20, 20-40 and 40-60 hold pages of at most twenty
    references that yield twenty posts each and every post file is written,
    the numbers are 1 to 60 in this order. *)
Theorem global_post_numbers :
  (forall (files : list range_file) (q : post_info),
      q ∈ snd (process_posts_from_files env files) ->
      exists range_start range_end activity_data p,
        ((range_start, range_end), activity_data) ∈ files /\
        p ∈ extract_posts_from_response activity_data /\
        at_ref (page_refs activity_data) p /\
        q = set_post_order (range_start + post_order p) p /\
        post_order q = range_start + post_order p) /\
  (forall d1 d2 d3 : json,
      posts_saved env ->
      full_page 20 d1 -> full_page 20 d2 -> full_page 20 d3 ->
      map post_order
        (snd (process_posts_from_files env
                [((0, 20), d1); ((20, 40), d2); ((40, 60), d3)])) =
      seqZ 1 60).
Proof.
  split.
  - intros files q Hq. unfold process_posts_from_files in Hq.
    destruct (process_files env files []) as [ out | ] eqn:Hout; cbn [snd] in Hq;
      [ | apply elem_of_nil in Hq; destruct Hq ].
    destruct (process_files_origin _ _ _ _ Hout Hq)
      as [ Hq' | (s & e & d & p & Hin & Hp & ->) ].
    + apply elem_of_nil in Hq'. destruct Hq'.
    + exists s, e, d, p. split; [ exact Hin | ]. split; [ exact Hp | ].
      split; [ | split; reflexivity ].
      destruct (ExtractSpec.extracted_at_refs d) as [ _ Hf ].
      rewrite Forall_forall in Hf. apply Hf. exact Hp.
  - intros d1 d2 d3 Hsaved H1 H2 H3.
    apply full_page_orders in H1, H2, H3.
    unfold process_posts_from_files.
    rewrite !process_files_cons by lia. cbn [process_files snd].
    rewrite !save_posts_saved by exact Hsaved.
    rewrite !map_app, !map_map. cbn [app set_post_order post_order].
    rewrite <- !(map_map post_order (fun n => _ + n)), H1, H2, H3.
    vm_compute. reflexivity.
Qed.

End Numbering.

Lemma global_post_numbers_witness :
  let env := Examples.session_with (fun _ _ _ => None) in
  let d1 := Examples.numbered_page "urn:a" 20 in
  let d2 := Examples.numbered_page "urn:b" 20 in
  let d3 := Examples.numbered_page "urn:c" 20 in
  posts_saved env /\
  (full_page 20 d1 /\ full_page 20 d2 /\ full_page 20 d3) /\
  map post_order
    (snd (process_posts_from_files env
            [((0, 20), d1); ((20, 40), d2); ((40, 60), d3)])) =
  seqZ 1 60.
Proof.
  intros env d1 d2 d3.
  assert (Hsaved : posts_saved env) by (intros p n; reflexivity).
  assert (H1 : full_page 20 d1)
    by (split; [ apply Nat.leb_le | ]; vm_compute; reflexivity).
  assert (H2 : full_page 20 d2)
    by (split; [ apply Nat.leb_le | ]; vm_compute; reflexivity).
  assert (H3 : full_page 20 d3)
    by (split; [ apply Nat.leb_le | ]; vm_compute; reflexivity).
  split; [ exact Hsaved | ]. split; [ auto | ].
  exact (proj2 (global_post_numbers env) d1 d2 d3 Hsaved H1 H2 H3).
Defined.

(** The second page starts at 21: a page of three posts saved for the
    range 20-40. *)
Example second_range_numbers :
  map post_order
    (snd (process_posts_from_files (Examples.session_with (fun _ _ _ => None))
            [((20, 40), Examples.numbered_page "urn:b" 3)])) =
  [21; 22; 23].
Proof. vm_compute. reflexivity. Qed.

(** Three ranges that yield twenty posts each are not numbered 1 to 60
    when the first page holds one reference more, which no entity answers:
    its first post is numbered 2, not 1, and the number 21 is given
    twice. *)
Lemma twenty_posts_each_not_one_to_sixty :
  let env := Examples.session_with (fun _ _ _ => None) in
  let d1 := Examples.led_page "urn:a" 20 in
  let d2 := Examples.numbered_page "urn:b" 20 in
  let d3 := Examples.numbered_page "urn:c" 20 in
  let numbers :=
    map post_order
      (snd (process_posts_from_files env
              [((0, 20), d1); ((20, 40), d2); ((40, 60), d3)])) in
  map (fun d => length (extract_posts_from_response d)) [d1; d2; d3] =
    [20%nat; 20%nat; 20%nat] /\
  numbers = seqZ 2 20 ++ seqZ 21 20 ++ seqZ 41 20 /\
  numbers <> seqZ 1 60.
Proof.
  intros env d1 d2 d3 numbers.
  assert (Hnumbers : numbers = seqZ 2 20 ++ seqZ 21 20 ++ seqZ 41 20)
    by (vm_compute; reflexivity).
  split; [ vm_compute; reflexivity | ]. split; [ exact Hnumbers | ].
  rewrite Hnumbers. vm_compute. discriminate.
Qed.

End NumberingSpec.

(** ** Image resolution *)

Module ImageSpec.
Import Py Fetcher Spec PyFacts.

Lemma py_gt_int (a b : json) (x y : Z) :
  as_int a = Some x -> as_int b = Some y -> py_gt a b = Ok (y <? x).
Proof.
  destruct a; simpl; intros Ha Hb; try discriminate;
    rewrite Hb; injection Ha as <-; reflexivity.
Qed.

Lemma artifact_width_key (a : json) (w : Z) :
  artifact_width a = Some w ->
  exists k, py_get a "width" (JNum 0) = Ok k /\ as_int k = Some w.
Proof.
  unfold artifact_width. destruct (py_get a "width" (JNum 0)) as [ k | ];
    [ | discriminate ].
  intros H. exists k. split; [ reflexivity | exact H ].
Qed.

Lemma first_widest_snoc_keep (pre : list json) (i : nat) (best x : json) (w wx : Z) :
  first_widest pre i best w -> artifact_width x = Some wx -> wx <= w ->
  first_widest (pre ++ [x]) i best w.
Proof.
  intros (Hi & Hw & Hmax & Hfirst) Hx Hle.
  pose proof (lookup_lt_Some _ _ _ Hi) as Hlt.
  split; [ rewrite lookup_app_l by exact Hlt; exact Hi | ].
  split; [ exact Hw | ]. split.
  - intros j a wa Hj Ha.
    destruct (decide (j < length pre)%nat) as [ Hjl | Hjl ].
    + rewrite lookup_app_l in Hj by exact Hjl. eapply Hmax; eassumption.
    + rewrite lookup_app_r in Hj by lia.
      destruct (j - length pre)%nat; [ | discriminate Hj ].
      injection Hj as <-. congruence.
  - intros j a wa Hji Hj Ha.
    rewrite lookup_app_l in Hj by lia. eapply Hfirst; eassumption.
Qed.

Lemma first_widest_snoc_new (pre : list json) (i : nat) (best x : json) (w wx : Z) :
  first_widest pre i best w -> artifact_width x = Some wx -> w < wx ->
  first_widest (pre ++ [x]) (length pre) x wx.
Proof.
  intros (Hi & Hw & Hmax & Hfirst) Hx Hlt.
  split; [ rewrite lookup_app_r, Nat.sub_diag by lia; reflexivity | ].
  split; [ exact Hx | ]. split.
  - intros j a wa Hj Ha.
    destruct (decide (j < length pre)%nat) as [ Hjl | Hjl ].
    + rewrite lookup_app_l in Hj by exact Hjl.
      specialize (Hmax j a wa Hj Ha). lia.
    + rewrite lookup_app_r in Hj by lia.
      destruct (j - length pre)%nat; [ | discriminate Hj ].
      injection Hj as <-. assert (wa = wx) by congruence. lia.
  - intros j a wa Hjl Hj Ha.
    rewrite lookup_app_l in Hj by exact Hjl.
    specialize (Hmax j a wa Hj Ha). lia.
Qed.

(** The running maximum stays the first widest artifact of what has been
    read. *)
Lemma max_width_from_first_widest (rest : list json) :
  Forall (fun a => is_Some (artifact_width a)) rest ->
  forall pre i best best_key w,
  first_widest pre i best w -> as_int best_key = Some w ->
  exists i' best' w',
    max_width_from best best_key rest = Ok best' /\
    first_widest (pre ++ rest) i' best' w'.
Proof.
  induction 1 as [ | x rest [ wx Hx ] _ IH ]; intros pre i best best_key w Hbest Hkey.
  - exists i, best, w. rewrite app_nil_r. split; [ reflexivity | exact Hbest ].
  - destruct (artifact_width_key x wx Hx) as (k & Hk & Hkx).
    cbn [max_width_from]. rewrite Hk. cbn [bind].
    rewrite (py_gt_int k best_key wx w Hkx Hkey). cbn [bind].
    replace (pre ++ x :: rest) with ((pre ++ [x]) ++ rest)
      by (rewrite <- app_assoc; reflexivity).
    destruct (w <? wx) eqn:Hcmp.
    + apply Z.ltb_lt in Hcmp. eapply IH; [ | exact Hkx ].
      eapply first_widest_snoc_new; eassumption.
    + apply Z.ltb_ge in Hcmp. eapply IH; [ | exact Hkey ].
      eapply first_widest_snoc_keep; eassumption.
Qed.

Lemma max_width_first_widest (artifacts : list json) :
  artifacts <> [] ->
  Forall (fun a => is_Some (artifact_width a)) artifacts ->
  exists i best w,
    max_width (JList artifacts) = Ok best /\ first_widest artifacts i best w.
Proof.
  destruct artifacts as [ | x rest ]; [ congruence | ]. intros _ Hall.
  apply Forall_cons in Hall as [ [ wx Hx ] Hrest ].
  destruct (artifact_width_key x wx Hx) as (k & Hk & Hkx).
  unfold max_width. cbn [py_iter bind]. rewrite Hk. cbn [bind].
  apply (max_width_from_first_widest rest Hrest [x] 0%nat x k wx); [ | exact Hkx ].
  split; [ reflexivity | ]. split; [ exact Hx | ]. split.
  - intros [ | j ] a wa Hj Ha; [ | destruct j; discriminate Hj ].
    injection Hj as <-. assert (wa = wx) by congruence. lia.
  - intros j a wa Hj. lia.
Qed.

Lemma py_index0_truthy (v x : json) : py_index0 v = Ok x -> truthy v = true.
Proof.
  destruct v as [ | | | s | l | ]; simpl; try discriminate.
  - destruct s; [ discriminate | reflexivity ].
  - destruct l; [ discriminate | reflexivity ].
Qed.

(** The characters of a text: one for each code point, each holding the
    bytes of its own. *)
Example characters_of_text :
  characters (String.append More.eight_wide_characters "ab") =
  repeat (string_of_list_ascii (map ascii_of_nat [230; 151; 165]%nat)) 8 ++
  ["a"; "b"]%string.
Proof. vm_compute. reflexivity. Qed.

Lemma truthy_str (s : string) : truthy (JStr s) = negb (String.eqb s "").
Proof. reflexivity. Qed.

(** C6.  An image element with a base URL that is not empty and a list of
    artifacts that is not empty, each with a numeric width and a path
    segment: the artifact chosen is the first one of the largest width, and
    the image resolves to the base URL followed by the segment of that
    artifact, or to nothing when this segment is empty.  A post with this
    one image has this one URL. *)
Theorem image_url_from_first_widest (image vi : json) (root : string)
    (arts : list json) :
  vector_image_of image = Ok vi ->
  py_get vi "rootUrl" empty_str = Ok (JStr root) ->
  root <> "" ->
  py_get vi "artifacts" empty_list = Ok (JList arts) ->
  arts <> [] ->
  Forall well_formed_artifact arts ->
  exists i best w seg,
    first_widest arts i best w /\
    py_get best "fileIdentifyingUrlPathSegment" empty_str = Ok (JStr seg) /\
    image_url image =
      Ok (if String.eqb seg "" then None else Some (JStr (root +:+ seg))) /\
    forall item,
      images_of item = Ok (JList [image]) ->
      extract_image_urls item =
        if String.eqb seg "" then [] else [JStr (root +:+ seg)].
Proof.
  intros Hvi Hroot Hne Harts Hnil Hwf.
  destruct (max_width_first_widest arts Hnil) as (i & best & w & Hmax & Hbest).
  { eapply Forall_impl; [ exact Hwf | ]. intros a [ Ha _ ]. exact Ha. }
  assert (Hin : well_formed_artifact best).
  { rewrite Forall_forall in Hwf. apply Hwf.
    destruct Hbest as (Hi & _). eapply list_elem_of_lookup_2. exact Hi. }
  destruct Hin as (_ & seg & Hseg).
  assert (Himage : image_url image =
            Ok (if String.eqb seg "" then None else Some (JStr (root +:+ seg)))).
  { unfold vector_image_of in Hvi. repeat bind_inv Hvi.
    unfold image_url. rewrite Hv. cbn [bind].
    rewrite (py_index0_truthy _ _ Hv0). cbn [negb]. rewrite Hv0. cbn [bind].
    rewrite Hv1. cbn [bind]. rewrite Hvi. cbn [bind].
    rewrite Hroot, Harts. cbn [bind]. rewrite truthy_str.
    apply String.eqb_neq in Hne. rewrite Hne.
    assert (Ht : truthy (JList arts) = true) by (destruct arts; [ congruence | reflexivity ]).
    rewrite Ht. cbn [negb orb]. rewrite Hmax. cbn [bind]. rewrite Hseg. cbn [bind].
    rewrite truthy_str. destruct (String.eqb seg ""); reflexivity. }
  exists i, best, w, seg. split; [ exact Hbest | ]. split; [ exact Hseg | ].
  split; [ exact Himage | ].
  intros item Hitem. unfold images_of in Hitem. repeat bind_inv Hitem.
  unfold extract_image_urls. rewrite Hv. cbn [bind]. rewrite Hv0. cbn [bind].
  rewrite Hitem. cbn [bind truthy negb py_iter try_except image_urls_loop].
  rewrite Himage. destruct (String.eqb seg ""); reflexivity.
Qed.

Lemma image_url_from_first_widest_witness :
  let image := Examples.image_of "https://media.example/" Examples.three_sizes in
  exists i best w seg,
    first_widest Examples.three_sizes i best w /\
    py_get best "fileIdentifyingUrlPathSegment" empty_str = Ok (JStr seg) /\
    image_url image =
      Ok (if String.eqb seg "" then None
          else Some (JStr ("https://media.example/" +:+ seg))) /\
    forall item,
      images_of item = Ok (JList [image]) ->
      extract_image_urls item =
        if String.eqb seg "" then []
        else [JStr ("https://media.example/" +:+ seg)].
Proof.
  intros image.
  refine (image_url_from_first_widest image _ "https://media.example/"
            Examples.three_sizes eq_refl eq_refl _ eq_refl _ _).
  - discriminate.
  - discriminate.
  - repeat constructor; eexists; reflexivity.
Defined.

(** Widths 320, 640 and 720: the URL is built on the artifact of width
    720, wherever it stands in the list, and on the first of two artifacts
    of the same width. *)
Example three_sizes_url :
  extract_image_urls
    (Examples.post_with_images
       [Examples.image_of "https://media.example/" Examples.three_sizes]) =
  [JStr "https://media.example/large.jpg"].
Proof. vm_compute. reflexivity. Qed.

Example widest_first_url :
  extract_image_urls
    (Examples.post_with_images
       [Examples.image_of "https://media.example/"
          [Examples.artifact 720 "a.jpg"; Examples.artifact 320 "b.jpg";
           Examples.artifact 720 "c.jpg"]]) =
  [JStr "https://media.example/a.jpg"].
Proof. vm_compute. reflexivity. Qed.

End ImageSpec.

(** ** Video resolution *)

Module VideoSpec.
Import Py Fetcher Spec PyFacts.

Lemma scan_streams_usable (streams : list json) :
  forall acc us,
  usable_streams streams = Ok us ->
  scan_streams streams acc = Ok (scan_usable us acc).
Proof.
  induction streams as [ | stream rest IH ]; intros acc us H.
  - simpl in H. injection H as <-. reflexivity.
  - simpl in H. bind_inv H. bind_inv H. injection H as <-.
    cbn [scan_streams]. rewrite Hv. cbn [bind].
    destruct v as [ [ [ w h ] url ] | ]; [ | apply IH; exact Hv0 ].
    cbn [scan_usable fold_left fst snd]. apply IH. exact Hv0.
Qed.

Lemma stream_url_truthy (stream : json) (t : json * json * json) :
  stream_url stream = Ok (Some t) -> truthy (snd t) = true.
Proof.
  unfold stream_url.
  destruct (py_get stream "width" (JNum 0)) as [ w | ]; [ | discriminate ].
  destruct (py_get stream "height" (JNum 0)) as [ h | ]; [ | discriminate ].
  destruct (py_get stream "streamingLocations" empty_list) as [ sl | ];
    [ | discriminate ].
  cbn [bind]. destruct (truthy sl); [ | discriminate ]. cbn [negb].
  destruct (py_index0 sl) as [ loc | ]; [ | discriminate ]. cbn [bind].
  destruct (py_get loc "url" empty_str) as [ url | ]; [ | discriminate ].
  cbn [bind]. destruct (truthy url) eqn:Hurl; [ | discriminate ].
  cbn [negb]. intros H. injection H as <-. exact Hurl.
Qed.

Lemma usable_streams_truthy (streams : list json) :
  forall us, usable_streams streams = Ok us ->
  Forall (fun t => truthy (snd t) = true) us.
Proof.
  induction streams as [ | stream rest IH ]; intros us H.
  - simpl in H. injection H as <-. constructor.
  - simpl in H. bind_inv H. bind_inv H. injection H as <-.
    destruct v as [ t | ]; [ | apply IH; exact Hv0 ].
    constructor; [ | apply IH; exact Hv0 ].
    eapply stream_url_truthy. exact Hv.
Qed.

Lemma scan_usable_640_none (us : list (json * json * json)) :
  forall acc, existsb (stream_has 640) us = false ->
  url_640p (scan_usable us acc) = url_640p acc.
Proof.
  induction us as [ | t us IH ]; intros acc H; [ reflexivity | ].
  simpl in H. apply orb_false_elim in H as [ Ht Hus ].
  cbn [scan_usable fold_left]. fold (scan_usable us). rewrite IH by exact Hus.
  unfold stream_has in Ht. cbn [scan_step url_640p]. rewrite Ht. reflexivity.
Qed.

Lemma scan_usable_720_none (us : list (json * json * json)) :
  forall acc, existsb (stream_has 720) us = false ->
  url_720p (scan_usable us acc) = url_720p acc.
Proof.
  induction us as [ | t us IH ]; intros acc H; [ reflexivity | ].
  simpl in H. apply orb_false_elim in H as [ Ht Hus ].
  cbn [scan_usable fold_left]. fold (scan_usable us). rewrite IH by exact Hus.
  unfold stream_has in Ht. cbn [scan_step url_720p]. rewrite Ht. reflexivity.
Qed.

Lemma scan_usable_640_some (us : list (json * json * json)) :
  forall acc, existsb (stream_has 640) us = true ->
  exists t, t ∈ us /\ stream_has 640 t = true /\
    url_640p (scan_usable us acc) = snd t.
Proof.
  induction us as [ | t us IH ]; intros acc H; [ discriminate H | ].
  cbn [scan_usable fold_left]. fold (scan_usable us).
  destruct (existsb (stream_has 640) us) eqn:Hus.
  - destruct (IH (scan_step acc (fst (fst t)) (snd (fst t)) (snd t)) eq_refl)
      as (t' & Hin & Ht' & Hurl).
    exists t'. split; [ right; exact Hin | ]. split; [ exact Ht' | exact Hurl ].
  - simpl in H. rewrite Hus, orb_false_r in H.
    exists t. split; [ left | ]. split; [ exact H | ].
    rewrite scan_usable_640_none by exact Hus.
    unfold stream_has in H. cbn [scan_step url_640p]. rewrite H. reflexivity.
Qed.

Lemma scan_usable_720_some (us : list (json * json * json)) :
  forall acc, existsb (stream_has 720) us = true ->
  exists t, t ∈ us /\ stream_has 720 t = true /\
    url_720p (scan_usable us acc) = snd t.
Proof.
  induction us as [ | t us IH ]; intros acc H; [ discriminate H | ].
  cbn [scan_usable fold_left]. fold (scan_usable us).
  destruct (existsb (stream_has 720) us) eqn:Hus.
  - destruct (IH (scan_step acc (fst (fst t)) (snd (fst t)) (snd t)) eq_refl)
      as (t' & Hin & Ht' & Hurl).
    exists t'. split; [ right; exact Hin | ]. split; [ exact Ht' | exact Hurl ].
  - simpl in H. rewrite Hus, orb_false_r in H.
    exists t. split; [ left | ]. split; [ exact H | ].
    rewrite scan_usable_720_none by exact Hus.
    unfold stream_has in H. cbn [scan_step url_720p]. rewrite H. reflexivity.
Qed.

Lemma scan_usable_fallback (us : list (json * json * json)) :
  Forall (fun t => truthy (snd t) = true) us ->
  forall acc,
  url_fallback (scan_usable us acc) =
  if truthy (url_fallback acc) then url_fallback acc
  else match us with
       | [] => url_fallback acc
       | t :: _ => snd t
       end.
Proof.
  induction 1 as [ | t us Ht _ IH ]; intros acc.
  - simpl. destruct (truthy (url_fallback acc)); reflexivity.
  - cbn [scan_usable fold_left]. fold (scan_usable us). rewrite IH.
    cbn [scan_step url_fallback].
    destruct (truthy (url_fallback acc)) eqn:Hfb; cbn [negb].
    + rewrite Hfb. reflexivity.
    + rewrite Ht. reflexivity.
Qed.

Lemma find_video_metadata_truthy (video_ref : json) (entities : list json)
    (video_metadata : json) :
  truthy video_ref = true ->
  find_video_metadata video_ref entities = Ok (Some video_metadata) ->
  truthy video_metadata = true.
Proof.
  intros Href. induction entities as [ | inc_item rest IH ]; intros H.
  - discriminate H.
  - simpl in H. bind_inv H. rename v into urn.
    destruct (py_eq urn video_ref) eqn:Heq; [ | apply IH; exact H ].
    injection H as <-.
    destruct inc_item as [ | | | | | d ]; try discriminate Hv.
    destruct d as [ | kv d ]; [ | reflexivity ].
    simpl in Hv. injection Hv as <-.
    destruct video_ref; simpl in Heq, Href; congruence.
Qed.

(** *** The lookup and the streams, read by their structure *)

Lemma video_reference_read (item video_ref : json) :
  video_reference item = Some video_ref -> video_ref_of item = Ok video_ref.
Proof.
  unfold video_reference, video_ref_of. intros H.
  apply ExtractSpec.bind_Some in H as (component & H & Href).
  apply ExtractSpec.bind_Some in H as (content & Hcontent & Hcomponent).
  rewrite (ExtractSpec.field_py_get _ _ _ _ Hcontent). cbn [bind].
  rewrite (ExtractSpec.field_py_get _ _ _ _ Hcomponent). cbn [bind].
  apply ExtractSpec.field_py_get. exact Href.
Qed.

Lemma py_eq_str (v : json) (ref : string) :
  py_eq v (JStr ref) =
  match v with JStr urn => String.eqb urn ref | _ => false end.
Proof. destruct v as [ | b | n | s | l | d ]; reflexivity. Qed.

(** The lookup by reference finds the first entity that has the
    reference as its identifier. *)
Lemma find_video_metadata_at (included : list json) (ref : string) :
  Forall (fun entity => is_dict entity = true) included ->
  find_video_metadata (JStr ref) included = Ok (metadata_at included ref).
Proof.
  unfold metadata_at. induction 1 as [ | entity rest Hentity _ IH ].
  - reflexivity.
  - destruct entity as [ | | | | | d ]; try discriminate Hentity.
    cbn [find_video_metadata List.find py_get bind]. rewrite py_eq_str.
    unfold has_urn. cbn [field]. rewrite IH.
    destruct (dict_lookup "entityUrn" d) as [ [ | b | n | urn | l | d' ] | ];
      try reflexivity.
    destruct (String.eqb urn ref); reflexivity.
Qed.

Lemma metadata_at_in (included : list json) (ref : string) (video_metadata : json) :
  metadata_at included ref = Some video_metadata ->
  In video_metadata included /\ has_urn ref video_metadata = true.
Proof. unfold metadata_at. intros H. apply List.find_some in H. exact H. Qed.

Lemma stream_url_entry (stream : json) :
  well_formed_stream stream = true ->
  stream_url stream = Ok (stream_entry stream).
Proof.
  destruct stream as [ | | | | | d ]; try discriminate.
  unfold well_formed_stream, stream_url, stream_entry. cbn [field py_get bind].
  destruct (dict_lookup "streamingLocations" d) as [ locations | ];
    [ | reflexivity ].
  destruct locations as [ | [ | ] | n | s | [ | location rest ] | [ | kv d' ] ];
    cbn [truthy negb]; try reflexivity; try discriminate.
  - destruct (n =? 0); [ reflexivity | discriminate ].
  - destruct (String.eqb s ""); [ reflexivity | discriminate ].
  - destruct location as [ | | | | | dl ]; try discriminate. intros _.
    cbn [py_index0 bind py_get field].
    destruct (dict_lookup "url" dl) as [ url | ]; [ | reflexivity ].
    destruct (truthy url); reflexivity.
Qed.

Lemma usable_streams_with_url (streams : list json) :
  Forall (fun stream => well_formed_stream stream = true) streams ->
  usable_streams streams = Ok (streams_with_url streams).
Proof.
  unfold streams_with_url. induction 1 as [ | stream rest Hstream _ IH ].
  - reflexivity.
  - cbn [usable_streams omap list_omap]. rewrite (stream_url_entry _ Hstream), IH.
    cbn [bind]. destruct (stream_entry stream); reflexivity.
Qed.

(** The function, once the reference has been read. *)
Lemma extract_video_url_found (item included video_ref : json)
    (entities : list json) :
  video_ref_of item = Ok video_ref ->
  truthy video_ref = true ->
  py_iter included = Ok entities ->
  extract_video_url item included true =
  try_except
    (found <- find_video_metadata video_ref entities ;;
     match found with
     | None => Ok empty_str
     | Some video_metadata =>
         progressive_streams <-
           py_get video_metadata "progressiveStreams" empty_list ;;
         if negb (truthy progressive_streams) then Ok empty_str
         else
           streams <- py_iter progressive_streams ;;
           acc <- scan_streams streams no_video_urls ;;
           Ok (pick_video_url true acc)
     end)
    empty_str.
Proof.
  intros Href Htruthy Hentities.
  unfold video_ref_of in Href. repeat bind_inv Href.
  unfold extract_video_url. rewrite Hv. cbn [bind]. rewrite Hv0. cbn [bind].
  rewrite Href. cbn [bind]. rewrite Htruthy. cbn [negb].
  rewrite Hentities. cbn [bind].
  destruct (find_video_metadata video_ref entities) as [ [ meta | ] | ] eqn:Hfind;
    try reflexivity.
  cbn [bind]. rewrite (find_video_metadata_truthy _ _ _ Htruthy Hfind).
  reflexivity.
Qed.

(** The choice among the streams that have a URL. *)
Lemma pick_among_usable (us : list (json * json * json)) :
  Forall (fun t => truthy (snd t) = true) us ->
  let url := pick_video_url true (scan_usable us no_video_urls) in
  (existsb (stream_has 640) us = true ->
   exists t, t ∈ us /\ stream_has 640 t = true /\ url = snd t) /\
  (existsb (stream_has 640) us = false ->
   existsb (stream_has 720) us = true ->
   exists t, t ∈ us /\ stream_has 720 t = true /\ url = snd t) /\
  (existsb (stream_has 640) us = false ->
   existsb (stream_has 720) us = false ->
   url = match us with
         | [] => empty_str
         | t :: _ => snd t
         end).
Proof.
  intros Hurls. cbn [pick_video_url]. unfold py_or. split; [ | split ].
  - intros H640.
    destruct (scan_usable_640_some us no_video_urls H640) as (t & Hin & Ht & Hurl).
    exists t. split; [ exact Hin | ]. split; [ exact Ht | ].
    rewrite Hurl. rewrite Forall_forall in Hurls. rewrite (Hurls t Hin).
    reflexivity.
  - intros H640 H720.
    rewrite (scan_usable_640_none us no_video_urls H640).
    destruct (scan_usable_720_some us no_video_urls H720) as (t & Hin & Ht & Hurl).
    exists t. split; [ exact Hin | ]. split; [ exact Ht | ].
    rewrite Hurl. rewrite Forall_forall in Hurls. rewrite (Hurls t Hin).
    reflexivity.
  - intros H640 H720.
    rewrite (scan_usable_640_none us no_video_urls H640).
    rewrite (scan_usable_720_none us no_video_urls H720).
    rewrite (scan_usable_fallback us Hurls). destruct us; reflexivity.
Qed.

Section Resolution.
Variables (item : json) (included : list json) (ref : string).
Hypothesis Href : video_reference item = Some (JStr ref).
Hypothesis Hnonempty : ref <> "".
Hypothesis Hentities : Forall (fun entity => is_dict entity = true) included.

(** C7, as the code has it.  With 640 preferred, for a post that refers to
    its playback metadata by a string [ref] that is not empty and a list of
    entities that are objects, the metadata being the first entity whose
    identifier is [ref]: when there is no such entity, or it has no stream
    list or an empty one, the result is the empty string; when its stream
    list holds stream objects whose streaming locations, if any, begin with
    an object, then among the streams that have a URL, in their order, the
    result is the URL of a stream of width or height 640 when there is one,
    else the URL of a stream of width or height 720 when there is one, else
    the URL of the first stream, and the empty string when no stream has a
    URL. *)
Theorem video_url_preference :
  let url := extract_video_url item (JList included) true in
  (metadata_at included ref = None -> url = empty_str) /\
  (forall video_metadata,
      metadata_at included ref = Some video_metadata ->
      (field "progressiveStreams" video_metadata = None \/
       field "progressiveStreams" video_metadata = Some (JList []) ->
       url = empty_str) /\
      (forall streams,
          field "progressiveStreams" video_metadata = Some (JList streams) ->
          Forall (fun stream => well_formed_stream stream = true) streams ->
          let us := streams_with_url streams in
          (existsb (stream_has 640) us = true ->
           exists t, t ∈ us /\ stream_has 640 t = true /\ url = snd t) /\
          (existsb (stream_has 640) us = false ->
           existsb (stream_has 720) us = true ->
           exists t, t ∈ us /\ stream_has 720 t = true /\ url = snd t) /\
          (existsb (stream_has 640) us = false ->
           existsb (stream_has 720) us = false ->
           url = match us with
                 | [] => empty_str
                 | t :: _ => snd t
                 end))).
Proof.
  assert (Htruthy : truthy (JStr ref) = true).
  { cbn [truthy]. destruct (String.eqb_spec ref ""); [ contradiction | reflexivity ]. }
  cbn zeta.
  rewrite (extract_video_url_found item (JList included) (JStr ref) included
             (video_reference_read _ _ Href) Htruthy eq_refl).
  rewrite (find_video_metadata_at included ref Hentities). cbn [bind].
  split.
  - intros ->. reflexivity.
  - intros video_metadata Hmeta. rewrite Hmeta.
    apply metadata_at_in in Hmeta as [ Hin _ ].
    rewrite Forall_forall in Hentities. apply list_elem_of_In in Hin.
    specialize (Hentities video_metadata Hin).
    destruct video_metadata as [ | | | | | d ]; try discriminate Hentities.
    rewrite ExtractSpec.py_get_field. cbn [bind]. split.
    + intros [ -> | -> ]; reflexivity.
    + intros streams -> Hstreams. cbn [default from_option id py_iter].
      destruct streams as [ | stream rest ].
      { cbn. split; [ discriminate | ]. split; [ discriminate | reflexivity ]. }
      cbn [truthy negb bind].
      pose proof (usable_streams_with_url _ Hstreams) as Hus.
      rewrite (scan_streams_usable _ no_video_urls _ Hus).
      cbn [bind try_except].
      apply pick_among_usable. eapply usable_streams_truthy. exact Hus.
Qed.

End Resolution.

Lemma video_url_preference_witness :
  let item := Examples.post_with_video "urn:meta" in
  let streams := [Examples.s360; Examples.s640; Examples.s720] in
  let included :=
    [Examples.update "urn:other" "text" ""; Examples.play_metadata "urn:meta" streams] in
  (video_reference item = Some (JStr "urn:meta") /\
   "urn:meta" <> "" /\
   Forall (fun entity => is_dict entity = true) included /\
   metadata_at included "urn:meta" = Some (Examples.play_metadata "urn:meta" streams) /\
   Forall (fun stream => well_formed_stream stream = true) streams /\
   existsb (stream_has 640) (streams_with_url streams) = true) /\
  exists t, t ∈ streams_with_url streams /\ stream_has 640 t = true /\
    extract_video_url item (JList included) true = snd t.
Proof.
  intros item streams included.
  assert (Hnonempty : "urn:meta" <> "") by discriminate.
  assert (Hentities : Forall (fun entity => is_dict entity = true) included)
    by (repeat constructor).
  assert (Hstreams : Forall (fun stream => well_formed_stream stream = true) streams)
    by (repeat constructor).
  split; [ repeat split; try reflexivity; assumption | ].
  pose proof (video_url_preference item included "urn:meta" eq_refl Hnonempty
                Hentities) as [ _ H ].
  destruct (H (Examples.play_metadata "urn:meta" streams) eq_refl) as [ _ H' ].
  exact (proj1 (H' streams eq_refl Hstreams) eq_refl).
Defined.

(** Widths 360, 640 and 720 give the stream of width 640; without it, the
    stream of width 720; without both, the first stream that is left; and
    a reference that no entity carries gives nothing. *)
Example video_prefers_640 :
  extract_video_url (Examples.post_with_video "urn:meta")
    (Examples.video_included [Examples.s360; Examples.s640; Examples.s720]) true =
  JStr "https://v.example/640.mp4".
Proof. vm_compute. reflexivity. Qed.

Example video_falls_back_to_720 :
  extract_video_url (Examples.post_with_video "urn:meta")
    (Examples.video_included [Examples.s360; Examples.s720]) true =
  JStr "https://v.example/720.mp4".
Proof. vm_compute. reflexivity. Qed.

Example video_falls_back_to_first :
  extract_video_url (Examples.post_with_video "urn:meta")
    (Examples.video_included [Examples.s360; Examples.s1080]) true =
  JStr "https://v.example/360.mp4".
Proof. vm_compute. reflexivity. Qed.

Example video_metadata_absent :
  extract_video_url (Examples.post_with_video "urn:elsewhere")
    (Examples.video_included [Examples.s360; Examples.s640]) true =
  JStr "".
Proof. vm_compute. reflexivity. Qed.

(** A stream list that holds something that is not an object gives
    nothing, whatever the other streams: the stream of width 640 has a URL
    and the result is the empty string. *)
Lemma unreadable_stream_hides_640 :
  let streams := [Examples.s640; JNull] in
  (exists t, t ∈ streams_with_url streams /\ stream_has 640 t = true /\
     snd t = JStr "https://v.example/640.mp4") /\
  extract_video_url (Examples.post_with_video "urn:meta")
    (Examples.video_included streams) true =
  JStr "".
Proof.
  intros streams. split; [ | vm_compute; reflexivity ].
  eexists. split; [ left | split; reflexivity ].
Qed.

End VideoSpec.

(** ** Pagination *)

Module PaginationSpec.
Import Py Fetcher Spec PyFacts.

(** The loop of [parse_ranges] stops on its own test: turns beyond the
    distance to the target change nothing. *)
Lemma ranges_from_enough (fuel : nat) :
  forall extra current_start target_end,
  (Z.to_nat (target_end - current_start) <= fuel)%nat ->
  ranges_from (fuel + extra) current_start target_end 20 =
  ranges_from fuel current_start target_end 20.
Proof.
  induction fuel as [ | fuel IH ]; intros extra current_start target_end Hfuel.
  - destruct extra as [ | extra ]; [ reflexivity | ]. simpl.
    destruct (current_start <? target_end) eqn:Hlt; [ | reflexivity ].
    apply Z.ltb_lt in Hlt. lia.
  - simpl. destruct (current_start <? target_end) eqn:Hlt; [ | reflexivity ].
    apply Z.ltb_lt in Hlt. f_equal. apply IH.
    destruct (target_end <? current_start + 20) eqn:Hend.
    + lia.
    + apply Z.ltb_ge in Hend. lia.
Qed.

Example parse_ranges_60 : parse_ranges 60 = [(0, 20); (20, 40); (40, 60)].
Proof. reflexivity. Qed.

Example parse_ranges_45 : parse_ranges 45 = [(0, 20); (20, 40); (40, 45)].
Proof. reflexivity. Qed.

Lemma extract_pagination_token_truthy (activity_data token : json) :
  extract_pagination_token activity_data = Some token -> truthy token = true.
Proof.
  unfold extract_pagination_token.
  destruct (feed_of activity_data) as [ feed | ]; [ | discriminate ]. cbn [bind].
  destruct (py_get feed "metadata" empty_dict) as [ metadata | ]; [ | discriminate ].
  cbn [bind].
  destruct (py_get metadata "paginationToken" JNull) as [ t | ]; [ | discriminate ].
  cbn [bind]. destruct (truthy t) eqn:Ht; [ | discriminate ].
  destruct (sliceable t); [ | discriminate ].
  simpl. intros H. injection H as <-. exact Ht.
Qed.

(** The token the loop reads from a response is the continuation token of
    the response, when it is not empty and can be printed. *)
Lemma extract_pagination_token_read (activity_data : json) :
  extract_pagination_token activity_data =
  continuation_token activity_data ≫=
    (fun token => if truthy token && sliceable token then Some token else None).
Proof.
  unfold extract_pagination_token, continuation_token, feed_object, feed_of.
  destruct activity_data as [ | | | | | d ]; try reflexivity.
  cbn [py_get field bind mbind option_bind].
  destruct (dict_lookup "data" d) as [ d1 | ]; [ | reflexivity ].
  destruct d1 as [ | | | | | d1 ]; try reflexivity.
  cbn [py_get field bind mbind option_bind].
  destruct (dict_lookup "data" d1) as [ d2 | ]; [ | reflexivity ].
  destruct d2 as [ | | | | | d2 ]; try reflexivity.
  cbn [py_get field bind mbind option_bind].
  destruct (dict_lookup FEED_KEY d2) as [ feed | ]; [ | reflexivity ].
  destruct feed as [ | | | | | feed ]; try reflexivity.
  cbn [py_get field bind mbind option_bind].
  destruct (dict_lookup "metadata" feed) as [ metadata | ]; [ | reflexivity ].
  destruct metadata as [ | | | | | metadata ]; try reflexivity.
  cbn [py_get field bind mbind option_bind].
  destruct (dict_lookup "paginationToken" metadata) as [ token | ];
    [ | reflexivity ].
  cbn [mbind option_bind]. destruct (truthy token), (sliceable token); reflexivity.
Qed.

Lemma lacks_token_read (activity_data : json) :
  lacks_token activity_data -> extract_pagination_token activity_data = None.
Proof.
  unfold lacks_token. rewrite extract_pagination_token_read.
  destruct (continuation_token activity_data) as [ token | ]; [ | reflexivity ].
  intros Hempty. cbn [mbind option_bind]. rewrite Hempty. reflexivity.
Qed.

Lemma continuation_token_read (activity_data : json) (token : string) :
  continuation_token activity_data = Some (JStr token) ->
  token <> "" ->
  extract_pagination_token activity_data = Some (JStr token).
Proof.
  intros Htoken Hnonempty. rewrite extract_pagination_token_read, Htoken.
  cbn. destruct (String.eqb_spec token ""); [ contradiction | reflexivity ].
Qed.

(** The ranges of a target above twenty, and of a target of three ranges. *)
Lemma parse_ranges_several (target_end : Z) :
  20 < target_end ->
  exists r2 rest, parse_ranges target_end = (0, 20) :: r2 :: rest.
Proof.
  intros Htarget. unfold parse_ranges.
  destruct (Z.to_nat target_end) as [ | [ | fuel ] ] eqn:Hfuel; try lia.
  cbn [ranges_from].
  destruct (Z.ltb_spec 0 target_end); [ | lia ].
  destruct (Z.ltb_spec target_end (0 + 20)); [ lia | ].
  destruct (Z.ltb_spec (0 + 20) target_end); [ | lia ].
  eexists _, _. reflexivity.
Qed.

Lemma parse_ranges_three (target_end : Z) :
  40 < target_end <= 60 ->
  parse_ranges target_end = [(0, 20); (20, 40); (40, target_end)].
Proof.
  intros Htarget. unfold parse_ranges.
  destruct (Z.to_nat target_end) as [ | [ | [ | [ | fuel ] ] ] ] eqn:Hfuel; try lia.
  cbn [ranges_from].
  destruct (Z.ltb_spec 0 target_end); [ | lia ].
  destruct (Z.ltb_spec target_end (0 + 20)); [ lia | ].
  destruct (Z.ltb_spec (0 + 20) target_end); [ | lia ].
  destruct (Z.ltb_spec target_end (0 + 20 + 20)); [ lia | ].
  destruct (Z.ltb_spec (0 + 20 + 20) target_end); [ | lia ].
  assert (Hlast : (if target_end <? 0 + 20 + 20 + 20 then target_end
                   else 0 + 20 + 20 + 20) = target_end).
  { destruct (Z.ltb_spec target_end (0 + 20 + 20 + 20)); lia. }
  rewrite !Hlast, Z.ltb_irrefl. reflexivity.
Qed.

Section Run.
Variable env : collaborators.
Variables (target_username profile_urn : string) (target_range : Z).
Hypothesis Hquiet : uninterrupted env.
Hypothesis Hlogin : login_to_linkedin env = true.
Hypothesis Husername : target_username <> "".
Hypothesis Hprofile : extract_profile_urn env target_username = Some profile_urn.
Hypothesis Hurn : profile_urn <> "".

Lemma loop_raises_uninterrupted (n_ranges : Z) (ranges : list (Z * Z)) :
  forall idx pagination_token,
  loop_raises env profile_urn n_ranges idx ranges pagination_token = None.
Proof.
  induction ranges as [ | [ start end_ ] rest IH ]; intros idx pagination_token.
  - reflexivity.
  - cbn [loop_raises]. rewrite !Hquiet.
    destruct (negb (idx =? 1) && no_token pagination_token); [ reflexivity | ].
    destruct (fetch_profile_activity env _ _ _ _) as [ activity_data | ];
      [ | reflexivity ].
    destruct (negb (truthy activity_data)); [ reflexivity | ].
    destruct (no_token _ && (idx <? n_ranges)); [ reflexivity | ].
    apply IH.
Qed.

(** Past the login and the profile, a run that nothing interrupts is its
    loop over the ranges followed by the extraction of the posts. *)
Lemma run_scrape_ranges (r : Z * Z) (rest : list (Z * Z)) :
  parse_ranges (Z.abs target_range) = r :: rest ->
  run_scrape env target_username target_range =
  let files :=
    fetch_ranges env profile_urn (Z.of_nat (length (r :: rest))) 1 (r :: rest) None [] in
  Returns
    {| success := true;
       session_dir :=
         Some {| saved_files := files;
                 all_posts_data := snd (process_posts_from_files env files) |};
       error := None |}.
Proof.
  intros Hranges. unfold run_scrape, run_scrape_caught, run_scrape_body.
  rewrite !Hquiet. cbn [after].
  rewrite Hlogin. cbn [negb].
  apply String.eqb_neq in Husername. rewrite Husername.
  rewrite Hprofile. apply String.eqb_neq in Hurn. rewrite Hurn.
  rewrite Hranges, loop_raises_uninterrupted. cbn [after].
  destruct (snd (process_posts_from_files env _)); reflexivity.
Qed.

(** The posts of one range file that starts at zero. *)
Lemma posts_of_first_file (end_ : Z) (activity_data : json) :
  snd (process_posts_from_files env [((0, end_), activity_data)]) =
  kept env (renumbered 0 activity_data).
Proof.
  unfold process_posts_from_files.
  rewrite (NumberingSpec.process_files_kept env) by (repeat constructor; cbn; lia).
  cbn [snd app posts_of_files flat_map fst]. rewrite app_nil_r. reflexivity.
Qed.

(** C4, as the code has it.  In a run of several ranges that nothing
    interrupts, when the first response is fetched, holds no continuation
    token and its range file is written, no other range is fetched: the run
    keeps this one page, returns the posts of the page whose own file is
    written, numbered from one, and reports success without an error. *)
Theorem first_page_without_token_succeeds (activity_data : json) :
  20 < Z.abs target_range ->
  fetch_profile_activity env profile_urn 20 0 None = Some activity_data ->
  truthy activity_data = true ->
  lacks_token activity_data ->
  save_activity_data env 1 (0, 20) activity_data = true ->
  exists result,
    run_scrape env target_username target_range = Returns result /\
    success result = true /\
    error result = None /\
    exists s, session_dir result = Some s /\
      saved_files s = [((0, 20), activity_data)] /\
      length (saved_files s) = 1%nat /\
      all_posts_data s = kept env (renumbered 0 activity_data).
Proof.
  intros Hseveral Hfetch Hdata Htoken Hsave.
  destruct (parse_ranges_several _ Hseveral) as (r2 & rest & Hranges).
  rewrite (run_scrape_ranges _ _ Hranges).
  assert (Hfiles :
    fetch_ranges env profile_urn (Z.of_nat (length ((0, 20) :: r2 :: rest))) 1
      ((0, 20) :: r2 :: rest) None [] = [((0, 20), activity_data)]).
  { cbn [fetch_ranges]. cbn [Z.eqb Pos.eqb negb andb].
    change (20 - 0) with 20.
    rewrite Hfetch, Hdata. cbn [negb]. rewrite Hsave, (lacks_token_read _ Htoken).
    cbn [no_token andb app].
    replace (1 <? Z.of_nat (length ((0, 20) :: r2 :: rest))) with true
      by (symmetry; apply Z.ltb_lt; simpl length; lia).
    reflexivity. }
  cbv zeta. rewrite Hfiles. eexists. split; [ reflexivity | ].
  cbn [success error session_dir].
  split; [ reflexivity | ]. split; [ reflexivity | ].
  eexists. split; [ reflexivity | ]. cbn [saved_files all_posts_data].
  split; [ reflexivity | ]. split; [ reflexivity | ].
  apply posts_of_first_file.
Qed.

(** C3, as the code has it.  In a run of three ranges that nothing
    interrupts, when the first response is fetched, holds a continuation
    token and its range file is written, and the second request returns no
    body, the third range is not fetched: the run keeps the first page,
    returns the posts of that page whose own file is written, numbered from
    one, and reports success, without an error. *)
Theorem second_page_failure_keeps_first_page (activity_data : json)
    (token : string) :
  40 < Z.abs target_range <= 60 ->
  fetch_profile_activity env profile_urn 20 0 None = Some activity_data ->
  truthy activity_data = true ->
  continuation_token activity_data = Some (JStr token) ->
  token <> "" ->
  save_activity_data env 1 (0, 20) activity_data = true ->
  fetch_profile_activity env profile_urn 20 20 (Some (JStr token)) = None ->
  exists result,
    run_scrape env target_username target_range = Returns result /\
    success result = true /\
    error result = None /\
    exists s, session_dir result = Some s /\
      saved_files s = [((0, 20), activity_data)] /\
      all_posts_data s = kept env (renumbered 0 activity_data).
Proof.
  intros Hthree Hfetch Hdata Htoken Hnonempty Hsave Hfail.
  pose proof (parse_ranges_three _ Hthree) as Hranges.
  rewrite (run_scrape_ranges _ _ Hranges).
  pose proof (continuation_token_read _ _ Htoken Hnonempty) as Hread.
  assert (Hfiles :
    fetch_ranges env profile_urn
      (Z.of_nat (length [(0, 20); (20, 40); (40, Z.abs target_range)])) 1
      [(0, 20); (20, 40); (40, Z.abs target_range)] None [] =
    [((0, 20), activity_data)]).
  { cbn [fetch_ranges]. cbn [Z.eqb Pos.eqb negb andb].
    change (20 - 0) with 20. change (40 - 20) with 20.
    rewrite Hfetch, Hdata. cbn [negb]. rewrite Hsave, Hread.
    cbn [no_token app]. rewrite (extract_pagination_token_truthy _ _ Hread).
    change (1 + 1 =? 1) with false. cbn [negb andb].
    rewrite Hfail. reflexivity. }
  cbv zeta. rewrite Hfiles. eexists. split; [ reflexivity | ].
  cbn [success error session_dir].
  split; [ reflexivity | ]. split; [ reflexivity | ].
  eexists. split; [ reflexivity | ]. cbn [saved_files all_posts_data].
  split; [ reflexivity | ]. apply posts_of_first_file.
Qed.

End Run.

Lemma first_page_without_token_succeeds_witness :
  let page := Examples.numbered_page "urn:a" 2 in
  let env := Examples.session_with (Examples.first_page_only page) in
  (uninterrupted env /\ 20 < Z.abs 60 /\
   fetch_profile_activity env "urn:li:fsd_profile:X" 20 0 None = Some page /\
   truthy page = true /\ lacks_token page /\
   save_activity_data env 1 (0, 20) page = true) /\
  exists result,
    run_scrape env "someone" 60 = Returns result /\
    success result = true /\
    error result = None /\
    exists s, session_dir result = Some s /\
      saved_files s = [((0, 20), page)] /\
      length (saved_files s) = 1%nat /\
      all_posts_data s = kept env (renumbered 0 page).
Proof.
  intros page env.
  assert (Hquiet : uninterrupted env) by (intros s; reflexivity).
  assert (Hseveral : 20 < Z.abs 60) by (cbn; lia).
  assert (Htoken : lacks_token page) by exact I.
  split; [ repeat split; try reflexivity; assumption | ].
  refine (first_page_without_token_succeeds env "someone" "urn:li:fsd_profile:X" 60
            Hquiet eq_refl _ eq_refl _ page Hseveral eq_refl eq_refl Htoken eq_refl);
    discriminate.
Defined.

Lemma second_page_failure_keeps_first_page_witness :
  let page := Examples.numbered_page_with_token "urn:a" 2 "token-1" in
  let env := Examples.session_with (Examples.first_page_only page) in
  (uninterrupted env /\ 40 < Z.abs 60 <= 60 /\
   fetch_profile_activity env "urn:li:fsd_profile:X" 20 0 None = Some page /\
   truthy page = true /\
   continuation_token page = Some (JStr "token-1") /\
   save_activity_data env 1 (0, 20) page = true /\
   fetch_profile_activity env "urn:li:fsd_profile:X" 20 20 (Some (JStr "token-1")) =
     None) /\
  exists result,
    run_scrape env "someone" 60 = Returns result /\
    success result = true /\
    error result = None /\
    exists s, session_dir result = Some s /\
      saved_files s = [((0, 20), page)] /\
      all_posts_data s = kept env (renumbered 0 page).
Proof.
  intros page env.
  assert (Hquiet : uninterrupted env) by (intros s; reflexivity).
  assert (Hthree : 40 < Z.abs 60 <= 60) by (cbn; lia).
  split; [ repeat split; try reflexivity; try assumption; cbn; lia | ].
  refine (second_page_failure_keeps_first_page env "someone" "urn:li:fsd_profile:X" 60
            Hquiet eq_refl _ eq_refl _ page "token-1" Hthree eq_refl eq_refl eq_refl _
            eq_refl eq_refl); discriminate.
Defined.

(** A run of three ranges whose second request returns no body does not
    report a failure: it returns [True] and no error, with the two posts of
    the first page numbered 1 and 2. *)
Lemma second_page_failure_reports_success :
  let page := Examples.numbered_page_with_token "urn:a" 2 "token-1" in
  let env := Examples.session_with (Examples.first_page_only page) in
  fetch_profile_activity env "urn:li:fsd_profile:X" 20 20 (Some (JStr "token-1")) = None /\
  exists result,
    run_scrape env "someone" 60 = Returns result /\
    success result <> false /\
    error result = None /\
    option_map (fun s => map post_order (all_posts_data s)) (session_dir result) =
      Some [1; 2].
Proof.
  intros page env. split; [ reflexivity | ].
  eexists. split; [ vm_compute; reflexivity | ].
  split; [ discriminate | ]. split; reflexivity.
Qed.

(** A first response without token does not make a run of one page when
    its range file cannot be written: the run reports success with no page
    and no post.  And it does not make a success when the run is
    interrupted afterwards, during the extraction of the posts: the run
    reports a failure. *)
Lemma first_page_without_token_lost :
  let page := Examples.numbered_page "urn:a" 2 in
  let fetch := Examples.first_page_only page in
  (fetch 20 0 None = Some page /\ continuation_token page = None) /\
  run_scrape (Examples.session_without_files fetch) "someone" 60 =
    Returns {| success := true;
               session_dir := Some {| saved_files := []; all_posts_data := [] |};
               error := None |} /\
  run_scrape (Examples.interrupted_at ProcessPosts fetch) "someone" 60 =
    Returns (failed "Process interrupted by user").
Proof.
  intros page fetch. repeat split; vm_compute; reflexivity.
Qed.

End PaginationSpec.

(** ** Identity and de-duplication in the parser *)

Module ParserSpec.
Import Py Parser PyFacts.

Section Enhanced.
Variable py_str : json -> string.
Variable py_hash : Z -> string -> Z.
Variable hash_secret : Z.
Variable MediaInfo : Type.
Variable extract_media : json -> result (list MediaInfo).

Local Abbreviation PostInfo := (PostInfo MediaInfo).
Local Abbreviation parse_state := (parse_state MediaInfo).
Local Abbreviation post_id := (post_id MediaInfo).
Local Abbreviation extract_id := (_extract_post_id py_str py_hash hash_secret).
Local Abbreviation node_id := (node_id py_str py_hash hash_secret).
Local Abbreviation visit := (visit py_str py_hash hash_secret MediaInfo extract_media).
Local Abbreviation search :=
  (_search_for_posts_recursive_enhanced py_str py_hash hash_secret MediaInfo extract_media).
Local Abbreviation parse := (parse_posts_enhanced py_str py_hash hash_secret MediaInfo extract_media).

Local Abbreviation visit_all := (visit_all py_str py_hash hash_secret MediaInfo extract_media).

(** *** The traversal as a loop over the dictionaries *)

Lemma visit_all_app (l1 l2 : list json) (st : parse_state) :
  visit_all (l1 ++ l2) st = visit_all l2 (visit_all l1 st).
Proof. apply fold_left_app. Qed.

Lemma search_visit_all (data : json) :
  forall st, search data st = visit_all (dict_nodes data) st.
Proof.
  induction data as [ | b | n | s | l IH | d IH ] using json_nested_ind;
    intros st; try reflexivity.
  - cbn [_search_for_posts_recursive_enhanced dict_nodes].
    revert st. induction IH as [ | item l Hitem _ IHl ]; intros st.
    + reflexivity.
    + etransitivity; [ | symmetry; apply visit_all_app ].
      rewrite <- Hitem. apply IHl.
  - cbn [_search_for_posts_recursive_enhanced dict_nodes].
    unfold Parser.visit_all at 1. cbn [fold_left].
    fold (Parser.visit_all py_str py_hash hash_secret MediaInfo extract_media).
    generalize (visit (JDict d) st). clear st.
    induction IH as [ | [ k value ] es Hvalue _ IHes ]; intros st.
    + reflexivity.
    + etransitivity; [ | symmetry; apply visit_all_app ].
      cbn [snd] in Hvalue. rewrite <- Hvalue. apply IHes.
Qed.

(** *** One dictionary *)

Lemma assemble_post_id (post_data : json) (id : string) (p : PostInfo) :
  assemble MediaInfo extract_media post_data id = Ok (Some p) ->
  post_id p = id.
Proof.
  unfold assemble. intros H. repeat bind_inv H.
  match type of H with
  | (if truthy ?t then _ else _) = _ =>
      destruct (truthy t); [ | discriminate H ];
      destruct t; try discriminate H
  end.
  match type of H with
  | Ok (if ?c then _ else _) = _ => destruct c; [ | discriminate H ]
  end.
  injection H as <-. reflexivity.
Qed.

(** What meeting one dictionary does to the state. *)
Lemma visit_cases (data : json) (posts : list PostInfo) (seen : gset string) :
  let st := visit data (posts, seen) in
  match node_id data with
  | None => st = (posts, seen)
  | Some id =>
      (id ∈ seen /\ st = (posts, seen)) \/
      ((id ∉ seen) /\ snd st = {[id]} ∪ seen /\
       (fst st = posts \/ exists p, post_id p = id /\ fst st = posts ++ [p]))
  end.
Proof.
  unfold Parser.visit, Parser.node_id, _parse_single_post_enhanced. cbn [fst snd].
  destruct (py_eq (get_or_none data "$type") (JStr Fetcher.UPDATE_TYPE));
    [ | reflexivity ].
  destruct (extract_id data) as [ id | ]; [ | reflexivity ].
  case_bool_decide as Hseen.
  - left. split; [ exact Hseen | reflexivity ].
  - right. split; [ exact Hseen | ].
    destruct (assemble MediaInfo extract_media data id)
      as [ [ p | ] | ] eqn:Hp; cbn [try_except fst snd].
    + split; [ reflexivity | ]. right. exists p.
      split; [ eapply assemble_post_id; exact Hp | reflexivity ].
    + split; [ reflexivity | ]. left. reflexivity.
    + split; [ reflexivity | ]. left. reflexivity.
Qed.

(** *** A list of dictionaries *)

Lemma visit_all_cons (data : json) (nodes : list json) (st : parse_state) :
  visit_all (data :: nodes) st = visit_all nodes (visit data st).
Proof. reflexivity. Qed.

(** The posts added by a pass have pairwise distinct identities, none of
    them seen before the pass, and the pass records the identity of every
    post it meets. *)
Lemma visit_all_added (nodes : list json) :
  forall (posts : list PostInfo) (seen : gset string),
  let st := visit_all nodes (posts, seen) in
  exists new,
    fst st = posts ++ new /\
    seen ⊆ snd st /\
    NoDup (map post_id new) /\
    (forall p, p ∈ new -> (post_id p ∉ seen) /\ post_id p ∈ snd st) /\
    (forall data id, data ∈ nodes -> node_id data = Some id -> id ∈ snd st).
Proof.
  induction nodes as [ | data nodes IH ]; intros posts seen st; subst st.
  - exists []. cbn. rewrite app_nil_r.
    repeat split; try constructor; try set_solver.
  - rewrite visit_all_cons.
    pose proof (visit_cases data posts seen) as Hcase. cbv zeta in Hcase.
    destruct (visit data (posts, seen)) as [ posts1 seen1 ] eqn:Hvisit.
    destruct (IH posts1 seen1) as (new & Hfst & Hsub & Hnodup & Hnew & Hnodes).
    cbn [fst snd] in Hcase.
    set (st := visit_all nodes (posts1, seen1)) in *.
    assert (Hmono : seen ⊆ seen1 /\
              (forall id, node_id data = Some id -> id ∈ seen1) /\
              (posts1 = posts \/
               exists p, (post_id p ∉ seen) /\ post_id p ∈ seen1 /\
                 posts1 = posts ++ [p])).
    { destruct (node_id data) as [ id | ].
      - destruct Hcase as [ [ Hin Heq ] | (Hnotin & Hseen & Hposts) ].
        + injection Heq as -> ->. split; [ set_solver | ].
          split; [ intros ? [= <-]; exact Hin | left; reflexivity ].
        + subst seen1. split; [ set_solver | ].
          split; [ intros ? [= <-]; set_solver | ].
          destruct Hposts as [ -> | (p & Hid & ->) ]; [ left; reflexivity | ].
          right. exists p. rewrite Hid. split; [ exact Hnotin | ].
          split; [ set_solver | reflexivity ].
      - injection Hcase as -> ->. split; [ set_solver | ].
        split; [ discriminate | left; reflexivity ]. }
    destruct Hmono as (Hseen1 & Hdata & Hposts1).
    assert (Hnodes' : forall d id, d ∈ data :: nodes -> node_id d = Some id ->
              id ∈ snd st).
    { intros d id Hd Hid. apply elem_of_cons in Hd as [ -> | Hd ].
      - apply Hsub, Hdata, Hid.
      - eapply Hnodes; eassumption. }
    destruct Hposts1 as [ -> | (p & Hp & Hp1 & ->) ].
    + exists new. split; [ exact Hfst | ]. split; [ set_solver | ].
      split; [ exact Hnodup | ]. split; [ | exact Hnodes' ].
      intros q Hq. destruct (Hnew q Hq) as [ Hq1 Hq2 ].
      split; [ set_solver | exact Hq2 ].
    + exists (p :: new). split; [ rewrite Hfst, <- app_assoc; reflexivity | ].
      split; [ set_solver | ]. split; [ | split; [ | exact Hnodes' ] ].
      * cbn [map]. apply NoDup_cons. split; [ | exact Hnodup ].
        intros Hin. apply list_elem_of_fmap in Hin as (q & Heq & Hq).
        destruct (Hnew q Hq) as [ Hq1 _ ]. apply Hq1. rewrite <- Heq. exact Hp1.
      * intros q Hq. apply elem_of_cons in Hq as [ -> | Hq ].
        -- split; [ exact Hp | apply Hsub, Hp1 ].
        -- destruct (Hnew q Hq) as [ Hq1 Hq2 ]. split; [ set_solver | exact Hq2 ].
Qed.

(** A pass over dictionaries whose identities have all been seen changes
    nothing. *)
Lemma visit_all_seen (nodes : list json) :
  forall (posts : list PostInfo) (seen : gset string),
  (forall data id, data ∈ nodes -> node_id data = Some id -> id ∈ seen) ->
  visit_all nodes (posts, seen) = (posts, seen).
Proof.
  induction nodes as [ | data nodes IH ]; intros posts seen Hseen.
  - reflexivity.
  - rewrite visit_all_cons.
    pose proof (visit_cases data posts seen) as Hcase. cbv zeta in Hcase.
    assert (Hvisit : visit data (posts, seen) = (posts, seen)).
    { destruct (node_id data) as [ id | ] eqn:Hid; [ | exact Hcase ].
      destruct Hcase as [ [ _ Heq ] | (Hnotin & _) ]; [ exact Heq | ].
      exfalso. apply Hnotin. apply (Hseen data id); [ left | exact Hid ]. }
    rewrite Hvisit. apply IH. intros d id Hd. apply Hseen. right. exact Hd.
Qed.

(** *** A run of the parser *)

Lemma parse_visit_all (data : json) (seen : gset string) :
  parse data seen = visit_all (dict_nodes data) ([], seen).
Proof. apply search_visit_all. Qed.

(** C2, as the code has it.  A pass of the parser over a page starts from
    the identities seen so far in the run.  The set only grows; the posts of
    the pass have pairwise distinct identities, none of them seen before,
    all of them seen afterwards; a second pass over the same page in the
    same run adds no post and leaves the set as it is; and no later pass of
    the run, over any page, gives a post with the identity of a post of this
    pass.  The fetcher keeps no such set: a page saved for two ranges, which
    start at zero or above, gives its posts once for each range, numbered
    from the start of each, those whose own file is written. *)
Theorem dedup_within_run :
  (forall (data data' : json) (seen : gset string),
      let first := parse data seen in
      let again := parse data (snd first) in
      let later := parse data' (snd first) in
      fst again = [] /\
      snd again = snd first /\
      seen ⊆ snd first /\
      NoDup (map post_id (fst first)) /\
      (forall p, p ∈ fst first -> (post_id p ∉ seen) /\ post_id p ∈ snd first) /\
      (forall p q, p ∈ fst first -> q ∈ fst later -> post_id p <> post_id q)) /\
  (forall (env : Fetcher.collaborators) (r1 r2 : Z * Z) (activity_data : json),
      0 <= fst r1 -> 0 <= fst r2 ->
      snd (Fetcher.process_posts_from_files env
             [(r1, activity_data); (r2, activity_data)]) =
      Spec.kept env
        (Spec.renumbered (fst r1) activity_data ++
         Spec.renumbered (fst r2) activity_data)).
Proof.
  split.
  - intros data data' seen first again later. subst first again later.
    rewrite !parse_visit_all.
    destruct (visit_all_added (dict_nodes data) [] seen)
      as (new & Hfst & Hsub & Hnodup & Hnew & Hnodes).
    cbv zeta in Hfst, Hsub, Hnew, Hnodes.
    destruct (visit_all (dict_nodes data) ([], seen)) as [ posts1 seen1 ].
    cbn [fst snd] in *. subst posts1. cbn [app].
    rewrite (visit_all_seen (dict_nodes data) [] seen1 Hnodes). cbn [fst snd].
    split; [ reflexivity | ]. split; [ reflexivity | ]. split; [ exact Hsub | ].
    split; [ exact Hnodup | ]. split; [ exact Hnew | ].
    destruct (visit_all_added (dict_nodes data') [] seen1)
      as (new' & Hfst' & _ & _ & Hnew' & _).
    cbv zeta in Hfst', Hnew'. rewrite Hfst'. cbn [app].
    intros p q Hp Hq Heq.
    destruct (Hnew p Hp) as [ _ Hin ]. destruct (Hnew' q Hq) as [ Hout _ ].
    apply Hout. rewrite <- Heq. exact Hin.
  - intros env r1 r2 activity_data Hr1 Hr2.
    unfold Fetcher.process_posts_from_files.
    rewrite (NumberingSpec.process_files_kept env)
      by (repeat constructor; assumption).
    cbn [snd app Spec.posts_of_files flat_map]. rewrite app_nil_r. reflexivity.
Qed.

(** *** Identity *)

Lemma id_from_fields_agree (d1 d2 : list (string * json)) (fields : list string) :
  (forall k, k ∈ fields -> dict_lookup k d1 = dict_lookup k d2) ->
  id_from_fields (JDict d1) fields = id_from_fields (JDict d2) fields.
Proof.
  induction fields as [ | f fields IH ]; intros Hagree; [ reflexivity | ].
  cbn [id_from_fields py_get bind].
  rewrite (Hagree f) by left.
  rewrite IH by (intros k Hk; apply Hagree; right; exact Hk).
  reflexivity.
Qed.

Lemma id_from_fields_none (d : list (string * json)) (fields : list string) :
  (forall k, k ∈ fields -> dict_lookup k d = None) ->
  id_from_fields (JDict d) fields = Ok None.
Proof.
  induction fields as [ | f fields IH ]; intros Hnone; [ reflexivity | ].
  cbn [id_from_fields py_get bind]. rewrite (Hnone f) by left.
  cbn [truthy String.eqb negb]. apply IH. intros k Hk. apply Hnone. right. exact Hk.
Qed.

(** C9, as the code has it.  Within one interpreter, whose hash secret is
    fixed, the identity of an entity is a function of the entity, and of
    seven of its fields only: two entities that agree on them have the same
    identity, or both have none.  When the entity has none of the four
    identifier fields, its identity is the hash, under the secret of the
    interpreter, of the text made of its author, timestamp and commentary
    fields.  The identity of an entity whose [entityUrn] is a string that is
    not empty is the same whatever the hash and its secret. *)
Theorem post_id_deterministic :
  (forall d1 d2 : list (string * json),
      (forall k, k ∈ ID_SOURCES -> dict_lookup k d1 = dict_lookup k d2) ->
      extract_id (JDict d1) = extract_id (JDict d2)) /\
  (forall d : list (string * json),
      no_identifier d ->
      extract_id (JDict d) =
      Ok (string_of_Z
            (py_hash hash_secret
               (py_str (field_or_empty d "author") +:+ "_" +:+
                py_str (field_or_empty d "timestamp") +:+ "_" +:+
                py_str (field_or_empty d "commentary"))))) /\
  (forall (d : list (string * json)) (urn : string)
          (other_hash : Z -> string -> Z) (other_secret : Z),
      dict_lookup "entityUrn" d = Some (JStr urn) ->
      urn <> "" ->
      _extract_post_id py_str other_hash other_secret (JDict d) =
      extract_id (JDict d)).
Proof.
  split; [ | split ].
  - intros d1 d2 Hagree.
    unfold _extract_post_id, fallback_id. cbn [py_get bind].
    rewrite (Hagree "entityUrn") by (unfold ID_SOURCES; set_solver).
    rewrite (id_from_fields_agree d1 d2 ID_FIELDS)
      by (intros k Hk; apply Hagree; unfold ID_SOURCES, ID_FIELDS in *; set_solver).
    rewrite (Hagree "author") by (unfold ID_SOURCES; set_solver).
    rewrite (Hagree "timestamp") by (unfold ID_SOURCES; set_solver).
    rewrite (Hagree "commentary") by (unfold ID_SOURCES; set_solver).
    reflexivity.
  - intros d Hnone.
    unfold _extract_post_id, fallback_id, field_or_empty. cbn [py_get bind].
    rewrite (Hnone "entityUrn") by set_solver.
    cbn [truthy String.eqb negb].
    rewrite (id_from_fields_none d ID_FIELDS)
      by (intros k Hk; apply Hnone; unfold ID_FIELDS in *; set_solver).
    reflexivity.
  - intros d urn other_hash other_secret Hurn Hnonempty.
    unfold _extract_post_id. cbn [py_get bind]. rewrite Hurn. cbn [truthy].
    destruct (String.eqb_spec urn ""); [ contradiction | reflexivity ].
Qed.

End Enhanced.

Lemma dedup_within_run_witness :
  let parse :=
    parse_posts_enhanced Examples.sample_str Examples.sample_hash 0 unit
      Examples.no_media in
  let first := parse Examples.activity_page ∅ in
  let again := parse Examples.activity_page (snd first) in
  let env := Examples.session_with (fun _ _ _ => None) in
  let page := Examples.numbered_page "urn:a" 2 in
  (fst again = [] /\ snd again = snd first) /\
  (0 <= fst (0, 20) /\ 0 <= fst (20, 40)) /\
  snd (Fetcher.process_posts_from_files env [((0, 20), page); ((20, 40), page)]) =
  Spec.kept env (Spec.renumbered 0 page ++ Spec.renumbered 20 page).
Proof.
  intros parse first again env page.
  pose proof (dedup_within_run Examples.sample_str Examples.sample_hash 0 unit
                Examples.no_media) as [ Hparser Hfetcher ].
  split.
  - destruct (Hparser Examples.activity_page Examples.sample_page ∅)
      as (Hagain & Hseen & _).
    split; [ exact Hagain | exact Hseen ].
  - assert (H1 : 0 <= fst (0, 20)) by (cbn; lia).
    assert (H2 : 0 <= fst (20, 40)) by (cbn; lia).
    split; [ split; assumption | ].
    exact (Hfetcher env (0, 20) (20, 40) page H1 H2).
Defined.

(** The fetcher gives the posts of a page saved for two ranges twice: the
    same two identifiers come under the numbers 1, 2 and 21, 22. *)
Lemma fetcher_emits_page_twice :
  let env := Examples.session_with (fun _ _ _ => None) in
  let page := Examples.numbered_page "urn:a" 2 in
  let posts :=
    snd (Fetcher.process_posts_from_files env
           [((0, 20), page); ((20, 40), page)]) in
  map (fun p => (Fetcher.post_order p, Fetcher.entity_urn p)) posts =
  [(1, JStr "urn:a1"); (2, JStr "urn:a2"); (21, JStr "urn:a1"); (22, JStr "urn:a2")] /\
  ~ NoDup (map Fetcher.entity_urn posts).
Proof.
  intros env page posts.
  assert (Hposts : map (fun p => (Fetcher.post_order p, Fetcher.entity_urn p)) posts =
    [(1, JStr "urn:a1"); (2, JStr "urn:a2"); (21, JStr "urn:a1"); (22, JStr "urn:a2")])
    by (vm_compute; reflexivity).
  split; [ exact Hposts | ].
  assert (Hurns : map Fetcher.entity_urn posts =
    [JStr "urn:a1"; JStr "urn:a2"; JStr "urn:a1"; JStr "urn:a2"])
    by (vm_compute; reflexivity).
  rewrite Hurns. intros Hnodup. apply NoDup_cons in Hnodup as [ Hnotin _ ].
  apply Hnotin. right. left.
Qed.

(** The sample page: the post met twice is kept once, and a second pass of
    the same run over the page adds nothing. *)
Example activity_page_ids :
  map (post_id unit)
    (fst (parse_posts_enhanced Examples.sample_str Examples.sample_hash 0 unit
            Examples.no_media Examples.activity_page ∅)) =
  ["7001"; "7002,FEED)"; "9"].
Proof. vm_compute. reflexivity. Qed.

Lemma post_id_deterministic_witness :
  let d1 := [("entityUrn", JStr "urn:li:activity:7001"); ("x", JNum 1)] in
  let d2 := [("y", JNull); ("entityUrn", JStr "urn:li:activity:7001")] in
  let d := [("author", JStr "someone"); ("commentary", JStr "hello")] in
  _extract_post_id Examples.sample_str Examples.sample_hash 0 (JDict d1) =
  _extract_post_id Examples.sample_str Examples.sample_hash 0 (JDict d2) /\
  _extract_post_id Examples.sample_str Examples.sample_hash 0 (JDict d) =
  Ok (string_of_Z
        (Examples.sample_hash 0
           (Examples.sample_str (field_or_empty d "author") +:+ "_" +:+
            Examples.sample_str (field_or_empty d "timestamp") +:+ "_" +:+
            Examples.sample_str (field_or_empty d "commentary")))) /\
  _extract_post_id Examples.sample_str Examples.sample_hash 1 (JDict d1) =
  _extract_post_id Examples.sample_str Examples.sample_hash 0 (JDict d1).
Proof.
  intros d1 d2 d.
  destruct (post_id_deterministic Examples.sample_str Examples.sample_hash 0)
    as (Hsame & Hlast & Hurn).
  split; [ | split ].
  - apply Hsame. intros k Hk. unfold ID_SOURCES in Hk.
    repeat (apply elem_of_cons in Hk as [ -> | Hk ]; [ reflexivity | ]).
    apply elem_of_nil in Hk. destruct Hk.
  - apply Hlast. intros k Hk.
    repeat (apply elem_of_cons in Hk as [ -> | Hk ]; [ reflexivity | ]).
    apply elem_of_nil in Hk. destruct Hk.
  - apply (Hurn d1 "urn:li:activity:7001"); [ reflexivity | discriminate ].
Defined.

(** The identity of an entity without identifier follows the secret of
    the interpreter: two runs of the parser, under the secrets 0 and 1,
    give the same entity two identities. *)
Lemma fallback_id_follows_secret :
  let d := [("author", JStr "someone"); ("commentary", JStr "hello")] in
  _extract_post_id Examples.sample_str Examples.sample_hash 0 (JDict d) <>
  _extract_post_id Examples.sample_str Examples.sample_hash 1 (JDict d).
Proof. vm_compute. discriminate. Qed.

(** The identity is the activity fragment of the identifier, or what
    follows its last colon. *)
Example post_id_activity_fragment :
  _extract_post_id Examples.sample_str Examples.sample_hash 0
    (JDict [("entityUrn", JStr "urn:li:fsd_update:(urn:li:activity:7002,FEED)")]) =
  Ok "7002,FEED)".
Proof. reflexivity. Qed.

Example post_id_last_segment :
  _extract_post_id Examples.sample_str Examples.sample_hash 0
    (JDict [("entityUrn", JStr "urn:li:share:42")]) = Ok "42".
Proof. reflexivity. Qed.

End ParserSpec.

(** * Further properties *)

(** ** The ranges of a run *)

Module RangesMore.
Import Py Fetcher Spec More PyFacts.

Lemma range_count_step (s t : Z) :
  s < t -> (t - s + 19) / 20 = 1 + (t - Z.min (s + 20) t + 19) / 20.
Proof.
  intros Hlt. destruct (Z.le_gt_cases t (s + 20)) as [ Hle | Hgt ].
  - rewrite Z.min_r by lia. replace (t - t + 19) with 19 by lia.
    change (19 / 20) with 0. rewrite Z.add_0_r.
    symmetry. apply Z.div_unique with (r := t - s - 1); lia.
  - rewrite Z.min_l by lia.
    replace (t - s + 19) with (1 * 20 + (t - (s + 20) + 19)) by lia.
    rewrite Z.div_add_l by lia. reflexivity.
Qed.

(** The loop from any start, with turns enough. *)
Lemma ranges_from_closed (fuel : nat) :
  forall s t,
  (Z.to_nat (t - s) <= fuel)%nat ->
  ranges_from fuel s t 20 =
  map (fun i => (s + 20 * i, Z.min (s + 20 * (i + 1)) t))
      (seqZ 0 ((t - s + 19) / 20)).
Proof.
  induction fuel as [ | fuel IH ]; intros s t Hfuel.
  - rewrite seqZ_nil; [ reflexivity | ].
    assert ((t - s + 19) / 20 < 1) by (apply Z.div_lt_upper_bound; lia). lia.
  - cbn [ranges_from]. destruct (s <? t) eqn:Hlt.
    + apply Z.ltb_lt in Hlt.
      replace (if t <? s + 20 then t else s + 20) with (Z.min (s + 20) t)
        by (destruct (t <? s + 20) eqn:E;
            [ apply Z.ltb_lt in E | apply Z.ltb_ge in E ]; lia).
      rewrite IH by lia.
      rewrite (range_count_step s t Hlt).
      set (n := (t - Z.min (s + 20) t + 19) / 20).
      assert (Hn : 0 <= n) by (apply Z.div_pos; lia).
      rewrite (seqZ_cons 0 (1 + n)) by lia. cbn [map].
      replace (Z.pred (1 + n)) with n by lia.
      f_equal; [ f_equal; lia | ].
      change (Z.succ 0) with (1 + 0). rewrite <- (fmap_add_seqZ 1 0 n).
      change (Z.add 1 <$> seqZ 0 n) with (map (Z.add 1) (seqZ 0 n)).
      rewrite map_map.
      destruct (Z.le_gt_cases t (s + 20)) as [ Hle | Hgt ].
      * replace n with 0; [ reflexivity | ].
        unfold n. rewrite Z.min_r by lia.
        replace (t - t + 19) with 19 by lia. reflexivity.
      * rewrite Z.min_l by lia. apply map_ext. intros i.
        replace (s + 20 * (1 + i)) with (s + 20 + 20 * i) by lia.
        replace (s + 20 * (1 + i + 1)) with (s + 20 + 20 * (i + 1)) by lia.
        reflexivity.
    + apply Z.ltb_ge in Hlt. rewrite seqZ_nil; [ reflexivity | ].
      assert ((t - s + 19) / 20 < 1) by (apply Z.div_lt_upper_bound; lia). lia.
Qed.

(** X1.  The ranges of a target are the ranges of twenty that cover it from
    zero, the last one cut at the target: as many as the target divided by
    twenty and rounded up, and none for a target that is not positive. *)
Theorem parse_ranges_closed_form (target_end : Z) :
  parse_ranges target_end =
  map (nth_range target_end) (seqZ 0 (range_count target_end)).
Proof.
  unfold parse_ranges, nth_range, range_count.
  rewrite ranges_from_closed by lia.
  rewrite Z.sub_0_r. apply map_ext. intros i. reflexivity.
Qed.

End RangesMore.

(** ** The loop over the ranges *)

Module PaginationMore.
Import Py Fetcher Spec More PyFacts.

Section Loop.
Variable env : collaborators.
Variable profile_urn : string.
Hypothesis Hsaved : ranges_saved env.

(** One turn of the loop, in the three ways it can go. *)
Lemma fetch_ranges_turn (n idx start end_ : Z) (rest : list (Z * Z))
    (token : option json) (saved : list range_file) :
  let files :=
    fetch_ranges env profile_urn n idx ((start, end_) :: rest) token saved in
  (stops_at env profile_urn idx token start end_ /\ files = saved) \/
  exists activity_data,
    fetch_profile_activity env profile_urn (end_ - start) start
      (if idx =? 1 then None else token) = Some activity_data /\
    truthy activity_data = true /\
    ((no_token (extract_pagination_token activity_data) = true /\ idx < n /\
      files = saved ++ [((start, end_), activity_data)]) \/
     ((no_token (extract_pagination_token activity_data) = false \/ n <= idx) /\
      files =
        fetch_ranges env profile_urn n (idx + 1) rest
          (extract_pagination_token activity_data)
          (saved ++ [((start, end_), activity_data)]))).
Proof.
  intros files. subst files. cbn [fetch_ranges]. unfold stops_at.
  destruct (idx =? 1) eqn:Hidx; cbn [negb andb].
  - destruct (fetch_profile_activity env profile_urn (end_ - start) start None)
      as [ d | ] eqn:Hfetch; [ | left; split; [ right; exact I | reflexivity ] ].
    destruct (truthy d) eqn:Hd; cbn [negb];
      [ | left; split; [ right; reflexivity | reflexivity ] ].
    right. exists d. split; [ first [ exact Hfetch | reflexivity ] | ].
    split; [ first [ exact Hd | reflexivity ] | ].
    rewrite Hsaved.
    destruct (no_token (extract_pagination_token d)) eqn:Htok; cbn [andb].
    + destruct (idx <? n) eqn:Hn.
      * left. apply Z.ltb_lt in Hn. auto.
      * right. apply Z.ltb_ge in Hn. auto.
    + right. auto.
  - apply Z.eqb_neq in Hidx.
    destruct (no_token token) eqn:Htoken;
      [ left; split; [ left; auto | reflexivity ] | ].
    destruct (fetch_profile_activity env profile_urn (end_ - start) start token)
      as [ d | ] eqn:Hfetch; [ | left; split; [ right; exact I | reflexivity ] ].
    destruct (truthy d) eqn:Hd; cbn [negb];
      [ | left; split; [ right; reflexivity | reflexivity ] ].
    right. exists d. split; [ first [ exact Hfetch | reflexivity ] | ].
    split; [ first [ exact Hd | reflexivity ] | ].
    rewrite Hsaved.
    destruct (no_token (extract_pagination_token d)) eqn:Htok; cbn [andb].
    + destruct (idx <? n) eqn:Hn.
      * left. apply Z.ltb_lt in Hn. auto.
      * right. apply Z.ltb_ge in Hn. auto.
    + right. auto.
Qed.

Lemma last_token_cons (token : option json) (r : Z * Z) (d : json)
    (new : list range_file) :
  last_token token ((r, d) :: new) = last_token (extract_pagination_token d) new.
Proof.
  unfold last_token. destruct new as [ | f new ]; [ reflexivity | ].
  rewrite last_cons. destruct (last (f :: new)) eqn:E; [ reflexivity | ].
  apply last_None in E. discriminate.
Qed.

(** The loop from any turn: what it adds to the files, and why it stops. *)
Lemma fetch_ranges_added (ranges : list (Z * Z)) :
  forall (n idx : Z) (token : option json) (saved : list range_file),
  1 <= idx ->
  n = idx - 1 + Z.of_nat (length ranges) ->
  exists new,
    fetch_ranges env profile_urn n idx ranges token saved = saved ++ new /\
    map fst new `prefix_of` ranges /\
    chained env profile_urn idx token new /\
    (map fst new = ranges \/
     exists start end_ rest,
       ranges = map fst new ++ (start, end_) :: rest /\
       stops_at env profile_urn (idx + Z.of_nat (length new))
         (last_token token new) start end_).
Proof.
  induction ranges as [ | [ start end_ ] rest IH ]; intros n idx token saved Hidx Hn.
  - exists []. cbn [fetch_ranges chained map length]. rewrite app_nil_r.
    split; [ reflexivity | ]. split; [ apply prefix_nil | ].
    split; [ exact I | left; reflexivity ].
  - destruct (fetch_ranges_turn n idx start end_ rest token saved)
      as [ [ Hstop -> ] | (d & Hfetch & Hd & [ (Htok & Hlt & ->) | (Hgo & ->) ]) ].
    + exists []. rewrite app_nil_r. split; [ reflexivity | ].
      split; [ apply prefix_nil | ]. split; [ exact I | ].
      right. exists start, end_, rest. split; [ reflexivity | ].
      cbn [length last_token last]. rewrite Z.add_0_r. exact Hstop.
    + exists [((start, end_), d)]. split; [ reflexivity | ].
      split; [ exists rest; reflexivity | ].
      split.
      { cbn [chained]. split; [ exact Hfetch | ]. split; [ exact Hd | ].
        split; [ intros Hne; exfalso; apply Hne; reflexivity | exact I ]. }
      destruct rest as [ | [ s2 e2 ] rest' ]; [ simpl length in Hn; lia | ].
      right. exists s2, e2, rest'. split; [ reflexivity | ].
      left. split; [ simpl length; lia | exact Htok ].
    + destruct (IH n (idx + 1) (extract_pagination_token d)
                  (saved ++ [((start, end_), d)])) as (new & Hfiles & Hprefix & Hchain & Hend).
      { lia. }
      { simpl length in Hn. lia. }
      exists (((start, end_), d) :: new).
      split; [ rewrite Hfiles, <- app_assoc; reflexivity | ].
      split; [ cbn [map fst]; apply prefix_cons; exact Hprefix | ].
      split.
      * cbn [chained]. split; [ exact Hfetch | ]. split; [ exact Hd | ].
        split; [ | exact Hchain ].
        intros Hnew. destruct Hgo as [ Hgo | Hgo ]; [ exact Hgo | ].
        exfalso. apply Hnew.
        assert (rest = []) by (destruct rest; [ reflexivity | simpl length in Hn; lia ]).
        subst rest. apply prefix_nil_inv in Hprefix.
        destruct new; [ reflexivity | discriminate Hprefix ].
      * rewrite last_token_cons. cbn [map fst length].
        destruct Hend as [ Hall | (s' & e' & rest' & Hrest & Hstop) ].
        -- left. rewrite Hall. reflexivity.
        -- right. exists s', e', rest'. split; [ rewrite Hrest; reflexivity | ].
           replace (idx + Z.of_nat (S (length new)))
             with (idx + 1 + Z.of_nat (length new)) by lia.
           exact Hstop.
Qed.

(** X2.  When every range file is written, the files kept by the loop are
    those of the first ranges, in their order, and they are chained: the
    first holds the body answered to a request without token, each of the
    others the body answered to the request made with the token of the file
    before it; every body is truthy and every file but the last holds a
    token. *)
Theorem saved_files_chained (ranges : list (Z * Z)) :
  let files :=
    fetch_ranges env profile_urn (Z.of_nat (length ranges)) 1 ranges None [] in
  map fst files `prefix_of` ranges /\
  chained env profile_urn 1 None files.
Proof.
  intros files. subst files.
  destruct (fetch_ranges_added ranges (Z.of_nat (length ranges)) 1 None [])
    as (new & -> & Hprefix & Hchain & _); [ lia | lia | ].
  split; [ exact Hprefix | exact Hchain ].
Qed.

(** X3.  When every range file is written, the loop stops before the last
    range for one reason only: the request for the next range brings no
    body (none, or one that is falsy), or, past the first range, the
    response before it holds no token. *)
Theorem loop_stops_for_a_reason (ranges : list (Z * Z)) :
  let files :=
    fetch_ranges env profile_urn (Z.of_nat (length ranges)) 1 ranges None [] in
  map fst files = ranges \/
  exists start end_ rest,
    ranges = map fst files ++ (start, end_) :: rest /\
    stops_at env profile_urn (1 + Z.of_nat (length files))
      (last_token None files) start end_.
Proof.
  intros files. subst files.
  destruct (fetch_ranges_added ranges (Z.of_nat (length ranges)) 1 None [])
    as (new & -> & _ & _ & Hend); [ lia | lia | ].
  exact Hend.
Qed.

End Loop.

Lemma parse_ranges_nil (target_end : Z) :
  parse_ranges target_end = [] <-> target_end <= 0.
Proof.
  unfold parse_ranges. split.
  - intros H. destruct (Z.le_gt_cases target_end 0) as [ Hle | Hgt ]; [ exact Hle | ].
    destruct (Z.to_nat target_end) as [ | k ] eqn:Hk; [ lia | ].
    cbn [ranges_from] in H.
    replace (0 <? target_end) with true in H by (symmetry; apply Z.ltb_lt; lia).
    discriminate H.
  - intros Hle. replace (Z.to_nat target_end) with 0%nat by lia. reflexivity.
Qed.

(** The two ways a run ends: a failure with its message, which a run that
    nothing interrupts meets only when one of the four conditions fails,
    or a success with what it has written, met only when the four conditions
    hold and the calls every run makes have returned. *)
Lemma run_scrape_cases (env : collaborators) (target_username : string)
    (target_range : Z) :
  let result := run_scrape_caught env target_username target_range in
  let conditions :=
    login_to_linkedin env = true /\
    target_username <> "" /\
    (exists profile_urn,
        extract_profile_urn env target_username = Some profile_urn /\
        profile_urn <> "") /\
    target_range <> 0 in
  (exists msg, result = failed msg /\ (uninterrupted env -> ~ conditions)) \/
  (exists s,
      result = {| success := true; session_dir := Some s; error := None |} /\
      conditions /\
      Forall (fun call => raises env call = None)
        [StartPlaywright; Login; ExtractProfileUrn; MakeSessionDir; ProcessPosts]).
Proof.
  intros result conditions. subst result conditions.
  unfold run_scrape_caught, run_scrape_body.
  destruct (raises env StartPlaywright) as [ r | ] eqn:Hstart.
  { left. destruct r; eexists;
      (split; [ reflexivity | intros Hq; rewrite Hq in Hstart; discriminate Hstart ]). }
  cbn [after].
  destruct (raises env Login) as [ r | ] eqn:Hlog.
  { left. destruct r; eexists;
      (split; [ reflexivity | intros Hq; rewrite Hq in Hlog; discriminate Hlog ]). }
  cbn [after].
  destruct (login_to_linkedin env) eqn:Hlogin; cbn [negb].
  2:{ left. eexists. split; [ reflexivity | ]. intros _ (H & _). discriminate H. }
  destruct (String.eqb_spec target_username "") as [ Huser | Huser ].
  { left. eexists. split; [ reflexivity | ]. intros _ (_ & H & _). contradiction. }
  destruct (raises env ExtractProfileUrn) as [ r | ] eqn:Hextract.
  { left. destruct r; eexists;
      (split; [ reflexivity
              | intros Hq; rewrite Hq in Hextract; discriminate Hextract ]). }
  cbn [after].
  destruct (extract_profile_urn env target_username) as [ urn | ] eqn:Hprofile.
  2:{ left. eexists. split; [ reflexivity | ].
      intros _ (_ & _ & (u & H & _) & _). discriminate H. }
  destruct (String.eqb_spec urn "") as [ Hurn | Hurn ].
  { left. eexists. split; [ reflexivity | ].
    intros _ (_ & _ & (u & H & Hu) & _). injection H as <-. contradiction. }
  destruct (parse_ranges (Z.abs target_range)) as [ | r rest ] eqn:Hranges.
  { apply parse_ranges_nil in Hranges. left. eexists. split; [ reflexivity | ].
    intros _ (_ & _ & _ & H). lia. }
  assert (Hne : target_range <> 0).
  { intros ->. discriminate Hranges. }
  destruct (raises env MakeSessionDir) as [ r' | ] eqn:Hmake.
  { left. destruct r'; eexists;
      (split; [ reflexivity | intros Hq; rewrite Hq in Hmake; discriminate Hmake ]). }
  cbn [after].
  destruct (loop_raises env urn _ 1 (r :: rest) None) as [ r' | ] eqn:Hloop.
  { left. destruct r'; eexists;
      (split; [ reflexivity
              | intros Hq;
                rewrite (PaginationSpec.loop_raises_uninterrupted env urn Hq) in Hloop;
                discriminate Hloop ]). }
  cbn [after].
  destruct (raises env ProcessPosts) as [ r' | ] eqn:Hprocess.
  { left. destruct r'; eexists;
      (split; [ reflexivity
              | intros Hq; rewrite Hq in Hprocess; discriminate Hprocess ]). }
  cbn [after].
  assert (Hconditions :
    true = true /\ target_username <> "" /\
    (exists profile_urn, Some urn = Some profile_urn /\ profile_urn <> "") /\
    target_range <> 0).
  { split; [ reflexivity | ]. split; [ exact Huser | ].
    split; [ exists urn; split; [ reflexivity | exact Hurn ] | exact Hne ]. }
  assert (Hcalls :
    Forall (fun call => raises env call = None)
      [StartPlaywright; Login; ExtractProfileUrn; MakeSessionDir; ProcessPosts])
    by (repeat constructor; assumption).
  destruct (snd (process_posts_from_files env _)) as [ | p posts ].
  { right. eexists. split; [ reflexivity | ]. split; assumption. }
  destruct (raises env DownloadMedia) as [ r' | ] eqn:Hmedia.
  { left. destruct r'; eexists;
      (split; [ reflexivity | intros Hq; rewrite Hq in Hmedia; discriminate Hmedia ]). }
  right. eexists. split; [ reflexivity | ]. split; assumption.
Qed.

(** X4.  A run that nothing interrupts returns, and reports a failure in
    four cases only, all of them met before the first request for a range:
    the login fails, the username is empty, the profile URN is not found, or
    the target is zero.  What gets out of a call of the [try], an interrupt
    or an exception, makes a failure as well: a success requires the four
    conditions and that the calls every run makes have returned.  A failure
    has an error and no session directory, a success a session directory
    and no error.  The run itself does not return exactly when something
    gets out of the [finally] clause. *)
Theorem run_scrape_outcome (env : collaborators) (target_username : string)
    (target_range : Z) :
  let run := run_scrape env target_username target_range in
  let conditions :=
    login_to_linkedin env = true /\
    target_username <> "" /\
    (exists profile_urn,
        extract_profile_urn env target_username = Some profile_urn /\
        profile_urn <> "") /\
    target_range <> 0 in
  (uninterrupted env ->
   exists result, run = Returns result /\ (success result = true <-> conditions)) /\
  (forall result, run = Returns result ->
     (success result = true ->
      conditions /\
      Forall (fun call => raises env call = None)
        [StartPlaywright; Login; ExtractProfileUrn; MakeSessionDir; ProcessPosts;
         Cleanup]) /\
     (success result = true -> error result = None /\ is_Some (session_dir result)) /\
     (success result = false -> is_Some (error result) /\ session_dir result = None)) /\
  (forall r, run = Raises r <-> raises env Cleanup = Some r).
Proof.
  intros run conditions. subst run. unfold run_scrape.
  split; [ | split ].
  - intros Hquiet. rewrite Hquiet. cbn [after]. eexists. split; [ reflexivity | ].
    destruct (run_scrape_cases env target_username target_range)
      as [ (msg & -> & Hnot) | (s & -> & Hconditions & Hcalls) ];
      cbn [success failed].
    + split; [ discriminate | ]. intros H. exfalso. exact (Hnot Hquiet H).
    + split; [ intros _; exact Hconditions | reflexivity ].
  - intros result Hrun.
    destruct (raises env Cleanup) as [ r | ] eqn:Hcleanup; [ discriminate Hrun | ].
    cbn [after] in Hrun. injection Hrun as <-.
    destruct (run_scrape_cases env target_username target_range)
      as [ (msg & -> & Hnot) | (s & -> & Hconditions & Hcalls) ];
      cbn [success error session_dir failed].
    + split; [ discriminate | ]. split; [ discriminate | ].
      intros _. split; [ eexists | ]; reflexivity.
    + split.
      { intros _. split; [ exact Hconditions | ].
        change [StartPlaywright; Login; ExtractProfileUrn; MakeSessionDir;
                ProcessPosts; Cleanup]
          with ([StartPlaywright; Login; ExtractProfileUrn; MakeSessionDir;
                 ProcessPosts] ++ [Cleanup]).
        apply Forall_app. split; [ exact Hcalls | ].
        constructor; [ exact Hcleanup | constructor ]. }
      split; [ intros _; split; [ reflexivity | eexists; reflexivity ] | discriminate ].
  - intros r. destruct (raises env Cleanup) as [ r' | ]; cbn [after].
    + split; intros H; injection H as ->; reflexivity.
    + split; discriminate.
Qed.

Lemma run_scrape_outcome_witness :
  let page := Examples.numbered_page "urn:a" 2 in
  let env := Examples.session_with (Examples.first_page_only page) in
  uninterrupted env /\
  exists result,
    run_scrape env "someone" 60 = Returns result /\
    (success result = true <->
     login_to_linkedin env = true /\
     "someone" <> "" /\
     (exists profile_urn,
         extract_profile_urn env "someone" = Some profile_urn /\
         profile_urn <> "") /\
     60 <> 0).
Proof.
  intros page env.
  assert (Hquiet : uninterrupted env) by (intros s; reflexivity).
  split; [ exact Hquiet | ].
  exact (proj1 (run_scrape_outcome env "someone" 60) Hquiet).
Defined.

(** An interrupt while the session directory is made, or during the first
    request, ends the run as a failure although the four conditions hold;
    an interrupt while the browser is closed leaves the run without
    result. *)
Example interrupted_run_fails :
  let page := Examples.numbered_page "urn:a" 2 in
  let fetch := Examples.first_page_only page in
  map (fun stop => run_scrape (Examples.interrupted_at stop fetch) "someone" 60)
    [MakeSessionDir; Fetch 1; Cleanup] =
  [Returns (failed "Process interrupted by user");
   Returns (failed "Process interrupted by user");
   Raises KeyboardInterrupt].
Proof. vm_compute. reflexivity. Qed.

Lemma saved_files_chained_witness :
  let page := Examples.numbered_page_with_token "urn:a" 2 "token-1" in
  let env := Examples.session_with (Examples.first_page_only page) in
  let files :=
    fetch_ranges env "urn:li:fsd_profile:X" (Z.of_nat (length (parse_ranges 60))) 1
      (parse_ranges 60) None [] in
  ranges_saved env /\
  map fst files `prefix_of` parse_ranges 60 /\
  chained env "urn:li:fsd_profile:X" 1 None files.
Proof.
  intros page env files.
  assert (Hsaved : ranges_saved env) by (intros idx r d; reflexivity).
  split; [ exact Hsaved | ].
  exact (saved_files_chained env "urn:li:fsd_profile:X" Hsaved (parse_ranges 60)).
Defined.

Lemma loop_stops_for_a_reason_witness :
  let page := Examples.numbered_page_with_token "urn:a" 2 "token-1" in
  let env := Examples.session_with (Examples.first_page_only page) in
  let files :=
    fetch_ranges env "urn:li:fsd_profile:X" (Z.of_nat (length (parse_ranges 60))) 1
      (parse_ranges 60) None [] in
  ranges_saved env /\
  (map fst files = parse_ranges 60 \/
   exists start end_ rest,
     parse_ranges 60 = map fst files ++ (start, end_) :: rest /\
     stops_at env "urn:li:fsd_profile:X" (1 + Z.of_nat (length files))
       (last_token None files) start end_).
Proof.
  intros page env files.
  assert (Hsaved : ranges_saved env) by (intros idx r d; reflexivity).
  split; [ exact Hsaved | ].
  exact (loop_stops_for_a_reason env "urn:li:fsd_profile:X" Hsaved (parse_ranges 60)).
Defined.

(** The sample session: one file is kept, and the loop stops at the range
    20-40. *)
Example sample_session_files :
  let page := Examples.numbered_page_with_token "urn:a" 2 "token-1" in
  let env := Examples.session_with (Examples.first_page_only page) in
  map fst
    (fetch_ranges env "urn:li:fsd_profile:X" 3 1 (parse_ranges 60) None []) =
  [(0, 20)].
Proof. vm_compute. reflexivity. Qed.

End PaginationMore.

(** ** The posts of a run *)

Module NumberingMore.
Import Py Fetcher Spec More PyFacts.

(** X5.  A page yields at most one post for each reference: there are no
    more posts than references, and the order of every post is a place of
    the reference list, counted from one. *)
Theorem posts_within_references (activity_data : json) :
  let out := extract_posts_from_response activity_data in
  let refs := page_refs activity_data in
  (length out <= length refs)%nat /\
  Forall (fun p => 1 <= post_order p <= Z.of_nat (length refs)) out.
Proof.
  intros out refs. subst out refs.
  destruct (ExtractSpec.extracted_at_refs activity_data) as [ Hs Hf ].
  assert (Hb : Forall (fun p => 1 <= post_order p <
                         1 + Z.of_nat (length (page_refs activity_data)))
                 (extract_posts_from_response activity_data)).
  { eapply Forall_impl; [ exact Hf | ]. intros p Hp.
    apply NumberingSpec.at_ref_bound. exact Hp. }
  split.
  - pose proof (NumberingSpec.sorted_length_bound 1
                  (1 + Z.of_nat (length (page_refs activity_data)))
                  (map post_order (extract_posts_from_response activity_data)) Hs)
      as Hlen.
    rewrite length_map in Hlen.
    assert (Hfm : Forall (fun x => 1 <= x < 1 + Z.of_nat (length (page_refs activity_data)))
                    (map post_order (extract_posts_from_response activity_data))).
    { apply Forall_map. exact Hb. }
    specialize (Hlen Hfm). lia.
  - eapply Forall_impl; [ exact Hb | ]. simpl. intros p Hp. lia.
Qed.

Section Files.
Variable env : collaborators.

Lemma save_posts_sublist (range_start : Z) (posts : list post_info) :
  forall all_posts_data,
  exists new,
    save_posts env range_start posts all_posts_data = all_posts_data ++ new /\
    new `sublist_of`
      map (fun p => set_post_order (range_start + post_order p) p) posts.
Proof.
  induction posts as [ | p rest IH ]; intros all_posts_data.
  - exists []. split; [ symmetry; apply app_nil_r | constructor ].
  - cbn [save_posts map].
    destruct (save_individual_post env _ _).
    + destruct (IH (all_posts_data ++ [set_post_order (range_start + post_order p) p]))
        as (new & -> & Hsub).
      exists (set_post_order (range_start + post_order p) p :: new).
      split; [ rewrite <- app_assoc; reflexivity | ].
      apply sublist_skip. exact Hsub.
    + destruct (IH all_posts_data) as (new & -> & Hsub).
      exists new. split; [ reflexivity | ]. apply sublist_cons. exact Hsub.
Qed.

Lemma process_files_sublist (files : list range_file) :
  forall all_posts_data out,
  process_files env files all_posts_data = Ok out ->
  exists new,
    out = all_posts_data ++ new /\
    new `sublist_of` posts_of_files files.
Proof.
  induction files as [ | [ [ range_start range_end ] activity_data ] rest IH ];
    intros all_posts_data out Hout.
  - injection Hout as <-. exists []. split; [ symmetry; apply app_nil_r | constructor ].
  - destruct (Z.lt_ge_cases range_start 0) as [ Hneg | Hpos ].
    { rewrite NumberingSpec.process_files_negative in Hout by exact Hneg.
      discriminate Hout. }
    rewrite NumberingSpec.process_files_cons in Hout by exact Hpos.
    destruct (save_posts_sublist range_start
                (extract_posts_from_response activity_data) all_posts_data)
      as (new1 & Hnew1 & Hsub1).
    rewrite Hnew1 in Hout.
    destruct (IH (all_posts_data ++ new1) out Hout) as (new2 & -> & Hsub2).
    exists (new1 ++ new2). split; [ rewrite <- app_assoc; reflexivity | ].
    unfold posts_of_files. cbn [flat_map fst snd]. apply sublist_app; assumption.
Qed.

(** X6.  The posts a run keeps are counted by the first component of the
    result.  When every range starts at zero or above, they are the posts
    of its files, file after file and, within a file, in the order of the
    page, each numbered from the start of its range, those whose own file
    is written: all of them when every post file is written.  When a range
    starts below zero, its name cannot be read back and the run keeps no
    post. *)
Theorem posts_in_file_order (files : list range_file) :
  let all_posts_data := snd (process_posts_from_files env files) in
  fst (process_posts_from_files env files) = Z.of_nat (length all_posts_data) /\
  (Forall (fun f => 0 <= fst (fst f)) files ->
   all_posts_data = kept env (posts_of_files files) /\
   (posts_saved env -> all_posts_data = posts_of_files files)) /\
  (Exists (fun f => fst (fst f) < 0) files -> all_posts_data = []).
Proof.
  intros all_posts_data. subst all_posts_data.
  unfold process_posts_from_files. split; [ | split ].
  - destruct (process_files env files []); reflexivity.
  - intros Hstarts.
    rewrite (NumberingSpec.process_files_kept env files Hstarts). cbn [snd app].
    split; [ reflexivity | ]. intros Hsaved.
    apply NumberingSpec.kept_saved. exact Hsaved.
  - intros Hneg. rewrite (NumberingSpec.process_files_raises env files Hneg).
    reflexivity.
Qed.

Lemma StronglySorted_sublist {A : Type} (R : A -> A -> Prop) (l1 l2 : list A) :
  l1 `sublist_of` l2 -> StronglySorted R l2 -> StronglySorted R l1.
Proof.
  induction 1 as [ | x l1 l2 Hsub IH | x l1 l2 Hsub IH ]; intros Hs.
  - constructor.
  - inversion Hs as [ | ? ? Hs' Hx ]; subst. constructor; [ apply IH, Hs' | ].
    rewrite Forall_forall in *. intros y Hy. apply Hx.
    eapply elem_of_sublist; eassumption.
  - inversion Hs as [ | ? ? Hs' Hx ]; subst. apply IH, Hs'.
Qed.

Lemma StronglySorted_append {A : Type} (R : A -> A -> Prop) (l1 l2 : list A) :
  (forall x1 x2, x1 ∈ l1 -> x2 ∈ l2 -> R x1 x2) ->
  StronglySorted R l1 -> StronglySorted R l2 -> StronglySorted R (l1 ++ l2).
Proof.
  intros Hcross Hs1 Hs2. induction Hs1 as [ | x l Hs IH Hx ]; [ exact Hs2 | ].
  cbn [app]. constructor.
  - apply IH. intros x1 x2 H1 H2. apply Hcross; [ right; exact H1 | exact H2 ].
  - apply Forall_app. split; [ exact Hx | ].
    apply Forall_forall. intros y Hy. apply Hcross; [ left | exact Hy ].
Qed.

Lemma sublist_map {A B : Type} (f : A -> B) (l1 l2 : list A) :
  l1 `sublist_of` l2 -> map f l1 `sublist_of` map f l2.
Proof.
  induction 1; cbn [map]; [ constructor | apply sublist_skip | apply sublist_cons ];
    assumption.
Qed.

(** The numbers of a page lie in its range and increase. *)
Lemma renumbered_orders (range_start range_end : Z) (activity_data : json) :
  Z.of_nat (length (page_refs activity_data)) <= range_end - range_start ->
  StronglySorted Z.lt (map post_order (renumbered range_start activity_data)) /\
  Forall (fun n => range_start < n <= range_end)
    (map post_order (renumbered range_start activity_data)).
Proof.
  intros Hfits. unfold renumbered. rewrite map_map. cbn [set_post_order post_order].
  destruct (ExtractSpec.extracted_at_refs activity_data) as [ Hs Hf ].
  split.
  - rewrite <- (map_map post_order (Z.add range_start)).
    induction Hs as [ | x l Hs IH Hx ]; [ constructor | ].
    cbn [map]. constructor; [ exact IH | ].
    apply Forall_map. eapply Forall_impl; [ exact Hx | ]. simpl. intros y Hy. lia.
  - apply Forall_map. eapply Forall_impl; [ exact Hf | ]. simpl. intros p Hp.
    apply NumberingSpec.at_ref_bound in Hp. lia.
Qed.

Lemma posts_of_files_orders (files : list range_file) :
  forall lo, ascending_from lo files ->
  StronglySorted Z.lt (map post_order (posts_of_files files)) /\
  Forall (fun n => lo < n) (map post_order (posts_of_files files)).
Proof.
  induction files as [ | [ [ range_start range_end ] activity_data ] rest IH ];
    intros lo Hasc.
  - split; constructor.
  - destruct Hasc as (Hlo & Hfits & Hrest).
    destruct (renumbered_orders range_start range_end activity_data Hfits)
      as [ Hs1 Hb1 ].
    destruct (IH range_end Hrest) as [ Hs2 Hb2 ].
    unfold posts_of_files. cbn [flat_map fst snd]. fold (posts_of_files rest).
    rewrite map_app. split.
    + apply StronglySorted_append; [ | exact Hs1 | exact Hs2 ].
      intros x1 x2 H1 H2. rewrite Forall_forall in Hb1, Hb2.
      specialize (Hb1 x1 H1). specialize (Hb2 x2 H2). lia.
    + apply Forall_app. split.
      * eapply Forall_impl; [ exact Hb1 | ]. simpl. intros n Hn. lia.
      * eapply Forall_impl; [ exact Hb2 | ]. simpl. intros n Hn.
        assert (range_start <= range_end) by lia. lia.
Qed.

(** X7.  When the ranges follow one another without overlap and no page
    holds more references than its range has places, the global numbers of
    the posts a run keeps increase strictly: no number is given twice, and
    every number lies above the start of the first range. *)
Theorem global_numbers_increase (files : list range_file) (lo : Z) :
  ascending_from lo files ->
  let numbers := map post_order (snd (process_posts_from_files env files)) in
  StronglySorted Z.lt numbers /\ NoDup numbers /\ Forall (fun n => lo < n) numbers.
Proof.
  intros Hasc numbers. subst numbers.
  destruct (posts_of_files_orders files lo Hasc) as [ Hs Hb ].
  unfold process_posts_from_files.
  destruct (process_files env files []) as [ out | ] eqn:Hout; cbn [snd map];
    [ | split; [ constructor | split; constructor ] ].
  destruct (process_files_sublist files [] out Hout) as (new & Hnew & Hsub).
  rewrite Hnew. cbn [app]. clear Hnew.
  apply (sublist_map post_order) in Hsub.
  assert (Hsorted : StronglySorted Z.lt (map post_order new)).
  { eapply StronglySorted_sublist; eassumption. }
  split; [ exact Hsorted | ]. split.
  - clear Hsub Hs Hb.
    induction Hsorted as [ | x l Hs IH Hx ]; [ constructor | ].
    apply NoDup_cons. split; [ | exact IH ].
    intros Hin. rewrite Forall_forall in Hx. specialize (Hx x Hin). lia.
  - rewrite Forall_forall in *. intros n Hn. apply Hb.
    eapply elem_of_sublist; eassumption.
Qed.

End Files.

Lemma global_numbers_increase_witness :
  let env := Examples.session_with (fun _ _ _ => None) in
  let files :=
    [((0, 20), Examples.numbered_page "urn:a" 3);
     ((20, 40), Examples.numbered_page "urn:b" 2)] in
  ascending_from 0 files /\
  let numbers := map post_order (snd (process_posts_from_files env files)) in
  StronglySorted Z.lt numbers /\ NoDup numbers /\ Forall (fun n => 0 < n) numbers.
Proof.
  intros env files.
  assert (Hasc : ascending_from 0 files).
  { repeat split; try (apply Z.leb_le; vm_compute; reflexivity). }
  split; [ exact Hasc | ].
  exact (global_numbers_increase env files 0 Hasc).
Defined.

Lemma posts_in_file_order_witness :
  let env := Examples.session_with (fun _ _ _ => None) in
  let files :=
    [((0, 20), Examples.numbered_page "urn:a" 3);
     ((20, 40), Examples.numbered_page "urn:b" 2)] in
  (Forall (fun f => 0 <= fst (fst f)) files /\ posts_saved env) /\
  snd (process_posts_from_files env files) = posts_of_files files.
Proof.
  intros env files.
  assert (Hstarts : Forall (fun f => 0 <= fst (fst f)) files)
    by (repeat constructor; cbn; lia).
  assert (Hsaved : posts_saved env) by (intros p n; reflexivity).
  split; [ split; assumption | ].
  destruct (posts_in_file_order env files) as (_ & Hkept & _).
  exact (proj2 (Hkept Hstarts) Hsaved).
Defined.

(** A range that starts below zero: the run keeps no post, whatever the
    pages hold. *)
Example negative_start_keeps_nothing :
  process_posts_from_files (Examples.session_with (fun _ _ _ => None))
    [((0, 20), Examples.numbered_page "urn:a" 3);
     ((-5, 15), Examples.numbered_page "urn:b" 2)] = (0, []).
Proof. vm_compute. reflexivity. Qed.

(** Two pages that overlap: the page saved for the range 0-20 holds 21
    references, and the number 21 is given twice. *)
Example overlapping_pages_repeat_a_number :
  map post_order
    (snd (process_posts_from_files (Examples.session_with (fun _ _ _ => None))
            [((0, 20), Examples.numbered_page "urn:a" 21);
             ((20, 40), Examples.numbered_page "urn:b" 1)])) =
  seqZ 1 21 ++ [21].
Proof. vm_compute. reflexivity. Qed.

End NumberingMore.

(** ** Entities that cannot be read, and media *)

Module ExtractMore.
Import Py Fetcher Spec More PyFacts.

Lemma py_get_Ok_dict (v : json) (k : string) (default x : json) :
  py_get v k default = Ok x -> is_dict v = true.
Proof. destruct v; simpl; intros H; try discriminate H. reflexivity. Qed.

Lemma object_at_intro (v x : json) (k : string) :
  py_get v k empty_dict = Ok x -> is_dict x = true -> object_at v k = true.
Proof.
  unfold object_at. intros -> Hx. destruct x; try discriminate Hx. reflexivity.
Qed.

(** An entity is assembled only if it can be read through. *)
Lemma assemble_post_readable (item included : json) (idx : Z) (p : post_info) :
  assemble_post item included idx = Ok p -> readable_entity item = true.
Proof.
  unfold assemble_post. intros H.
  apply bind_Ok in H as (urn & Hurn & H).
  apply bind_Ok in H as (metadata & Hmeta & H).
  apply bind_Ok in H as (backend & Hbackend & H).
  apply bind_Ok in H as (share & _ & H).
  apply bind_Ok in H as (commentary & Hcomm & H).
  apply bind_Ok in H as (text_obj & Htext & H).
  apply bind_Ok in H as (text & Htt & H).
  apply bind_Ok in H as (social & Hsocial & H).
  apply bind_Ok in H as (share_url & Hshare & H).
  apply bind_Ok in H as (actor & Hactor & H).
  apply bind_Ok in H as (name & Hname & H).
  apply bind_Ok in H as (description & _ & H).
  apply bind_Ok in H as (nav & Hnav & H).
  apply bind_Ok in H as (target & Htarget & H).
  unfold readable_entity.
  pose proof (py_get_Ok_dict _ _ _ _ Hurn) as Hitem.
  destruct item as [ | | | | | d ]; try discriminate Hitem.
  rewrite Hcomm, Hactor.
  rewrite (object_at_intro _ _ _ Hmeta (py_get_Ok_dict _ _ _ _ Hbackend)).
  rewrite (object_at_intro _ _ _ Hcomm (py_get_Ok_dict _ _ _ _ Htext)).
  rewrite (object_at_intro _ _ _ Htext (py_get_Ok_dict _ _ _ _ Htt)).
  rewrite (object_at_intro _ _ _ Hsocial (py_get_Ok_dict _ _ _ _ Hshare)).
  rewrite (object_at_intro _ _ _ Hactor (py_get_Ok_dict _ _ _ _ Hname)).
  rewrite (object_at_intro _ _ _ Hnav (py_get_Ok_dict _ _ _ _ Htarget)).
  reflexivity.
Qed.

Lemma extract_loop_unreadable (m : gmap pykey json) (included e item : json)
    (k : pykey) :
  (forall k item, m !! k = Some item -> indexed_under k item = true) ->
  hash_key e = Ok k ->
  m !! k = Some item ->
  readable_entity item = false ->
  forall refs idx posts,
  e ∈ refs -> extract_loop m included idx refs posts = Raise.
Proof.
  intros Hm Hk Hl Hunread.
  induction refs as [ | x rest IH ]; intros idx posts Hin.
  - apply elem_of_nil in Hin. destruct Hin.
  - apply elem_of_cons in Hin as [ <- | Hin ].
    + cbn [extract_loop]. rewrite Hk. cbn [bind]. rewrite Hl.
      destruct (ExtractSpec.indexed_under_inv k item (Hm k item Hl)) as (Ht & _).
      rewrite Ht. cbn [negb].
      destruct (assemble_post item included idx) as [ p | ] eqn:Hp; [ | reflexivity ].
      apply assemble_post_readable in Hp. congruence.
    + cbn [extract_loop].
      destruct (hash_key x) as [ kx | ]; [ cbn [bind] | reflexivity ].
      destruct (m !! kx) as [ ix | ].
      * destruct (truthy ix); cbn [negb].
        -- destruct (assemble_post ix included idx); [ cbn [bind] | reflexivity ].
           apply IH. exact Hin.
        -- destruct (sliceable x); [ apply IH; exact Hin | reflexivity ].
      * destruct (sliceable x); [ apply IH; exact Hin | reflexivity ].
Qed.

Lemma py_iter_truthy (v : json) (x : json) (l : list json) :
  py_iter v = Ok (x :: l) -> truthy v = true.
Proof.
  destruct v as [ | | | s | l' | d ]; simpl; intros H; try discriminate H.
  - destruct s; [ discriminate H | reflexivity ].
  - injection H as ->. reflexivity.
  - destruct d; [ discriminate H | reflexivity ].
Qed.

(** X8.  One entity that cannot be read empties the page: when a reference
    of the page resolves to an entity with a field read through that is
    present and is not an object (a [null] commentary, say), the extraction
    raises and the page yields no post at all, whatever the other entities
    are. *)
Theorem unreadable_entity_empties_page (activity_data : json)
    (m : gmap pykey json) (e item : json) (k : pykey) :
  page_index activity_data = Ok m ->
  e ∈ page_refs activity_data ->
  hash_key e = Ok k ->
  m !! k = Some item ->
  readable_entity item = false ->
  extract_posts_from_response activity_data = [].
Proof.
  unfold page_index, page_refs, extract_posts_from_response, extract_posts_body.
  intros Hindex Hin Hk Hl Hunread.
  destruct (feed_of activity_data) as [ feed | ]; [ cbn [bind] in * | reflexivity ].
  destruct (py_get feed "*elements" empty_list) as [ elements | ];
    [ cbn [bind] in * | reflexivity ].
  destruct (truthy elements); [ cbn [negb] | reflexivity ].
  bind_inv Hindex. rename v into included. rewrite Hv. cbn [bind].
  destruct (truthy included); [ cbn [negb] | reflexivity ].
  bind_inv Hindex. rename v into entities. rewrite Hv0. cbn [bind].
  rewrite Hindex. cbn [bind].
  destruct (py_iter elements) as [ refs | ]; [ cbn [bind try_except] in * | reflexivity ].
  rewrite (extract_loop_unreadable m included e item k); try assumption;
    [ reflexivity | ].
  eapply ExtractSpec.build_post_lookup_keys; [ exact Hindex | ].
  intros k' item' Hl'. rewrite lookup_empty in Hl'. discriminate.
Qed.

Lemma unreadable_entity_empties_page_witness :
  let item := More.null_commentary "urn:b" in
  let page :=
    Examples.page_of [JStr "urn:a"; JStr "urn:b"]
      [Examples.update "urn:a" "a post with text" ""; item] in
  exists m,
    page_index page = Ok m /\
    m !! (Some (inl "urn:b") : pykey) = Some item /\
    readable_entity item = false /\
    extract_posts_from_response page = [].
Proof.
  intros item page.
  destruct (page_index page) as [ m | ] eqn:Hm; [ | discriminate Hm ].
  exists m.
  assert (Hl : m !! (Some (inl "urn:b") : pykey) = Some item).
  { vm_compute in Hm. injection Hm as <-. vm_compute. reflexivity. }
  split; [ reflexivity | ]. split; [ exact Hl | ]. split; [ reflexivity | ].
  refine (unreadable_entity_empties_page page m (JStr "urn:b") item
            (Some (inl "urn:b")) Hm _ eq_refl Hl eq_refl).
  right. left.
Defined.

(** X9.  Media cannot fail a post: an entity that can be read through is
    assembled whatever its content holds, and when the content is present
    and is not an object (a [null] content, say) the post has no video and
    no image. *)
Theorem media_never_fails_a_post (item included : json) (idx : Z) :
  readable_entity item = true ->
  exists p,
    assemble_post item included idx = Ok p /\
    video_url_640p p = extract_video_url item included true /\
    image_urls p = extract_image_urls item /\
    (forall content,
        py_get item "content" empty_dict = Ok content ->
        is_dict content = false ->
        video_url_640p p = empty_str /\ image_urls p = []).
Proof.
  intros Hread.
  destruct (ExtractSpec.assemble_post_total item included idx Hread) as (p & Hp).
  exists p. split; [ exact Hp | ].
  assert (Hfields : video_url_640p p = extract_video_url item included true /\
                    image_urls p = extract_image_urls item).
  { unfold assemble_post in Hp. repeat bind_inv Hp. injection Hp as <-.
    split; reflexivity. }
  destruct Hfields as [ Hvideo Himages ].
  split; [ exact Hvideo | ]. split; [ exact Himages | ].
  intros content Hcontent Hnot. rewrite Hvideo, Himages.
  unfold extract_video_url, extract_image_urls. rewrite Hcontent. cbn [bind].
  destruct content; try discriminate Hnot; split; reflexivity.
Qed.

Lemma media_never_fails_a_post_witness :
  let item := More.null_content "urn:a" "some text" in
  readable_entity item = true /\
  exists p,
    assemble_post item (JList [item]) 1 = Ok p /\
    video_url_640p p = extract_video_url item (JList [item]) true /\
    image_urls p = extract_image_urls item /\
    (forall content,
        py_get item "content" empty_dict = Ok content ->
        is_dict content = false ->
        video_url_640p p = empty_str /\ image_urls p = []).
Proof.
  intros item. split; [ reflexivity | ].
  exact (media_never_fails_a_post item (JList [item]) 1 eq_refl).
Defined.

End ExtractMore.

(** ** Media, image by image and stream by stream *)

Module MediaMore.
Import Py Fetcher Spec More PyFacts.

Lemma image_urls_loop_resolved (images : list json) :
  forall image_urls,
  image_urls_loop images image_urls = image_urls ++ flat_map resolved images.
Proof.
  induction images as [ | image rest IH ]; intros image_urls.
  - symmetry. apply app_nil_r.
  - cbn [image_urls_loop flat_map]. unfold resolved at 1.
    destruct (image_url image) as [ [ url | ] | ]; rewrite IH.
    + rewrite <- app_assoc. reflexivity.
    + reflexivity.
    + reflexivity.
Qed.

(** X10.  The images of a post are resolved one by one and in their order:
    the URLs of a post are those its image elements contribute, each
    element giving one URL or none, so that an element that cannot be
    resolved takes nothing from the others; there are never more URLs than
    elements. *)
Theorem images_resolved_independently (item : json) (images : list json) :
  images_of item = Ok (JList images) ->
  extract_image_urls item = flat_map resolved images /\
  (length (extract_image_urls item) <= length images)%nat.
Proof.
  intros Himages.
  assert (Heq : extract_image_urls item = flat_map resolved images).
  { unfold images_of in Himages.
    apply bind_Ok in Himages as (content & Hcontent & Himages).
    apply bind_Ok in Himages as (component & Hcomponent & Himages).
    unfold extract_image_urls. rewrite Hcontent. cbn [bind].
    rewrite Hcomponent. cbn [bind]. rewrite Himages. cbn [bind].
    destruct images as [ | image rest ]; [ reflexivity | ].
    cbn [truthy negb py_iter bind try_except].
    apply (image_urls_loop_resolved (image :: rest) []). }
  split; [ exact Heq | ]. rewrite Heq. clear.
  induction images as [ | image rest IH ]; [ reflexivity | ].
  cbn [flat_map]. rewrite length_app. unfold resolved at 1.
  destruct (image_url image) as [ [ url | ] | ]; simpl length; lia.
Qed.

Lemma images_resolved_independently_witness :
  let good := Examples.image_of "https://media.example/" Examples.three_sizes in
  let bad := JDict [("attributes", JNull)] in
  let item := Examples.post_with_images [bad; good; JNum 7; good] in
  images_of item = Ok (JList [bad; good; JNum 7; good]) /\
  extract_image_urls item = flat_map resolved [bad; good; JNum 7; good] /\
  (length (extract_image_urls item) <= 4)%nat.
Proof.
  intros good bad item. split; [ reflexivity | ].
  exact (images_resolved_independently item [bad; good; JNum 7; good] eq_refl).
Defined.

(** Two elements that cannot be resolved among four: the two others give
    their URL. *)
Example two_images_of_four :
  extract_image_urls
    (Examples.post_with_images
       [JDict [("attributes", JNull)];
        Examples.image_of "https://media.example/" Examples.three_sizes;
        JNum 7;
        Examples.image_of "https://cdn.example/" [Examples.artifact 100 "x.png"]]) =
  [JStr "https://media.example/large.jpg"; JStr "https://cdn.example/x.png"].
Proof. vm_compute. reflexivity. Qed.

(** *** The stream the scan settles on *)

Lemma scan_usable_cons (t : json * json * json) (us : list (json * json * json))
    (acc : video_urls) :
  scan_usable (t :: us) acc =
  scan_usable us (scan_step acc (fst (fst t)) (snd (fst t)) (snd t)).
Proof. reflexivity. Qed.

Lemma scan_usable_640_last (us : list (json * json * json)) :
  forall acc,
  url_640p (scan_usable us acc) =
  match last (List.filter (stream_has 640) us) with
  | Some t => snd t
  | None => url_640p acc
  end.
Proof.
  induction us as [ | t us IH ]; intros acc; [ reflexivity | ].
  rewrite scan_usable_cons, IH, IndexSpec.last_filter_cons.
  destruct (last (List.filter (stream_has 640) us)); [ reflexivity | ].
  unfold stream_has at 1. cbn [scan_step url_640p].
  destruct (has_dim 640 (fst (fst t)) (snd (fst t))); reflexivity.
Qed.

Lemma scan_usable_720_last (us : list (json * json * json)) :
  forall acc,
  url_720p (scan_usable us acc) =
  match last (List.filter (stream_has 720) us) with
  | Some t => snd t
  | None => url_720p acc
  end.
Proof.
  induction us as [ | t us IH ]; intros acc; [ reflexivity | ].
  rewrite scan_usable_cons, IH, IndexSpec.last_filter_cons.
  destruct (last (List.filter (stream_has 720) us)); [ reflexivity | ].
  unfold stream_has at 1. cbn [scan_step url_720p].
  destruct (has_dim 720 (fst (fst t)) (snd (fst t))); reflexivity.
Qed.

Lemma last_filter_truthy (f : json * json * json -> bool)
    (us : list (json * json * json)) (t : json * json * json) :
  Forall (fun t => truthy (snd t) = true) us ->
  last (List.filter f us) = Some t -> truthy (snd t) = true.
Proof.
  intros Hall Hlast. rewrite Forall_forall in Hall. apply Hall.
  apply last_Some_elem_of in Hlast. apply list_elem_of_In in Hlast.
  apply filter_In in Hlast as [ Hin _ ]. apply list_elem_of_In. exact Hin.
Qed.

(** The choice among the three candidates. *)
Lemma pick_preferred (prefer_640p : bool) (us : list (json * json * json)) :
  Forall (fun t => truthy (snd t) = true) us ->
  pick_video_url prefer_640p (scan_usable us no_video_urls) =
  match preferred_stream prefer_640p us with
  | Some t => snd t
  | None => empty_str
  end.
Proof.
  intros Hall. unfold pick_video_url, preferred_stream, py_or.
  rewrite scan_usable_640_last, scan_usable_720_last.
  rewrite (VideoSpec.scan_usable_fallback us Hall). cbn [no_video_urls url_640p url_720p url_fallback].
  destruct (last (List.filter (stream_has 640) us)) as [ t6 | ] eqn:H6;
    destruct (last (List.filter (stream_has 720) us)) as [ t7 | ] eqn:H7;
    destruct prefer_640p;
    try rewrite (last_filter_truthy _ us t6 Hall H6);
    try rewrite (last_filter_truthy _ us t7 Hall H7);
    try reflexivity;
    cbn [truthy empty_str String.eqb negb];
    try rewrite (last_filter_truthy _ us t6 Hall H6);
    try rewrite (last_filter_truthy _ us t7 Hall H7);
    try reflexivity;
    destruct us as [ | t us' ]; try reflexivity;
    apply Forall_cons in Hall as [ Ht _ ]; cbn [head]; rewrite Ht; reflexivity.
Qed.

(** X11.  The stream a video URL is taken from: among the streams that
    have a URL, the last one of the preferred size (640 or, when 640 is not
    preferred, 720), else the last one of the other size, else the first
    stream; the result is the empty string when no stream has a URL. *)
Theorem video_url_of_preferred_stream (item included video_ref : json)
    (entities : list json) (video_metadata : json) (streams : list json)
    (us : list (json * json * json)) (prefer_640p : bool) :
  video_ref_of item = Ok video_ref ->
  truthy video_ref = true ->
  py_iter included = Ok entities ->
  find_video_metadata video_ref entities = Ok (Some video_metadata) ->
  py_get video_metadata "progressiveStreams" empty_list = Ok (JList streams) ->
  usable_streams streams = Ok us ->
  extract_video_url item included prefer_640p =
  match preferred_stream prefer_640p us with
  | Some t => snd t
  | None => empty_str
  end.
Proof.
  intros Href Htruthy Hentities Hfind Hstreams Hus.
  unfold video_ref_of in Href.
  apply bind_Ok in Href as (content & Hcontent & Href).
  apply bind_Ok in Href as (component & Hcomponent & Href).
  unfold extract_video_url. rewrite Hcontent. cbn [bind].
  rewrite Hcomponent. cbn [bind]. rewrite Href. cbn [bind].
  rewrite Htruthy. cbn [negb]. rewrite Hentities. cbn [bind].
  rewrite Hfind. cbn [bind].
  rewrite (VideoSpec.find_video_metadata_truthy _ _ _ Htruthy Hfind). cbn [negb].
  rewrite Hstreams. cbn [bind].
  destruct streams as [ | stream rest ].
  - simpl in Hus. injection Hus as <-. destruct prefer_640p; reflexivity.
  - cbn [truthy negb py_iter bind].
    rewrite (VideoSpec.scan_streams_usable _ no_video_urls us Hus).
    cbn [bind try_except].
    apply pick_preferred. eapply VideoSpec.usable_streams_truthy. exact Hus.
Qed.

Lemma video_url_of_preferred_stream_witness :
  let item := Examples.post_with_video "urn:meta" in
  let streams := [Examples.s640; Examples.s360; Examples.s720; Examples.s640] in
  let included := Examples.video_included streams in
  exists us,
    usable_streams streams = Ok us /\
    extract_video_url item included false =
    match preferred_stream false us with
    | Some t => snd t
    | None => empty_str
    end.
Proof.
  intros item streams included.
  destruct (usable_streams streams) as [ us | ] eqn:Hus; [ | discriminate Hus ].
  exists us. split; [ reflexivity | ].
  exact (video_url_of_preferred_stream item included (JStr "urn:meta")
           [Examples.update "urn:other" "text" "";
            Examples.play_metadata "urn:meta" streams]
           (Examples.play_metadata "urn:meta" streams) streams us false
           eq_refl eq_refl eq_refl eq_refl eq_refl Hus).
Defined.

(** Two streams of width 640: the URL is the one of the second. *)
Example last_640_stream_wins :
  extract_video_url (Examples.post_with_video "urn:meta")
    (Examples.video_included
       [Examples.stream 640 360 "https://v.example/first.mp4";
        Examples.s360;
        Examples.stream 360 640 "https://v.example/second.mp4"]) true =
  JStr "https://v.example/second.mp4".
Proof. vm_compute. reflexivity. Qed.

End MediaMore.

(** ** Downloads *)

Module DownloadMore.
Import Py Fetcher Media Spec More PyFacts.

Lemma requests_from_step (pause attempt : Z) (k : nat) :
  (0 < k)%nat ->
  requests_from pause attempt (S k) =
  Requested attempt :: Slept pause :: requests_from pause (attempt + 1) k.
Proof. destruct k; [ lia | reflexivity ]. Qed.

(** The loop from any turn, the turns left being those up to
    [max_retries]. *)
Lemma attempts_from_trace (respond : Z -> outcome) (pause max_retries : Z)
    (turns : nat) :
  forall attempt trace,
  Z.of_nat turns = max_retries - attempt ->
  exists k : nat,
    (k <= turns)%nat /\
    snd (attempts_from respond pause max_retries turns attempt trace) =
      trace ++ requests_from pause attempt k /\
    (fst (attempts_from respond pause max_retries turns attempt trace) = true ->
     (0 < k)%nat /\ respond (attempt + Z.of_nat k - 1) = Saved /\
     none_saved respond attempt (attempt + Z.of_nat k - 1)) /\
    (fst (attempts_from respond pause max_retries turns attempt trace) = false ->
     k = turns /\ none_saved respond attempt (attempt + Z.of_nat k)).
Proof.
  induction turns as [ | turns IH ]; intros attempt trace Hturns.
  - exists 0%nat. cbn. rewrite app_nil_r.
    repeat split; try lia; try discriminate. intros i Hi. lia.
  - cbn [attempts_from].
    destruct (respond attempt) eqn:Hresp.
    + exists 1%nat. cbn [fst snd requests_from].
      split; [ lia | ]. split; [ reflexivity | ]. split; [ | discriminate ].
      intros _. split; [ lia | ].
      split; [ replace (attempt + Z.of_nat 1 - 1) with attempt by lia; exact Hresp | ].
      intros i Hi. lia.
    + destruct (attempt <? max_retries - 1) eqn:Hlast.
      * apply Z.ltb_lt in Hlast.
        destruct (IH (attempt + 1) ((trace ++ [Requested attempt]) ++ [Slept pause]))
          as (k & Hk & Htrace & Hok & Hno); [ lia | ].
        assert (Hpos : (0 < k)%nat).
        { destruct (fst (attempts_from respond pause max_retries turns (attempt + 1)
                           ((trace ++ [Requested attempt]) ++ [Slept pause]))) eqn:E.
          - apply Hok. reflexivity.
          - destruct (Hno eq_refl) as [ -> _ ]. lia. }
        exists (S k). split; [ lia | ].
        split; [ rewrite Htrace, requests_from_step, <- !app_assoc by exact Hpos;
                 reflexivity | ].
        split.
        -- intros E. destruct (Hok E) as (_ & Hsaved & Hnone).
           split; [ lia | ].
           split; [ replace (attempt + Z.of_nat (S k) - 1)
                      with (attempt + 1 + Z.of_nat k - 1) by lia; exact Hsaved | ].
           intros i Hi. destruct (Z.eq_dec i attempt) as [ -> | Hne ];
             [ congruence | apply Hnone; lia ].
        -- intros E. destruct (Hno E) as [ -> Hnone ].
           split; [ reflexivity | ].
           intros i Hi. destruct (Z.eq_dec i attempt) as [ -> | Hne ];
             [ congruence | apply Hnone; lia ].
      * apply Z.ltb_ge in Hlast. exists 1%nat. cbn [fst snd requests_from].
        split; [ lia | ]. split; [ reflexivity | ]. split; [ discriminate | ].
        intros _. split; [ lia | ].
        intros i Hi. assert (i = attempt) by lia. congruence.
    + destruct (attempt <? max_retries - 1) eqn:Hlast.
      * apply Z.ltb_lt in Hlast.
        destruct (IH (attempt + 1) ((trace ++ [Requested attempt]) ++ [Slept pause]))
          as (k & Hk & Htrace & Hok & Hno); [ lia | ].
        assert (Hpos : (0 < k)%nat).
        { destruct (fst (attempts_from respond pause max_retries turns (attempt + 1)
                           ((trace ++ [Requested attempt]) ++ [Slept pause]))) eqn:E.
          - apply Hok. reflexivity.
          - destruct (Hno eq_refl) as [ -> _ ]. lia. }
        exists (S k). split; [ lia | ].
        split; [ rewrite Htrace, requests_from_step, <- !app_assoc by exact Hpos;
                 reflexivity | ].
        split.
        -- intros E. destruct (Hok E) as (_ & Hsaved & Hnone).
           split; [ lia | ].
           split; [ replace (attempt + Z.of_nat (S k) - 1)
                      with (attempt + 1 + Z.of_nat k - 1) by lia; exact Hsaved | ].
           intros i Hi. destruct (Z.eq_dec i attempt) as [ -> | Hne ];
             [ congruence | apply Hnone; lia ].
        -- intros E. destruct (Hno E) as [ -> Hnone ].
           split; [ reflexivity | ].
           intros i Hi. destruct (Z.eq_dec i attempt) as [ -> | Hne ];
             [ congruence | apply Hnone; lia ].
      * apply Z.ltb_ge in Hlast. exists 1%nat. cbn [fst snd requests_from].
        split; [ lia | ]. split; [ reflexivity | ]. split; [ discriminate | ].
        intros _. split; [ lia | ].
        intros i Hi. assert (i = attempt) by lia. congruence.
Qed.

(** X12.  A download makes its requests one after the other, with a pause
    between two of them and none after the last; it stops at the first
    request that saves the file and returns [True], and otherwise makes
    [max_retries] requests (none when [max_retries] is not positive) and
    returns [False].  So it succeeds exactly when one of the first
    [max_retries] attempts does. *)
Theorem download_retries (pause : Z) (respond : Z -> outcome) (max_retries : Z) :
  let ok := fst (download_with pause respond max_retries) in
  let trace := snd (download_with pause respond max_retries) in
  (exists k : nat,
      Z.of_nat k <= Z.max 0 max_retries /\
      trace = requests_from pause 0 k /\
      (ok = true ->
       (0 < k)%nat /\ respond (Z.of_nat k - 1) = Saved /\
       none_saved respond 0 (Z.of_nat k - 1)) /\
      (ok = false ->
       Z.of_nat k = Z.max 0 max_retries /\ none_saved respond 0 max_retries)) /\
  (ok = true <-> exists i, 0 <= i < max_retries /\ respond i = Saved).
Proof.
  intros ok trace. subst ok trace. unfold download_with.
  destruct (Z.le_gt_cases max_retries 0) as [ Hle | Hgt ].
  - replace (Z.to_nat max_retries) with 0%nat by lia. cbn. split.
    + exists 0%nat. repeat split; try lia; try discriminate.
      intros i Hi. lia.
    + split; [ discriminate | intros (i & Hi & _); lia ].
  - destruct (attempts_from_trace respond pause max_retries (Z.to_nat max_retries) 0 [])
      as (k & Hk & Htrace & Hok & Hno); [ lia | ].
    cbn [app] in Htrace. rewrite !Z.add_0_l in *.
    split.
    + exists k. split; [ lia | ]. split; [ exact Htrace | ].
      split; [ exact Hok | ].
      intros E. destruct (Hno E) as [ -> Hnone ]. split; [ lia | ].
      intros i Hi. apply Hnone. lia.
    + split.
      * intros E. destruct (Hok E) as (Hpos & Hsaved & _).
        exists (Z.of_nat k - 1). split; [ lia | exact Hsaved ].
      * intros (i & Hi & Hsaved).
        destruct (fst (attempts_from respond pause max_retries
                         (Z.to_nat max_retries) 0 [])) eqn:E; [ reflexivity | ].
        destruct (Hno eq_refl) as [ -> Hnone ]. exfalso.
        apply (Hnone i); [ lia | exact Hsaved ].
Qed.

(** An image saved at the third attempt of three: three requests and two
    pauses of a second; a video never saved: three requests, two pauses of
    two seconds. *)
Example image_saved_at_third_attempt :
  download_image (saved_at 2) 3 =
  (true, [Requested 0; Slept 1; Requested 1; Slept 1; Requested 2]).
Proof. reflexivity. Qed.

Example video_never_saved :
  download_video (fun _ => Failed) 3 =
  (false, [Requested 0; Slept 2; Requested 1; Slept 2; Requested 2]).
Proof. reflexivity. Qed.

End DownloadMore.

(** ** The media summary and the download statistics *)

Module SummaryMore.
Import Py Fetcher Media Spec More PyFacts.

Lemma fold_add_from (l : list Z) (a : Z) :
  fold_left Z.add l a = a + fold_left Z.add l 0.
Proof.
  revert a. induction l as [ | x l IH ]; intros a; cbn [fold_left].
  - lia.
  - rewrite (IH (a + x)), (IH (0 + x)). lia.
Qed.

Lemma count_cons (f : post_info -> bool) (post : post_info) (posts : list post_info) :
  count f (post :: posts) = (if f post then 1 else 0) + count f posts.
Proof.
  unfold count. cbn [List.filter]. destruct (f post); cbn [length]; lia.
Qed.

Lemma count_nonneg (f : post_info -> bool) (posts : list post_info) :
  0 <= count f posts.
Proof. unfold count. lia. Qed.

Lemma has_images_length (post : post_info) :
  (if has_images post then 1 else 0) <= Z.of_nat (length (image_urls post)) /\
  (has_images post = false -> length (image_urls post) = 0%nat).
Proof.
  unfold has_images. destruct (image_urls post); cbn [length]; split; try lia;
    try reflexivity; discriminate.
Qed.

(** X13.  The counts of the media summary fit together: every post is
    counted either with media or without, a post with a video or with images
    is one with media, there are no more posts with media than posts with a
    video and posts with images together, every post with images has at
    least one, [total_images] is the sum of the [image_count] of the posts,
    and the summary lists one entry per post, numbered as the post. *)
Theorem media_summary_counts (all_posts : list post_info) (username now : string) :
  let s := create_media_summary all_posts username now in
  posts_with_any_media s + posts_without_media s = total_posts s /\
  posts_with_video s <= posts_with_any_media s /\
  posts_with_images s <= posts_with_any_media s /\
  posts_with_any_media s <= posts_with_video s + posts_with_images s /\
  posts_with_images s <= total_images s /\
  total_images s = fold_left Z.add (map summary_image_count (summary_posts s)) 0 /\
  map summary_post_number (summary_posts s) = map post_order all_posts /\
  (posts_with_images s = 0 -> total_images s = 0).
Proof.
  cbn zeta. unfold create_media_summary.
  cbn [total_posts posts_with_video posts_with_images posts_with_any_media
       posts_without_media total_images summary_posts].
  induction all_posts as [ | post posts IH ].
  - unfold count. cbn. repeat split; try reflexivity; lia.
  - destruct IH as (Hall & Hvideo & Himages & Hany & Htotal & Hsum & Horders & Hzero).
    rewrite !count_cons. cbn [map fold_left length].
    rewrite (fold_add_from _ (0 + _)).
    rewrite (fold_add_from (map summary_image_count _) (0 + _)).
    cbn [summary_of summary_image_count summary_post_number].
    pose proof (has_images_length post) as [ Hone Hnone ].
    pose proof (count_nonneg has_images posts) as Hpos.
    rewrite <- Hsum, Horders.
    destruct (has_video post), (has_images post); cbn [orb andb negb] in *;
      (repeat split; try lia; try reflexivity).
Qed.

Section Downloads.
Variable net : downloads.

Local Abbreviation download_images := (Media.download_images net).
Local Abbreviation download_post := (Media.download_post net).

Lemma download_images_stats (post_number : Z) (urls : list json) :
  forall idx st,
  counted st ->
  counted (download_images post_number idx urls st) /\
  texts_of (download_images post_number idx urls st) = texts_of st /\
  images_of_stats (download_images post_number idx urls st) =
    images_of_stats st + Z.of_nat (length urls) /\
  videos_of (download_images post_number idx urls st) = videos_of st.
Proof.
  induction urls as [ | url urls IH ]; intros idx st Hst; cbn [Media.download_images].
  - repeat split; try apply Hst; cbn [length]; lia.
  - match goal with |- context [ count_image ?b st ] => set (ok := b) end.
    assert (Hnext : counted (count_image ok st)).
    { unfold counted, count_image in *. cbn. destruct ok; lia. }
    destruct (IH (idx + 1) (count_image ok st) Hnext) as (Hc & Ht & Hi & Hv).
    split; [ exact Hc | ].
    rewrite Ht, Hi, Hv. unfold texts_of, images_of_stats, videos_of, count_image.
    cbn. destruct ok; cbn [length]; repeat split; lia.
Qed.

Lemma download_post_stats (post : post_info) (st : stats) :
  counted st ->
  counted (download_post post st) /\
  texts_of (download_post post st) =
    texts_of st + (if truthy (post_text post) then 1 else 0) /\
  images_of_stats (download_post post st) =
    images_of_stats st + Z.of_nat (length (image_urls post)) /\
  videos_of (download_post post st) =
    videos_of st + (if has_video post then 1 else 0).
Proof.
  intros Hst. unfold Media.download_post, has_video. cbn zeta.
  set (st1 := if truthy (post_text post) then _ else st).
  assert (H1 : counted st1 /\
               texts_of st1 = texts_of st + (if truthy (post_text post) then 1 else 0) /\
               images_of_stats st1 = images_of_stats st /\
               videos_of st1 = videos_of st).
  { subst st1. destruct (truthy (post_text post)).
    - unfold counted, texts_of, images_of_stats, videos_of, count_text in *. cbn.
      destruct (save_post_text net (post_text post) (post_order post)); lia.
    - repeat split; try apply Hst; lia. }
  destruct H1 as (Hc1 & Ht1 & Hi1 & Hv1).
  destruct (download_images_stats (post_order post) (image_urls post) 1 st1 Hc1)
    as (Hc2 & Ht2 & Hi2 & Hv2).
  set (st2 := download_images (post_order post) 1 (image_urls post) st1) in *.
  destruct (truthy (video_url_640p post)).
  - match goal with |- context [ count_video ?b st2 ] => set (ok := b) end.
    unfold counted, texts_of, images_of_stats, videos_of, count_video in *. cbn.
    destruct ok; lia.
  - repeat split; try apply Hc2; lia.
Qed.

Lemma download_all_stats (posts : list post_info) :
  forall st,
  counted st ->
  let final := fold_left (fun st post => download_post post st) posts st in
  counted final /\
  texts_of final = texts_of st + count (fun post => truthy (post_text post)) posts /\
  images_of_stats final =
    images_of_stats st +
    fold_left Z.add (map (fun post => Z.of_nat (length (image_urls post))) posts) 0 /\
  videos_of final = videos_of st + count has_video posts.
Proof.
  induction posts as [ | post posts IH ]; intros st Hst; cbn zeta; cbn [fold_left map].
  - unfold count. cbn. repeat split; try apply Hst; lia.
  - destruct (download_post_stats post st Hst) as (Hc & Ht & Hi & Hv).
    destruct (IH _ Hc) as (Hc' & Ht' & Hi' & Hv'). cbn zeta in *.
    split; [ exact Hc' | ].
    rewrite Ht', Hi', Hv', Ht, Hi, Hv, !count_cons, (fold_add_from _ (0 + _)).
    repeat split; lia.
Qed.

(** X14.  Whatever the disk and the network do, a run of the downloads
    that goes through all the posts (nothing raises outside the attempts,
    which catch what they raise) accounts for every file of the posts once: each post with a text is
    counted as a text saved or failed, each image as downloaded or failed,
    each post with a video as a video downloaded or failed; so the image and
    video statistics add up to [total_images] and [posts_with_video] of the
    media summary of the same posts, and no counter is negative. *)
Theorem downloads_account_for_summary (all_posts_data : list post_info)
    (username now : string) :
  let st := download_media_for_posts net all_posts_data in
  let s := create_media_summary all_posts_data username now in
  text_saved st + text_failed st =
    count (fun post => truthy (post_text post)) all_posts_data /\
  images_downloaded st + images_failed st = total_images s /\
  videos_downloaded st + videos_failed st = posts_with_video s /\
  counted st.
Proof.
  cbn zeta. unfold download_media_for_posts.
  assert (H0 : counted no_stats) by (unfold counted, no_stats; cbn; lia).
  destruct (download_all_stats all_posts_data no_stats H0) as (Hc & Ht & Hi & Hv).
  cbn zeta in *. unfold texts_of, images_of_stats, videos_of in *.
  cbn [no_stats text_saved text_failed images_downloaded images_failed
       videos_downloaded videos_failed] in Ht, Hi, Hv.
  unfold create_media_summary. cbn [total_images posts_with_video].
  repeat split; try apply Hc; lia.
Qed.

End Downloads.

(** Two posts, three images and one video on a network that saves images at
    the second attempt and never a video. *)
Example slow_network_statistics :
  download_media_for_posts slow_network [media_post 1 2 "v"; media_post 2 1 ""] =
  {| text_saved := 0; text_failed := 2; images_downloaded := 3; images_failed := 0;
     videos_downloaded := 0; videos_failed := 1 |}.
Proof. vm_compute. reflexivity. Qed.

End SummaryMore.

(** ** The traversal of the parser *)

Module ParserMore.
Import Py Parser More PyFacts.

Section Enhanced.
Variable py_str : json -> string.
Variable py_hash : Z -> string -> Z.
Variable hash_secret : Z.
Variable MediaInfo : Type.
Variable extract_media : json -> result (list MediaInfo).

Local Abbreviation PostInfo := (PostInfo MediaInfo).
Local Abbreviation parse_state := (parse_state MediaInfo).
Local Abbreviation post_id := (post_id MediaInfo).
Local Abbreviation extract_id := (_extract_post_id py_str py_hash hash_secret).
Local Abbreviation node_id := (node_id py_str py_hash hash_secret).
Local Abbreviation visit := (visit py_str py_hash hash_secret MediaInfo extract_media).
Local Abbreviation parse := (parse_posts_enhanced py_str py_hash hash_secret MediaInfo extract_media).
Local Abbreviation visit_all := (visit_all py_str py_hash hash_secret MediaInfo extract_media).

Lemma assemble_meaningful (post_data : json) (id : string) (p : PostInfo) :
  assemble MediaInfo extract_media post_data id = Ok (Some p) ->
  post_id p = id /\ meaningful p.
Proof.
  unfold assemble. intros H. repeat bind_inv H.
  match type of H with
  | (if truthy ?t then _ else _) = _ =>
      destruct (truthy t); [ | discriminate H ];
      destruct t as [ | | | s | | ] eqn:Ht; try discriminate H
  end.
  match type of H with
  | Ok (if ?c then _ else _) = _ => destruct c eqn:Hlen; [ | discriminate H ]
  end.
  injection H as <-. split; [ reflexivity | ].
  exists s. cbn [Parser.post_text]. split; [ reflexivity | ].
  apply Nat.ltb_lt. exact Hlen.
Qed.

(** Meeting one dictionary: its identity, when it has one, joins the set,
    and at most one post, of that identity, joins the posts. *)
Lemma visit_step (data : json) (posts : list PostInfo) (seen : gset string) :
  exists new,
    visit data (posts, seen) =
      (posts ++ new, seen ∪ list_to_set (option_list (node_id data))) /\
    map post_id new `sublist_of` option_list (node_id data) /\
    Forall meaningful new.
Proof.
  unfold Parser.visit, Parser.node_id, _parse_single_post_enhanced. cbn [fst snd].
  destruct (py_eq (get_or_none data "$type") (JStr Fetcher.UPDATE_TYPE)).
  - destruct (extract_id data) as [ id | ].
    + case_bool_decide as Hseen.
      * exists []. rewrite app_nil_r. cbn [option_list map].
        split; [ f_equal; set_solver | ].
        split; [ apply sublist_nil_l | constructor ].
      * destruct (assemble MediaInfo extract_media data id)
          as [ [ p | ] | ] eqn:Hp; cbn [try_except].
        -- destruct (assemble_meaningful data id p Hp) as [ Hid Hmean ].
           exists [p]. cbn [option_list map]. rewrite Hid.
           split; [ f_equal; set_solver | ].
           split; [ reflexivity | repeat constructor; exact Hmean ].
        -- exists []. rewrite app_nil_r. cbn [option_list map].
           split; [ f_equal; set_solver | ].
           split; [ apply sublist_nil_l | constructor ].
        -- exists []. rewrite app_nil_r. cbn [option_list map].
           split; [ f_equal; set_solver | ].
           split; [ apply sublist_nil_l | constructor ].
    + exists []. rewrite app_nil_r. cbn [option_list map].
      split; [ f_equal; set_solver | ].
      split; [ apply sublist_nil_l | constructor ].
  - exists []. rewrite app_nil_r. cbn [option_list map].
    split; [ f_equal; set_solver | ].
    split; [ apply sublist_nil_l | constructor ].
Qed.

Lemma omap_cons_option_list (data : json) (nodes : list json) :
  omap node_id (data :: nodes) = option_list (node_id data) ++ omap node_id nodes.
Proof. cbn [omap list_omap]. destruct (node_id data); reflexivity. Qed.

Lemma visit_all_trace (nodes : list json) :
  forall (posts : list PostInfo) (seen : gset string),
  exists new,
    visit_all nodes (posts, seen) =
      (posts ++ new, seen ∪ list_to_set (omap node_id nodes)) /\
    map post_id new `sublist_of` omap node_id nodes /\
    Forall meaningful new.
Proof.
  induction nodes as [ | data nodes IH ]; intros posts seen.
  - exists []. rewrite app_nil_r. cbn.
    split; [ f_equal; set_solver | ]. split; [ constructor | constructor ].
  - destruct (visit_step data posts seen) as (new1 & Hvisit & Hsub1 & Hmean1).
    destruct (IH (posts ++ new1) (seen ∪ list_to_set (option_list (node_id data))))
      as (new2 & Hall & Hsub2 & Hmean2).
    exists (new1 ++ new2).
    unfold Parser.visit_all in *. cbn [fold_left]. rewrite Hvisit, Hall.
    rewrite omap_cons_option_list.
    split; [ rewrite <- app_assoc; f_equal; rewrite list_to_set_app_L; set_solver | ].
    split; [ rewrite map_app; apply sublist_app; assumption | ].
    apply Forall_app. split; assumption.
Qed.

(** X15.  After a pass of the parser the set of identities is the set
    before the pass together with the identities of all the updates the
    traversal met, whether they gave a post, were rejected for their text or
    failed to parse: an update that is rejected still uses up its
    identity. *)
Theorem seen_records_every_update (data : json) (seen : gset string) :
  snd (parse data seen) = seen ∪ list_to_set (omap node_id (dict_nodes data)).
Proof.
  unfold parse_posts_enhanced.
  rewrite (ParserSpec.search_visit_all py_str py_hash hash_secret MediaInfo extract_media).
  destruct (visit_all_trace (dict_nodes data) [] seen) as (new & Hall & _).
  unfold Parser.visit_all in *. rewrite Hall. reflexivity.
Qed.

(** X16.  The posts of a pass come in the order in which the traversal
    meets their updates: their identities are found, in this order, among
    the identities of the dictionaries of the page taken parent first and
    in the order of the fields; and each of them has a text that is a string
    of more than ten characters once stripped. *)
Theorem posts_in_traversal_order (data : json) (seen : gset string) :
  map post_id (fst (parse data seen)) `sublist_of` omap node_id (dict_nodes data) /\
  Forall meaningful (fst (parse data seen)).
Proof.
  unfold parse_posts_enhanced.
  rewrite (ParserSpec.search_visit_all py_str py_hash hash_secret MediaInfo extract_media).
  destruct (visit_all_trace (dict_nodes data) [] seen) as (new & Hall & Hsub & Hmean).
  unfold Parser.visit_all in *. rewrite Hall. cbn [fst app].
  split; assumption.
Qed.

End Enhanced.

(** An update rejected for its short text keeps the update that follows it
    under the same identity out, whatever its text. *)
Example rejected_update_blocks_its_identity :
  let parse :=
    parse_posts_enhanced Examples.sample_str Examples.sample_hash 0 unit
      Examples.no_media in
  map (post_id unit) (fst (parse (JList [long_update]) ∅)) = ["1"] /\
  fst (parse (JList [short_update; long_update]) ∅) = [].
Proof. split; vm_compute; reflexivity. Qed.

(** The length of a text is counted in characters, not in bytes: a text
    of eight characters that takes twenty-four bytes is too short. *)
Example wide_characters_counted_once :
  String.length eight_wide_characters = 24%nat /\
  Parser.code_points eight_wide_characters = repeat 26085%N 8 /\
  fst (parse_posts_enhanced Examples.sample_str Examples.sample_hash 0 unit
         Examples.no_media (JList [wide_update]) ∅) = [].
Proof. repeat split; vm_compute; reflexivity. Qed.

End ParserMore.

(** ** The status of a scrape *)

Module StatusMore.
Import Py Status More PyFacts.

Section Manager.
Variable format_seconds : Z -> string.

Local Abbreviation apply_call := (Status.apply_call format_seconds).
Local Abbreviation run_calls := (Status.run_calls format_seconds).
Local Abbreviation monitor := (Status.monitor format_seconds).

Lemma run_calls_cons (c : call) (calls : list call) (m : manager) :
  run_calls (c :: calls) m = run_calls calls (apply_call c m).
Proof. reflexivity. Qed.

Lemma consistent_initial : consistent _reset_all_fields.
Proof.
  unfold consistent, _reset_all_fields. cbn.
  repeat split; try discriminate; try lia; try reflexivity.
  - intros [ e He ]. discriminate He.
  - intros [ H | H ]; discriminate H.
Qed.

Lemma consistent_started (username progress : string) (total_users t h : Z) :
  consistent
    {| _state := RUNNING; _progress := progress; _error := None;
       _current_user := Some username; _total_users := total_users;
       _completed_users := 0; _started_at := Some t; _last_heartbeat := Some h |}.
Proof.
  unfold consistent. cbn.
  repeat split; try discriminate; try lia; eauto.
  - intros [ e He ]. discriminate He.
  - intros [ H | H ]; discriminate H.
Qed.

Lemma consistent_finish_failed (m : manager) (progress error : string)
    (st : scraping_state) :
  st = FAILED \/ st = TIMEOUT ->
  _state m = RUNNING -> consistent m ->
  consistent (finish st progress (Some error) m).
Proof.
  intros Hst Hrun (Hidle & Hbeat & Herr & Hcount).
  unfold consistent, finish. cbn.
  split; [ | split; [ | split; [ | exact Hcount ] ] ].
  - rewrite <- Hidle, Hrun. destruct Hst as [ -> | -> ]; split; discriminate.
  - destruct Hst as [ -> | -> ]; discriminate.
  - split; [ intros _; exact Hst | eauto ].
Qed.

Lemma consistent_apply (c : call) (m : manager) :
  consistent m -> consistent (apply_call c m).
Proof.
  intros Hm. pose proof Hm as (Hidle & Hbeat & Herr & Hcount).
  destruct c as [ username total_users now started_at heartbeat
                | progress current_user now | now | success_message
                | error_message | | force now | now ];
    cbn [Status.apply_call].
  - unfold start_scraping.
    destruct (_state m); try apply consistent_started.
    destruct (_started_at m) as [ t | ]; [ | apply consistent_started ].
    destruct (over_timeout now t); [ apply consistent_started | exact Hm ].
  - unfold consistent, update_progress. cbn.
    split; [ exact Hidle | ]. split; [ eauto | ]. split; [ exact Herr | exact Hcount ].
  - unfold consistent, increment_completed. cbn.
    split; [ exact Hidle | ]. split; [ eauto | ]. split; [ exact Herr | lia ].
  - unfold complete_scraping. destruct (_state m) eqn:Hstate; try exact Hm.
    unfold consistent, finish. cbn.
    split; [ rewrite <- Hidle; split; discriminate | ].
    split; [ discriminate | ]. split; [ | exact Hcount ].
    split; [ intros [ e He ]; discriminate He | intros [ H | H ]; discriminate H ].
  - unfold fail_scraping. destruct (_state m) eqn:Hstate; try exact Hm.
    apply consistent_finish_failed; [ left; reflexivity | exact Hstate | ].
    rewrite <- Hstate in *. exact Hm.
  - unfold ensure_cleanup. destruct (_state m) eqn:Hstate; try exact Hm.
    apply consistent_finish_failed; [ left; reflexivity | exact Hstate | ].
    rewrite <- Hstate in *. exact Hm.
  - unfold reset.
    destruct (negb force && state_eqb (_state m) RUNNING);
      [ | apply consistent_initial ].
    destruct (_started_at m) as [ t | ]; [ | apply consistent_initial ].
    destruct (under_timeout now t); [ exact Hm | apply consistent_initial ].
  - unfold Status.monitor. destruct (_state m) eqn:Hstate; try exact Hm.
    destruct (_started_at m) as [ t | ] eqn:Hstart; [ | exact Hm ].
    destruct (over_timeout now t); [ | exact Hm ].
    rewrite <- Hstart.
    change (consistent
              (finish TIMEOUT
                 ("Timeout after " +:+ format_seconds (elapsed now t) +:+ "s")
                 (Some ("Timeout - scraping took too long (" +:+
                        format_seconds (elapsed now t) +:+ "s)"))
                 m)).
    apply consistent_finish_failed; [ right; reflexivity | exact Hstate | exact Hm ].
Qed.

Lemma consistent_run (calls : list call) :
  forall m, consistent m -> consistent (run_calls calls m).
Proof.
  induction calls as [ | c calls IH ]; intros m Hm; [ exact Hm | ].
  rewrite run_calls_cons. apply IH, consistent_apply, Hm.
Qed.

(** X17.  Whatever the requests, the workers and the monitor call on the
    manager, in whatever order, from the state [__init__] leaves: there is
    a start time exactly when the state is not [IDLE], so that a manager
    that is [RUNNING] has one (the branch of [start_scraping] for an
    inconsistent state is never taken) and has a heartbeat; there is an
    error exactly in the states [FAILED] and [TIMEOUT]; and the count of
    completed users is not negative. *)
Theorem manager_stays_consistent (calls : list call) :
  let m := run_calls calls _reset_all_fields in
  (_state m = IDLE <-> _started_at m = None) /\
  (_state m = RUNNING -> is_Some (_started_at m) /\ is_Some (_last_heartbeat m)) /\
  (is_Some (_error m) <-> _state m = FAILED \/ _state m = TIMEOUT) /\
  0 <= _completed_users m.
Proof.
  cbn zeta.
  destruct (consistent_run calls _ consistent_initial)
    as (Hidle & Hbeat & Herr & Hcount).
  split; [ exact Hidle | ]. split; [ | split; [ exact Herr | exact Hcount ] ].
  intros Hrun. split; [ | apply Hbeat, Hrun ].
  destruct (decide (_started_at (run_calls calls _reset_all_fields) = None))
    as [ Hnone | Hsome ].
  - apply Hidle in Hnone. congruence.
  - destruct (_started_at (run_calls calls _reset_all_fields)); [ eauto | congruence ].
Qed.

(** *** Once a run has an outcome *)

Lemma apply_call_started (c : call) (m : manager) :
  restarts c = false ->
  _started_at (apply_call c m) = _started_at m /\
  _completed_users m <= _completed_users (apply_call c m).
Proof.
  destruct c; cbn [restarts Status.apply_call]; try discriminate; intros _.
  - cbn. split; [ reflexivity | lia ].
  - cbn. split; [ reflexivity | lia ].
  - unfold complete_scraping. destruct (_state m); cbn; split; try reflexivity; lia.
  - unfold fail_scraping. destruct (_state m); cbn; split; try reflexivity; lia.
  - unfold ensure_cleanup. destruct (_state m); cbn; split; try reflexivity; lia.
  - unfold Status.monitor. destruct (_state m); try (split; [ reflexivity | lia ]).
    destruct (_started_at m) as [ t | ] eqn:Hstart;
      [ | rewrite Hstart; split; [ reflexivity | lia ] ].
    destruct (over_timeout now t); cbn; rewrite ?Hstart;
      split; try reflexivity; lia.
Qed.

Lemma apply_call_terminal (c : call) (m : manager) :
  restarts c = false ->
  _state m <> RUNNING ->
  _state (apply_call c m) = _state m /\ _error (apply_call c m) = _error m.
Proof.
  destruct c; cbn [restarts Status.apply_call]; try discriminate; intros _ Hstate.
  - split; reflexivity.
  - split; reflexivity.
  - unfold complete_scraping.
    destruct (_state m) eqn:E; try congruence; rewrite ?E; split; reflexivity.
  - unfold fail_scraping.
    destruct (_state m) eqn:E; try congruence; rewrite ?E; split; reflexivity.
  - unfold ensure_cleanup.
    destruct (_state m) eqn:E; try congruence; rewrite ?E; split; reflexivity.
  - unfold Status.monitor.
    destruct (_state m) eqn:E; try congruence; rewrite ?E; split; reflexivity.
Qed.

Lemma run_calls_terminal (calls : list call) :
  forall m,
  Forall (fun c => restarts c = false) calls ->
  _state m <> RUNNING ->
  _state (run_calls calls m) = _state m /\
  _error (run_calls calls m) = _error m.
Proof.
  induction calls as [ | c calls IH ]; intros m Hcalls Hstate.
  - split; reflexivity.
  - apply Forall_cons in Hcalls as [ Hc Hcalls ]. rewrite run_calls_cons.
    destruct (apply_call_terminal c m Hc Hstate) as [ Hs He ].
    destruct (IH (apply_call c m) Hcalls) as [ Hs' He' ]; [ congruence | ].
    split; congruence.
Qed.

Lemma run_calls_started (calls : list call) :
  forall m,
  Forall (fun c => restarts c = false) calls ->
  _started_at (run_calls calls m) = _started_at m /\
  _completed_users m <= _completed_users (run_calls calls m).
Proof.
  induction calls as [ | c calls IH ]; intros m Hcalls.
  - unfold Status.run_calls. cbn [fold_left]. split; [ reflexivity | lia ].
  - apply Forall_cons in Hcalls as [ Hc Hcalls ]. rewrite run_calls_cons.
    destruct (apply_call_started c m Hc) as [ Hs Hn ].
    destruct (IH (apply_call c m) Hcalls) as [ Hs' Hn' ].
    split; [ congruence | lia ].
Qed.

(** X18.  The first outcome of a run stays: once the state is [COMPLETED],
    [FAILED] or [TIMEOUT] (or [IDLE]), no call other than a new start or a
    reset changes the state or the error, so a worker that completes after
    the monitor has declared a timeout leaves the timeout, and the cleanup
    of a worker does not touch a run that has completed.  Such calls never
    change the start time nor lower the count of completed users. *)
Theorem first_outcome_stays (calls : list call) (m : manager) :
  Forall (fun c => restarts c = false) calls ->
  _state m <> RUNNING ->
  let m' := run_calls calls m in
  _state m' = _state m /\ _error m' = _error m /\
  _started_at m' = _started_at m /\
  _completed_users m <= _completed_users m'.
Proof.
  intros Hcalls Hstate. cbn zeta.
  destruct (run_calls_terminal calls m Hcalls Hstate) as [ Hs He ].
  destruct (run_calls_started calls m Hcalls) as [ Ht Hn ].
  repeat split; assumption.
Qed.

(** X19.  A reset that is not forced is refused only where a start is
    refused, at the same reading of the clock; and a start that is refused
    means such a reset is refused too, except when the run is exactly
    [TIMEOUT_SECONDS] old: then the start is refused and the reset goes
    through. *)
Theorem refusals_of_start_and_reset (username : string)
    (total_users now started_at heartbeat : Z) (m : manager) :
  (reset false now m = Raise ->
   start_scraping username total_users now started_at heartbeat m = Raise) /\
  (start_scraping username total_users now started_at heartbeat m = Raise ->
   reset false now m = Raise \/
   exists t, _started_at m = Some t /\ now - t = TIMEOUT_SECONDS * 1000000) /\
  (reset true now m = Ok _reset_all_fields).
Proof.
  unfold reset, start_scraping, under_timeout, over_timeout, elapsed.
  cbn [negb andb].
  destruct (_state m); cbn [state_eqb];
    try (split; [ discriminate | split; [ discriminate | reflexivity ] ]).
  destruct (_started_at m) as [ t | ];
    [ | split; [ discriminate | split; [ discriminate | reflexivity ] ] ].
  destruct (Z.ltb_spec (now - t) (TIMEOUT_SECONDS * 1000000)) as [ Hlt | Hge ];
    destruct (Z.ltb_spec (TIMEOUT_SECONDS * 1000000) (now - t)) as [ Hlt' | Hge' ];
    split; try discriminate; try (intros _; reflexivity); try lia;
    split; try discriminate; try reflexivity.
  - intros _. left. reflexivity.
  - intros _. right. exists t. split; [ reflexivity | lia ].
Qed.

(** *** The worker of a scrape *)

Lemma monitor_quiet (now t : Z) (m : manager) :
  _started_at m = Some t -> over_timeout now t = false -> monitor now m = m.
Proof.
  intros Hstart Hover. unfold Status.monitor. rewrite Hstart, Hover.
  destruct (_state m); reflexivity.
Qed.

Lemma interleaved_quiet (worker : list call) (ticks : list Z) (t : Z) :
  forall monitors all,
  interleaved worker monitors all ->
  monitors = map Monitor ticks ->
  Forall (fun c => restarts c = false) worker ->
  Forall (fun now => over_timeout now t = false) ticks ->
  forall m, _started_at m = Some t -> run_calls all m = run_calls worker m.
Proof.
  intros monitors all Hall. revert ticks.
  induction Hall as [ | c l r all Hall IH | c l r all Hall IH ];
    intros ticks Hr Hworker Hquiet m Hstart.
  - reflexivity.
  - apply Forall_cons in Hworker as [ Hc Hworker ].
    rewrite !run_calls_cons. apply (IH ticks); try assumption.
    rewrite (proj1 (apply_call_started c m Hc)). exact Hstart.
  - destruct ticks as [ | now ticks ]; [ discriminate Hr | ].
    injection Hr as -> ->. apply Forall_cons in Hquiet as [ Hnow Hquiet ].
    rewrite run_calls_cons. cbn [Status.apply_call].
    rewrite (monitor_quiet now t m Hstart Hnow).
    apply (IH ticks); try assumption. reflexivity.
Qed.

Lemma interleaved_elem {A : Type} (l r all : list A) (x : A) :
  interleaved l r all -> (x ∈ all <-> x ∈ l \/ x ∈ r).
Proof.
  induction 1 as [ | y l r all _ IH | y l r all _ IH ].
  - set_solver.
  - rewrite !elem_of_cons, IH. tauto.
  - rewrite !elem_of_cons, IH. tauto.
Qed.

(** What a run in progress has come to after calls that do not restart
    it. *)
Lemma run_calls_trace (t : Z) (calls : list call) :
  forall m,
  Forall (fun c => restarts c = false) calls ->
  _state m = RUNNING -> _started_at m = Some t ->
  let m' := run_calls calls m in
  (Cleanup ∈ calls -> _state m' <> RUNNING) /\
  _state m' <> IDLE /\
  (_state m' = COMPLETED -> exists msg, Complete msg ∈ calls) /\
  (_state m' = TIMEOUT -> exists now, Monitor now ∈ calls /\ over_timeout now t = true).
Proof.
  induction calls as [ | c calls IH ]; intros m Hcalls Hstate Hstart; cbn zeta.
  - cbn. rewrite Hstate. repeat split; try discriminate.
    intros H. apply elem_of_nil in H. destruct H.
  - apply Forall_cons in Hcalls as [ Hc Hcalls ]. rewrite run_calls_cons.
    assert (Hnext :
      (_state (apply_call c m) = RUNNING /\ c <> Cleanup) \/
      (_state (apply_call c m) <> RUNNING /\ _state (apply_call c m) <> IDLE /\
       (_state (apply_call c m) = COMPLETED -> exists msg, c = Complete msg) /\
       (_state (apply_call c m) = TIMEOUT ->
        exists now, c = Monitor now /\ over_timeout now t = true))).
    { destruct c; cbn [restarts] in Hc; try discriminate Hc; cbn [Status.apply_call].
      - left. split; [ exact Hstate | discriminate ].
      - left. split; [ exact Hstate | discriminate ].
      - right. unfold complete_scraping. rewrite Hstate. cbn.
        repeat split; try discriminate. intros _. eauto.
      - right. unfold fail_scraping. rewrite Hstate. cbn.
        repeat split; discriminate.
      - right. unfold ensure_cleanup. rewrite Hstate. cbn.
        repeat split; discriminate.
      - unfold Status.monitor. rewrite Hstate, Hstart.
        destruct (over_timeout now t) eqn:Hover.
        + right. cbn. repeat split; try discriminate. intros _. eauto.
        + left. split; [ exact Hstate | discriminate ]. }
    destruct Hnext as [ [ Hrun Hne ] | (Hnot & Hidle & Hdone & Hout) ].
    + destruct (IH (apply_call c m) Hcalls Hrun) as (H1 & H2 & H3 & H4).
      { rewrite (proj1 (apply_call_started c m Hc)). exact Hstart. }
      cbn zeta in *. split; [ | split; [ exact H2 | split ] ].
      * intros Hin. apply elem_of_cons in Hin as [ Heq | Hin ];
          [ congruence | apply H1, Hin ].
      * intros H. destruct (H3 H) as [ msg Hmsg ]. exists msg. right. exact Hmsg.
      * intros H. destruct (H4 H) as (now & Hnow & Hover).
        exists now. split; [ right; exact Hnow | exact Hover ].
    + destruct (run_calls_terminal calls (apply_call c m) Hcalls Hnot) as [ Hs _ ].
      rewrite Hs. split; [ intros _; exact Hnot | split; [ exact Hidle | split ] ].
      * intros H. destruct (Hdone H) as [ msg -> ]. exists msg. left.
      * intros H. destruct (Hout H) as (now & -> & Hover).
        exists now. split; [ left | exact Hover ].
Qed.

Lemma run_scraper_restarts (username : string) (now : Z) (o : scrape_outcome) :
  Forall (fun c => restarts c = false) (run_scraper username now o).
Proof. destruct o; repeat constructor. Qed.

Lemma monitors_restart (ticks : list Z) :
  Forall (fun c => restarts c = false) (map Monitor ticks).
Proof. induction ticks; constructor; [ reflexivity | assumption ]. Qed.

Lemma interleaved_Forall {A : Type} (P : A -> Prop) (l r all : list A) :
  interleaved l r all -> Forall P l -> Forall P r -> Forall P all.
Proof.
  induction 1 as [ | y l r all _ IH | y l r all _ IH ]; intros Hl Hr.
  - constructor.
  - apply Forall_cons in Hl as [ Hy Hl ]. constructor; [ exact Hy | apply IH; assumption ].
  - apply Forall_cons in Hr as [ Hy Hr ]. constructor; [ exact Hy | apply IH; assumption ].
Qed.

(** X20.  The worker of a scrape, started on a run in progress and
    interleaved in any way with turns of the monitor, leaves the manager
    with an outcome: the state is not [RUNNING] any more; it is [COMPLETED]
    only if the scrape succeeded, and [TIMEOUT] only if a turn of the
    monitor read the clock more than [TIMEOUT_SECONDS] after the start.
    When no turn of the monitor did, the state is [COMPLETED] with one more
    completed user after a scrape that succeeded, and [FAILED] otherwise,
    the error being the message of the scrape, [Scraping failed] when it
    gave none, or the text of the exception. *)
Theorem worker_leaves_an_outcome (m : manager) (t : Z) (username : string)
    (now : Z) (o : scrape_outcome) (ticks : list Z) (all : list call) :
  _state m = RUNNING ->
  _started_at m = Some t ->
  interleaved (run_scraper username now o) (map Monitor ticks) all ->
  let m' := run_calls all m in
  _state m' <> RUNNING /\ _state m' <> IDLE /\
  (_state m' = COMPLETED -> exists now', o = Scraped now') /\
  (_state m' = TIMEOUT -> Exists (fun now' => over_timeout now' t = true) ticks) /\
  (Forall (fun now' => over_timeout now' t = false) ticks ->
   match o with
   | Scraped _ =>
       _state m' = COMPLETED /\ _error m' = None /\
       _completed_users m' = _completed_users m + 1
   | NotScraped (Some e) =>
       _state m' = FAILED /\
       _error m' = Some (if String.eqb e "" then "Scraping failed" else e)
   | NotScraped None => _state m' = FAILED /\ _error m' = Some "Scraping failed"
   | Raised message => _state m' = FAILED /\ _error m' = Some message
   end).
Proof.
  intros Hstate Hstart Hall. cbn zeta.
  assert (Hcalls : Forall (fun c => restarts c = false) all).
  { eapply interleaved_Forall;
      [ exact Hall | apply run_scraper_restarts | apply monitors_restart ]. }
  destruct (run_calls_trace t all m Hcalls Hstate Hstart) as (H1 & H2 & H3 & H4).
  cbn zeta in *.
  split; [ | split; [ exact H2 | split; [ | split ] ] ].
  - apply H1. apply (interleaved_elem _ _ _ Cleanup Hall). left.
    unfold run_scraper. destruct o; cbn; set_solver.
  - intros H. destruct (H3 H) as [ msg Hmsg ].
    apply (interleaved_elem _ _ _ _ Hall) in Hmsg as [ Hmsg | Hmsg ].
    + unfold run_scraper in Hmsg. destruct o as [ now' | error | message ];
        [ exists now'; reflexivity | | ];
        cbn in Hmsg; set_solver.
    + apply list_elem_of_fmap in Hmsg as (x & Hx & _). discriminate Hx.
  - intros H. destruct (H4 H) as (now' & Hin & Hover).
    apply (interleaved_elem _ _ _ _ Hall) in Hin as [ Hin | Hin ].
    + unfold run_scraper in Hin. destruct o; cbn in Hin; set_solver.
    + apply list_elem_of_fmap in Hin as (x & Hx & Hin). injection Hx as <-.
      apply Exists_exists. exists now'. split; [ exact Hin | exact Hover ].
  - intros Hquiet.
    rewrite (interleaved_quiet _ ticks t _ all Hall eq_refl
               (run_scraper_restarts username now o) Hquiet m Hstart).
    unfold run_scraper, Status.run_calls.
    destruct o as [ now' | [ e | ] | message ]; cbn [app fold_left Status.apply_call];
      unfold ensure_cleanup, complete_scraping, fail_scraping;
      cbn [update_progress increment_completed _state]; rewrite Hstate;
      cbn [finish _state _error _completed_users];
      repeat split; reflexivity.
Qed.

End Manager.

Lemma first_outcome_stays_witness :
  let m := Status.monitor plain_seconds 700000000 started_manager in
  let m' :=
    Status.run_calls plain_seconds [Increment 700000001; Complete None; Cleanup] m in
  _state m' = _state m /\ _error m' = _error m /\
  _started_at m' = _started_at m /\
  _completed_users m <= _completed_users m'.
Proof.
  apply (first_outcome_stays plain_seconds);
    [ repeat constructor | vm_compute; discriminate ].
Defined.

Lemma worker_leaves_an_outcome_witness :
  let all :=
    [Progress "Scraping someone..." (Some "someone") 5; Monitor 30000000;
     Increment 9; Monitor 60000000;
     Complete (Some "Successfully scraped someone!"); Cleanup] in
  let m' := Status.run_calls plain_seconds all started_manager in
  _state m' <> RUNNING /\ _state m' <> IDLE /\
  (_state m' = COMPLETED -> exists now', Scraped 9 = Scraped now') /\
  (_state m' = TIMEOUT ->
   Exists (fun now' => over_timeout now' 0 = true) [30000000; 60000000]) /\
  (Forall (fun now' => over_timeout now' 0 = false) [30000000; 60000000] ->
   _state m' = COMPLETED /\ _error m' = None /\
   _completed_users m' = _completed_users started_manager + 1).
Proof.
  apply (worker_leaves_an_outcome plain_seconds started_manager 0 "someone" 5
           (Scraped 9) [30000000; 60000000]);
    [ reflexivity | reflexivity | ].
  apply interleaved_left, interleaved_right, interleaved_left, interleaved_right,
    interleaved_left, interleaved_left, interleaved_nil.
Defined.

(** A scrape that succeeds after the monitor has seen the timeout is
    reported as a timeout. *)
Example late_success_is_a_timeout :
  let m' :=
    Status.run_calls plain_seconds
      [Progress "Scraping someone..." (Some "someone") 5; Monitor 630000000;
       Increment 640000000; Complete (Some "Successfully scraped someone!"); Cleanup]
      started_manager in
  (_state m', _error m', _completed_users m') =
  (TIMEOUT, Some "Timeout - scraping took too long (630s)", 1).
Proof. vm_compute. reflexivity. Qed.

End StatusMore.

(** ** The feed *)

Module FeedMore.
Import Py Feed More PyFacts.

Lemma posts_of_dict_set (k : string) (v : list json) (d : posts_map) (user : string) :
  posts_of (dict_set k v d) user = if String.eqb k user then v else posts_of d user.
Proof.
  induction d as [ | [ k' v' ] d IH ]; cbn [dict_set posts_of].
  - reflexivity.
  - destruct (String.eqb k' k) eqn:Hk; cbn [posts_of].
    + apply String.eqb_eq in Hk as ->. destruct (String.eqb k user); reflexivity.
    + destruct (String.eqb k' user) eqn:Hu; [ | exact IH ].
      apply String.eqb_eq in Hu as ->. rewrite String.eqb_sym, Hk. reflexivity.
Qed.

Lemma posts_of_outside (d : posts_map) (user : string) :
  ~ In user (keys d) -> posts_of d user = [].
Proof.
  induction d as [ | [ k v ] d IH ]; cbn [keys map fst posts_of In]; intros Hout.
  - reflexivity.
  - destruct (String.eqb k user) eqn:Hk.
    + apply String.eqb_eq in Hk. tauto.
    + apply IH. tauto.
Qed.

Lemma combine_snoc {A B : Type} (l : list A) (l' : list B) (x : A) (y : B) :
  length l = length l' ->
  combine (l ++ [x]) (l' ++ [y]) = combine l l' ++ [(x, y)].
Proof.
  revert l'. induction l as [ | a l IH ]; intros [ | b l' ] Hlen;
    try discriminate Hlen; cbn [combine app].
  - reflexivity.
  - f_equal. apply IH. injection Hlen as Hlen. exact Hlen.
Qed.

Lemma dealt_to_snoc (user selected : string) (owners : list string)
    (feed : list json) (post : json) :
  length owners = length feed ->
  dealt_to user (owners ++ [selected]) (feed ++ [post]) =
  dealt_to user owners feed ++ (if String.eqb selected user then [post] else []).
Proof.
  intros Hlen. unfold dealt_to.
  rewrite combine_snoc by exact Hlen.
  rewrite List.filter_app, map_app. cbn [List.filter fst].
  destruct (String.eqb selected user); reflexivity.
Qed.

Lemma index_of_insert (user_indices : gmap string nat) (selected user : string)
    (i : nat) :
  index_of (<[selected := i]> user_indices) user =
  if String.eqb selected user then i else index_of user_indices user.
Proof.
  unfold index_of. destruct (String.eqb selected user) eqn:Hu.
  - apply String.eqb_eq in Hu as ->. rewrite lookup_insert_eq. reflexivity.
  - apply String.eqb_neq in Hu. rewrite lookup_insert_ne by exact Hu. reflexivity.
Qed.

Lemma index_of_initial (d : posts_map) (user : string) :
  index_of (initial_indices d) user = 0%nat.
Proof.
  unfold index_of, initial_indices. induction (keys d) as [ | k ks IH ]; cbn.
  - reflexivity.
  - destruct (decide (k = user)) as [ -> | Hne ].
    + rewrite lookup_insert_eq. reflexivity.
    + rewrite lookup_insert_ne by exact Hne. exact IH.
Qed.

Lemma sum_list_with_le {A : Type} (f g : A -> nat) (l : list A) :
  (forall x, (f x <= g x)%nat) -> (sum_list_with f l <= sum_list_with g l)%nat.
Proof.
  intros Hle. induction l as [ | x l IH ]; cbn; [ lia | ].
  specialize (Hle x). lia.
Qed.

Lemma sum_list_with_lt {A : Type} (f g : A -> nat) (l : list A) (x : A) :
  (forall y, (f y <= g y)%nat) -> In x l -> (f x < g x)%nat ->
  (sum_list_with f l < sum_list_with g l)%nat.
Proof.
  intros Hle Hin Hlt. induction l as [ | y l IH ]; [ destruct Hin | ].
  cbn. destruct Hin as [ -> | Hin ].
  - pose proof (sum_list_with_le f g l Hle). lia.
  - specialize (IH Hin). specialize (Hle y). lia.
Qed.

Section Aggregate.
Variable load : string -> option (list json).
Variable randbelow : nat -> nat -> nat.

Local Abbreviation deal := (Feed.deal randbelow).
Local Abbreviation choice := (Feed.choice randbelow).
Local Abbreviation load_posts := (Feed.load_posts load).

Lemma choice_available (turn : nat) (seq : list string) :
  seq <> [] -> In (choice turn seq) seq.
Proof.
  intros Hseq. unfold Feed.choice. apply nth_In.
  apply Nat.mod_upper_bound. destruct seq; [ congruence | discriminate ].
Qed.

(** The loop from any of its turns: what has been dealt to each user is
    the first posts of the user, as many as the index of the user says. *)
Lemma deal_interleaves (d : posts_map) (fuel : nat) :
  forall turn user_indices out owners,
  length owners = length out ->
  (forall user,
      dealt_to user owners out = take (index_of user_indices user) (posts_of d user)) ->
  (left_to_deal d user_indices < fuel)%nat ->
  exists feed owners',
    deal fuel turn d user_indices out = Some feed /\
    length owners' = length feed /\
    forall user, dealt_to user owners' feed = posts_of d user.
Proof.
  induction fuel as [ | fuel IH ]; intros turn user_indices out owners Hlen Hdealt Hfuel;
    [ lia | ].
  cbn [Feed.deal].
  destruct (available_users d user_indices) as [ | user others ] eqn:Havail.
  - exists out, owners. split; [ reflexivity | ]. split; [ exact Hlen | ].
    intros user. rewrite Hdealt.
    destruct (in_dec String.string_dec user (keys d)) as [ Hin | Hout ].
    + apply take_ge.
      destruct (Nat.ltb_spec (index_of user_indices user) (length (posts_of d user)))
        as [ Hlt | Hge ]; [ | exact Hge ].
      exfalso. apply Nat.ltb_lt in Hlt.
      assert (Hmem : In user (available_users d user_indices)).
      { unfold available_users. apply List.filter_In. split; assumption. }
      rewrite Havail in Hmem. destruct Hmem.
    + rewrite (posts_of_outside d user Hout). apply take_nil.
  - set (selected := choice turn (user :: others)).
    assert (Hsel : In selected (available_users d user_indices)).
    { rewrite Havail. apply choice_available. discriminate. }
    unfold available_users in Hsel. apply List.filter_In in Hsel as [ Hkey Hlt ].
    apply Nat.ltb_lt in Hlt.
    destruct (lookup_lt_is_Some_2 _ _ Hlt) as [ post Hpost ]. rewrite Hpost.
    apply (IH _ _ _ (owners ++ [selected])).
    + rewrite !length_app, Hlen. reflexivity.
    + intros u. rewrite dealt_to_snoc by exact Hlen.
      rewrite index_of_insert, Hdealt.
      destruct (String.eqb selected u) eqn:Hu.
      * apply String.eqb_eq in Hu as <-. symmetry. apply take_S_r. exact Hpost.
      * apply app_nil_r.
    + assert (Hless : (left_to_deal d (<[selected := S (index_of user_indices selected)]>
                                         user_indices) <
                       left_to_deal d user_indices)%nat).
      { unfold left_to_deal. apply (sum_list_with_lt _ _ _ selected).
        - intros u. rewrite index_of_insert.
          destruct (String.eqb selected u) eqn:Hu; [ | lia ].
          apply String.eqb_eq in Hu as <-. lia.
        - exact Hkey.
        - rewrite index_of_insert, String.eqb_refl. lia. }
      lia.
Qed.

Lemma load_posts_from (users : list string) :
  forall (d : posts_map) (user : string),
  posts_of
    (fold_left
       (fun d username =>
          match load username with
          | Some (post :: rest) => dict_set username (post :: rest) d
          | _ => d
          end)
       users d) user =
  match load user with
  | Some (post :: rest) =>
      if bool_decide (user ∈ users) then post :: rest else posts_of d user
  | _ => posts_of d user
  end.
Proof.
  induction users as [ | username users IH ]; intros d user; cbn [fold_left].
  - destruct (load user) as [ [ | post rest ] | ]; reflexivity.
  - rewrite IH.
    destruct (load user) as [ [ | post rest ] | ] eqn:Hload.
    + destruct (load username) as [ [ | p r ] | ] eqn:Hname; try reflexivity.
      rewrite posts_of_dict_set. destruct (String.eqb username user) eqn:Hu;
        [ | reflexivity ].
      apply String.eqb_eq in Hu as ->. congruence.
    + destruct (decide (user ∈ users)) as [ Hin | Hout ].
      * rewrite !bool_decide_eq_true_2; [ reflexivity | right; exact Hin | exact Hin ].
      * rewrite (bool_decide_eq_false_2 _ Hout).
        destruct (decide (username = user)) as [ -> | Hne ].
        -- rewrite bool_decide_eq_true_2 by left. rewrite Hload.
           rewrite posts_of_dict_set, String.eqb_refl. reflexivity.
        -- rewrite bool_decide_eq_false_2
             by (intros Hin; apply elem_of_cons in Hin as [ Heq | Hin ];
                 [ congruence | exact (Hout Hin) ]).
           destruct (load username) as [ [ | p r ] | ]; try reflexivity.
           rewrite posts_of_dict_set.
           apply String.eqb_neq in Hne. rewrite Hne. reflexivity.
    + destruct (load username) as [ [ | p r ] | ] eqn:Hname; try reflexivity.
      rewrite posts_of_dict_set. destruct (String.eqb username user) eqn:Hu;
        [ | reflexivity ].
      apply String.eqb_eq in Hu as ->. congruence.
Qed.

Lemma load_posts_loaded (users : list string) (user : string) :
  posts_of (load_posts users) user = posts_loaded load users user.
Proof.
  unfold Feed.load_posts, posts_loaded. rewrite load_posts_from. cbn [posts_of].
  destruct (load user) as [ [ | post rest ] | ]; cbn [default];
    destruct (bool_decide (user ∈ users)); reflexivity.
Qed.

(** X21.  Whatever the draws, and once the session data of the users are
    loaded, the feed comes out, without an index out of range and within the
    turns the posts allow, and it is an interleaving of
    the posts of the users asked for: every post of the feed can be given
    the user it was taken from so that the posts taken from each user are
    the posts of the session data of that user, all of them, in their
    order, and nothing is taken from anyone else.  [total_posts] is the
    length of the feed and [total_users] counts the users asked for, with or
    without posts. *)
Theorem feed_interleaves_users (filter_username : option string)
    (users : list string) :
  exists result owners,
    aggregate_feed load randbelow filter_username users = Some result /\
    total_posts result = length (posts result) /\
    total_users result = length (filter_users filter_username users) /\
    length owners = length (posts result) /\
    forall user,
      dealt_to user owners (posts result) =
      posts_loaded load (filter_users filter_username users) user.
Proof.
  unfold aggregate_feed. cbn zeta.
  set (asked := filter_users filter_username users).
  destruct (deal_interleaves (load_posts asked) (turns (load_posts asked)) 0
              (initial_indices (load_posts asked)) [] [] eq_refl)
    as (feed & owners & Hdeal & Hlen & Hdealt).
  - intros user. rewrite index_of_initial. reflexivity.
  - unfold left_to_deal, turns.
    apply Nat.lt_succ_r, sum_list_with_le. intros user. lia.
  - rewrite Hdeal. eexists. exists owners.
    split; [ reflexivity | ]. cbn [posts total_posts total_users].
    split; [ reflexivity | ]. split; [ reflexivity | ]. split; [ exact Hlen | ].
    intros user. rewrite Hdealt. apply load_posts_loaded.
Qed.

End Aggregate.

(** Two users and a third without posts, the last user available drawn at
    every turn. *)
Example sample_feed :
  option_map (fun f => (posts f, total_posts f, total_users f))
    (aggregate_feed sample_sessions draw_last None ["ann"; "bob"; "cyd"]) =
  Some ([JStr "b1"; JStr "a1"; JStr "a2"], 3%nat, 3%nat).
Proof. vm_compute. reflexivity. Qed.

End FeedMore.

(** ** The refresh of all users *)

Module RefreshMore.
Import Py Status More PyFacts.

Section Manager.
Variable format_seconds : Z -> string.

Local Abbreviation run_calls := (Status.run_calls format_seconds).

Lemma scrape_all_restarts (total : Z) (users : list (string * Z * scrape_outcome)) :
  forall idx, Forall (fun c => restarts c = false) (scrape_all total idx users).
Proof.
  induction users as [ | [ [ username now ] o ] users IH ]; intros idx;
    cbn [scrape_all].
  - repeat constructor.
  - constructor; [ reflexivity | ].
    destruct o; [ constructor; [ reflexivity | apply IH ] | apply IH | repeat constructor ].
Qed.

Lemma scrape_all_outcome (total : Z) (users : list (string * Z * scrape_outcome)) :
  forall idx m,
  _state m = RUNNING ->
  let m' := run_calls (scrape_all total idx users ++ [Cleanup]) m in
  _state m' = (match raised users with Some _ => FAILED | None => COMPLETED end) /\
  _error m' = raised users /\
  _completed_users m' = _completed_users m + scraped users.
Proof.
  induction users as [ | [ [ username now ] o ] users IH ]; intros idx m Hstate;
    cbn zeta; cbn [scrape_all raised scraped app].
  - unfold Status.run_calls. cbn [fold_left Status.apply_call].
    unfold ensure_cleanup, complete_scraping. rewrite Hstate.
    cbn [finish _state _error _completed_users]. repeat split; try reflexivity. lia.
  - destruct o as [ now' | error | message ].
    + cbn [app]. rewrite !StatusMore.run_calls_cons. cbn [Status.apply_call].
      destruct (IH (idx + 1)
                  (increment_completed now'
                     (update_progress
                        ("Scraping " +:+ username +:+ " (" +:+ Parser.string_of_Z idx +:+
                         "/" +:+ Parser.string_of_Z total +:+ ")...")
                        (Some username) now m)))
        as (Hs & He & Hn); [ exact Hstate | ].
      cbn zeta in *. rewrite Hs, He, Hn. cbn [increment_completed _completed_users
                                                update_progress].
      repeat split; try reflexivity. lia.
    + rewrite !StatusMore.run_calls_cons. cbn [Status.apply_call].
      destruct (IH (idx + 1)
                  (update_progress
                     ("Scraping " +:+ username +:+ " (" +:+ Parser.string_of_Z idx +:+
                      "/" +:+ Parser.string_of_Z total +:+ ")...")
                     (Some username) now m))
        as (Hs & He & Hn); [ exact Hstate | ].
      cbn zeta in *. rewrite Hs, He, Hn. repeat split; reflexivity.
    + unfold Status.run_calls. cbn [app fold_left Status.apply_call].
      unfold ensure_cleanup, fail_scraping.
      cbn [update_progress _state]. rewrite Hstate.
      cbn [finish update_progress _state _error _completed_users].
      repeat split; try reflexivity. lia.
Qed.

(** X22.  The refresh of all users, started on a run in progress and
    interleaved with turns of the monitor that see no timeout, ends
    [COMPLETED] and without error whenever no scrape raised, however many
    of the scrapes returned without success, none included; the count of
    completed users has grown by the scrapes that succeeded.  When a scrape
    raises, the loop ends there: the state is [FAILED], the error is the
    text of the exception, and the scrapes that succeeded before it are
    counted. *)
Theorem refresh_all_outcome (m : manager) (t : Z)
    (users : list (string * Z * scrape_outcome)) (ticks : list Z) (all : list call) :
  _state m = RUNNING ->
  _started_at m = Some t ->
  interleaved (run_scraper_all users) (map Monitor ticks) all ->
  Forall (fun now => over_timeout now t = false) ticks ->
  let m' := run_calls all m in
  _state m' = (match raised users with Some _ => FAILED | None => COMPLETED end) /\
  _error m' = raised users /\
  _completed_users m' = _completed_users m + scraped users.
Proof.
  intros Hstate Hstart Hall Hquiet. cbn zeta.
  assert (Hcalls : Forall (fun c => restarts c = false) (run_scraper_all users)).
  { unfold run_scraper_all. apply Forall_app.
    split; [ apply scrape_all_restarts | repeat constructor ]. }
  rewrite (StatusMore.interleaved_quiet format_seconds _ ticks t _ all Hall eq_refl
             Hcalls Hquiet m Hstart).
  apply scrape_all_outcome. exact Hstate.
Qed.

End Manager.

Lemma refresh_all_outcome_witness :
  let users := [("ann", 5, NotScraped (Some "Login failed")); ("bob", 9, NotScraped None)] in
  let all :=
    [Progress "Scraping ann (1/2)..." (Some "ann") 5; Monitor 30000000;
     Progress "Scraping bob (2/2)..." (Some "bob") 9;
     Complete (Some "Successfully refreshed all 2 users!"); Cleanup] in
  let m' := Status.run_calls plain_seconds all started_manager in
  _state m' = COMPLETED /\ _error m' = None /\
  _completed_users m' = _completed_users started_manager + 0.
Proof.
  apply (refresh_all_outcome plain_seconds started_manager 0
           [("ann", 5, NotScraped (Some "Login failed")); ("bob", 9, NotScraped None)]
           [30000000]);
    [ reflexivity | reflexivity | | repeat constructor ].
  apply interleaved_left, interleaved_right, interleaved_left, interleaved_left,
    interleaved_left, interleaved_nil.
Defined.

End RefreshMore.

(** ** The tracked users *)

Module UsersMore.
Import Users More.

Lemma users_map_cons (u : user) (users : list user) :
  users_map (u :: users) = <[username u := u]> (users_map users).
Proof. reflexivity. Qed.

Lemma get_user_lookup (users : list user) (name : string) :
  get_user users name = users_map users !! name.
Proof.
  induction users as [ | u users IH ]; cbn [get_user].
  - reflexivity.
  - rewrite users_map_cons. destruct (String.eqb (username u) name) eqn:Hu.
    + apply String.eqb_eq in Hu as <-. rewrite lookup_insert_eq. reflexivity.
    + apply String.eqb_neq in Hu. rewrite lookup_insert_ne by exact Hu. exact IH.
Qed.

Lemma set_fields_username (kwargs : list change) (u : user) :
  username (set_fields kwargs u) = username u.
Proof.
  unfold set_fields. revert u.
  induction kwargs as [ | c kwargs IH ]; intros u; cbn [fold_left].
  - reflexivity.
  - rewrite IH. destruct c; reflexivity.
Qed.

Lemma users_map_snoc (users : list user) (u : user) :
  users_map users !! username u = None ->
  users_map (users ++ [u]) = <[username u := u]> (users_map users).
Proof.
  induction users as [ | v users IH ]; intros Hnew.
  - reflexivity.
  - cbn [app]. rewrite !users_map_cons in *.
    destruct (decide (username v = username u)) as [ Heq | Hne ].
    + rewrite Heq, lookup_insert_eq in Hnew. discriminate Hnew.
    + rewrite lookup_insert_ne in Hnew by exact Hne.
      rewrite IH by exact Hnew. apply insert_insert_ne. exact Hne.
Qed.

Lemma names_lookup (users : list user) (name : string) :
  name ∉ map username users -> users_map users !! name = None.
Proof.
  induction users as [ | u users IH ]; cbn [map]; intros Hout.
  - reflexivity.
  - rewrite users_map_cons. apply not_elem_of_cons in Hout as [ Hne Hout ].
    rewrite lookup_insert_ne by congruence. apply IH, Hout.
Qed.

Lemma lookup_names (users : list user) (name : string) :
  users_map users !! name = None -> name ∉ map username users.
Proof.
  induction users as [ | u users IH ]; cbn [map]; intros Hnone.
  - apply not_elem_of_nil.
  - rewrite users_map_cons in Hnone.
    destruct (decide (username u = name)) as [ Heq | Hne ].
    + rewrite Heq, lookup_insert_eq in Hnone. discriminate Hnone.
    + rewrite lookup_insert_ne in Hnone by exact Hne.
      apply not_elem_of_cons. split; [ congruence | apply IH, Hnone ].
Qed.

Lemma update_user_names (name : string) (kwargs : list change) (users : list user) :
  map username (snd (update_user name kwargs users)) = map username users.
Proof.
  induction users as [ | u users IH ]; cbn [update_user].
  - reflexivity.
  - destruct (String.eqb (username u) name).
    + cbn [snd map]. rewrite set_fields_username. reflexivity.
    + destruct (update_user name kwargs users) as [ r rest ]. cbn [snd map] in *.
      rewrite IH. reflexivity.
Qed.

Lemma update_user_map (name : string) (kwargs : list change) (users : list user) :
  users_map (snd (update_user name kwargs users)) =
  match users_map users !! name with
  | Some u => <[name := set_fields kwargs u]> (users_map users)
  | None => users_map users
  end.
Proof.
  induction users as [ | u users IH ]; cbn [update_user].
  - reflexivity.
  - rewrite users_map_cons. destruct (String.eqb (username u) name) eqn:Hu.
    + apply String.eqb_eq in Hu as <-. cbn [snd].
      rewrite users_map_cons, set_fields_username, lookup_insert_eq, insert_insert_eq.
      reflexivity.
    + apply String.eqb_neq in Hu.
      destruct (update_user name kwargs users) as [ r rest ]. cbn [snd] in *.
      rewrite users_map_cons, IH, lookup_insert_ne by exact Hu.
      destruct (users_map users !! name); [ | reflexivity ].
      apply insert_insert_ne. exact Hu.
Qed.

Lemma remove_user_sublist (name : string) (users : list user) :
  snd (remove_user name users) `sublist_of` users.
Proof.
  induction users as [ | u users IH ]; cbn [remove_user].
  - constructor.
  - destruct (String.eqb (username u) name).
    + cbn [snd]. apply sublist_cons, reflexivity.
    + destruct (remove_user name users) as [ r rest ]. cbn [snd] in *.
      apply sublist_skip, IH.
Qed.

Lemma remove_user_map (name : string) (users : list user) :
  NoDup (map username users) ->
  users_map (snd (remove_user name users)) = delete name (users_map users).
Proof.
  induction users as [ | u users IH ]; cbn [remove_user map]; intros Hnodup.
  - symmetry. apply delete_empty.
  - apply NoDup_cons in Hnodup as [ Hout Hnodup ]. rewrite users_map_cons.
    destruct (String.eqb (username u) name) eqn:Hu.
    + apply String.eqb_eq in Hu as <-. cbn [snd]. symmetry.
      apply delete_insert_id, names_lookup, Hout.
    + apply String.eqb_neq in Hu.
      destruct (remove_user name users) as [ r rest ]. cbn [snd] in *.
      rewrite users_map_cons, IH by exact Hnodup.
      symmetry. apply delete_insert_ne. congruence.
Qed.

Lemma remove_user_found (name : string) (users : list user) :
  fst (remove_user name users) = bool_decide (is_Some (get_user users name)).
Proof.
  induction users as [ | u users IH ]; cbn [remove_user get_user].
  - symmetry. apply bool_decide_eq_false_2. intros [ x Hx ]. discriminate Hx.
  - destruct (String.eqb (username u) name).
    + symmetry. apply bool_decide_eq_true_2. eauto.
    + destruct (remove_user name users) as [ r rest ]. exact IH.
Qed.

Section Manager.
Variable display : string -> string.
Variable initials_of : string -> string.

Local Abbreviation add_user := (Users.add_user display initials_of).
Local Abbreviation apply_call := (Users.apply_call display initials_of).
Local Abbreviation run_calls := (Users.run_calls display initials_of).
Local Abbreviation map_call := (More.map_call display initials_of).
Local Abbreviation map_calls := (More.map_calls display initials_of).

Lemma apply_call_refines (c : call) (users : list user) :
  NoDup (map username users) ->
  NoDup (map username (apply_call c users)) /\
  users_map (apply_call c users) = map_call c (users_map users).
Proof.
  intros Hnodup. destruct c as [ name urn now | name kwargs | name ];
    cbn [Users.apply_call More.map_call].
  - unfold Users.add_user. rewrite get_user_lookup.
    destruct (users_map users !! name) as [ existing | ] eqn:Hget; cbn [snd].
    + split; [ exact Hnodup | reflexivity ].
    + split.
      * rewrite map_app. cbn [map username]. apply NoDup_app.
        split; [ exact Hnodup | ]. split; [ | apply NoDup_singleton ].
        intros x Hx Hx'. apply list_elem_of_singleton in Hx' as ->.
        exact (lookup_names users name Hget Hx).
      * apply (users_map_snoc users
                 {| username := name; display_name := display name;
                    profile_urn := urn; initials := initials_of (display name);
                    added_at := now; last_scraped := None; post_count := 0;
                    session_dir := None |}).
        exact Hget.
  - split; [ rewrite update_user_names; exact Hnodup | apply update_user_map ].
  - split; [ | apply remove_user_map, Hnodup ].
    eapply sublist_NoDup;
      first [ exact Hnodup
            | apply (NumberingMore.sublist_map username), remove_user_sublist ].
Qed.

Lemma run_calls_refines (calls : list call) :
  forall users,
  NoDup (map username users) ->
  NoDup (map username (run_calls calls users)) /\
  users_map (run_calls calls users) = map_calls calls (users_map users).
Proof.
  induction calls as [ | c calls IH ]; intros users Hnodup.
  - split; [ exact Hnodup | reflexivity ].
  - destruct (apply_call_refines c users Hnodup) as [ Hnodup' Hmap ].
    destruct (IH (apply_call c users) Hnodup') as [ Hn Hm ].
    unfold Users.run_calls, More.map_calls in *. cbn [fold_left].
    split; [ exact Hn | ]. rewrite Hm, Hmap. reflexivity.
Qed.

(** X23.  The list of tracked users works as a finite map from names.
    From a list in which no two users have the same name, and so from the
    empty list of a first run, any sequence of calls of [add_user],
    [update_user] and [remove_user] leaves such a list, and [get_user]
    finds in it what the same calls leave in a map: a user added under a
    name that is tracked changes nothing, an update changes the fields it
    names and never the name, and a user that is removed is not found any
    more. *)
Theorem tracked_users_are_a_map (calls : list call) (users : list user) :
  NoDup (map username users) ->
  let users' := run_calls calls users in
  NoDup (map username users') /\
  (forall name, get_user users' name = map_calls calls (users_map users) !! name) /\
  (forall name, get_user (snd (remove_user name users')) name = None) /\
  (forall name, fst (remove_user name users') =
                bool_decide (is_Some (get_user users' name))).
Proof.
  intros Hnodup. cbn zeta.
  destruct (run_calls_refines calls users Hnodup) as [ Hn Hm ].
  split; [ exact Hn | ]. split; [ | split ].
  - intros name. rewrite get_user_lookup, Hm. reflexivity.
  - intros name. rewrite get_user_lookup, remove_user_map by exact Hn.
    apply lookup_delete_eq.
  - intros name. apply remove_user_found.
Qed.

End Manager.

Lemma tracked_users_are_a_map_witness :
  let calls :=
    [Add "ann" None "t1"; Add "bob" None "t2"; Add "ann" (Some "urn") "t3";
     Update "ann" [SetPostCount 12]; Remove "bob"] in
  let users' := Users.run_calls plain_name first_letter calls [] in
  NoDup (map username users') /\
  (forall name,
      get_user users' name =
      More.map_calls plain_name first_letter calls (users_map []) !! name) /\
  (forall name, get_user (snd (remove_user name users')) name = None) /\
  (forall name, fst (remove_user name users') =
                bool_decide (is_Some (get_user users' name))).
Proof.
  apply (tracked_users_are_a_map plain_name first_letter
           [Add "ann" None "t1"; Add "bob" None "t2"; Add "ann" (Some "urn") "t3";
            Update "ann" [SetPostCount 12]; Remove "bob"] []).
  apply NoDup_nil_2.
Defined.

(** Without distinct names a removed user is still found: the list of a
    file that names a user twice. *)
Example duplicate_survives_removal :
  let u :=
    {| username := "ann"; display_name := "Ann"; profile_urn := None;
       initials := "A"; added_at := "t"; last_scraped := None; post_count := 0;
       session_dir := None |} in
  option_map username (get_user (snd (remove_user "ann" [u; u])) "ann") = Some "ann".
Proof. reflexivity. Qed.

Example sample_tracked_users :
  map (fun u => (username u, post_count u, added_at u))
    (Users.run_calls plain_name first_letter
       [Add "ann" None "t1"; Add "bob" None "t2"; Add "ann" (Some "urn") "t3";
        Update "ann" [SetPostCount 12]; Remove "bob"] []) =
  [("ann", 12, "t1")].
Proof. reflexivity. Qed.

End UsersMore.
